(** * Customer retention dashboard: the client-side core

    A shallow embedding of the React front end of the telecom customer
    retention agent:

    - [normalizeCustomerData] and [calculateRiskLevel] (utils/normalizeData.js),
    - the filter/search/sort effect, the polling effect, [pollTaskStatus] and
      [handleFileSelect] of [AppProvider] (context/AppContext.jsx),
    - [getItemSize], [calculateColumns], [rowCount], [columnWidth], [Row]
      and the reset effect of [VirtualizedCustomerGrid],
    - [handleCardToggle] of [CustomerListPage], the colors of
      [CustomerCard] and [calculateKPIs] of [KPICards].

    A JavaScript number is modelled by its value, a rational ([Q]).  The
    operations of the code whose result is stored or rounded again (the
    multiplication by 100 of the normalizer, [parseInt], the sums, quotients
    and products of [calculateKPIs]) round their exact result to the nearest
    binary64 number, ties to even ([Double.round64]); comparisons are exact,
    and a difference that a comparator returns is read for its sign only,
    which rounding does not change.  [Infinity] is the value [2 ^ 1024], the
    first power of two beyond the finite binary64 numbers; NaN, which a JSON
    payload cannot carry, appears only as the [None] result of
    [parseFloat].  Strings are Rocq strings (sequences of 8-bit
    characters), so the string functions are those of JavaScript on ASCII
    text.  The conversions and the collation of the host ([parseFloat],
    ToString, [localeCompare]) are parameters of the definitions that call
    them; [ExampleHost] gives one instance, used by the closed examples. *)

From Stdlib Require Import List Bool Arith ZArith QArith Qround Qabs Qpower.
From Stdlib Require Import Lia Lqa.
From Stdlib Require Import String Ascii DecimalString.
From Stdlib Require Import Permutation Sorted.
From Stdlib Require OrderedTypeEx DecimalNat.
Import ListNotations.

Set Implicit Arguments.
Set Warnings "-register-all".

Local Open Scope string_scope.
Local Open Scope list_scope.

(* ===================================================================== *)
(** ** JavaScript values and exceptions *)
(* ===================================================================== *)

Module Js.

(** A value decoded from JSON, plus [undefined] for what is absent. *)
Inductive jsval : Type :=
| JUndefined
| JNull
| JBool (b : bool)
| JNum (n : Q)
| JStr (s : string)
| JArr (items : list jsval)
| JObj (fields : list (string * jsval)).

(** The only exception the modelled code can raise by itself. *)
Inductive js_error : Type := TypeError.

(** A computation that returns or throws. *)
Inductive result (A : Type) : Type :=
| Ok (a : A)
| Throw (e : js_error).
Arguments Ok {A} a.
Arguments Throw {A} e.

Definition bind {A B} (m : result A) (k : A -> result B) : result B :=
  match m with
  | Ok a => k a
  | Throw e => Throw e
  end.

Notation "x <- m ;; k" := (bind m (fun x => k))
  (at level 61, m at next level, right associativity).

(** [array.map(f)] with the index, stopping at the first exception. *)
Fixpoint mapi_from {A B} (f : A -> nat -> result B) (i : nat) (l : list A)
  : result (list B) :=
  match l with
  | [] => Ok []
  | x :: l' =>
      y <- f x i ;;
      ys <- mapi_from f (S i) l' ;;
      Ok (y :: ys)
  end.

(** [array.filter(p)], stopping at the first exception. *)
Fixpoint filterM {A} (p : A -> result bool) (l : list A) : result (list A) :=
  match l with
  | [] => Ok []
  | x :: l' =>
      b <- p x ;;
      ys <- filterM p l' ;;
      Ok (if b then x :: ys else ys)
  end.

(** ToBoolean. *)
Definition truthy (v : jsval) : bool :=
  match v with
  | JUndefined | JNull => false
  | JBool b => b
  | JNum n => negb (Qeq_bool n 0)
  | JStr s => negb (s =? "")
  | JArr _ | JObj _ => true
  end.

(** [a || b] and [a && b] on already evaluated operands. *)
Definition js_or (a b : jsval) : jsval := if truthy a then a else b.
Definition js_and (a b : jsval) : jsval := if truthy a then b else a.

Definition isArray (v : jsval) : bool :=
  match v with JArr _ => true | _ => false end.

Definition string_of_nat (n : nat) : string :=
  NilZero.string_of_uint (Nat.to_uint n).

(** An array index written as a property key: the canonical decimal form. *)
Definition index_of_key (k : string) : option nat :=
  match NilZero.uint_of_string k with
  | Some u =>
      let n := Nat.of_uint u in
      if string_of_nat n =? k then Some n else None
  | None => None
  end.

Fixpoint assoc (k : string) (fields : list (string * jsval)) : jsval :=
  match fields with
  | [] => JUndefined
  | (k', v) :: rest => if k' =? k then v else assoc k rest
  end.

Definition nth_char (s : string) (i : nat) : jsval :=
  match String.get i s with
  | Some c => JStr (String c EmptyString)
  | None => JUndefined
  end.

(** [v[i]] for a number [i] that is an array index. *)
Definition get_index (v : jsval) (i : nat) : result jsval :=
  match v with
  | JUndefined | JNull => Throw TypeError
  | JArr items => Ok (nth i items JUndefined)
  | JStr s => Ok (nth_char s i)
  | JObj fields => Ok (assoc (string_of_nat i) fields)
  | JBool _ | JNum _ => Ok JUndefined
  end.

(** [v.k] and [v[k]] for a string key: the data properties of the value.
    Reading a property of [null] or [undefined] throws; the methods that
    arrays and strings inherit are functions, which are not data of this
    model, and no key read by the code names one. *)
Definition get (v : jsval) (k : string) : result jsval :=
  match v with
  | JUndefined | JNull => Throw TypeError
  | JObj fields => Ok (assoc k fields)
  | JArr items =>
      match index_of_key k with
      | Some i => Ok (nth i items JUndefined)
      | None =>
          if k =? "length" then Ok (JNum (inject_Z (Z.of_nat (List.length items))))
          else Ok JUndefined
      end
  | JStr s =>
      match index_of_key k with
      | Some i => Ok (nth_char s i)
      | None =>
          if k =? "length" then Ok (JNum (inject_Z (Z.of_nat (String.length s))))
          else Ok JUndefined
      end
  | JBool _ | JNum _ => Ok JUndefined
  end.

(** [v?.k]. *)
Definition get_opt (v : jsval) (k : string) : jsval :=
  match get v k with
  | Ok x => x
  | Throw _ => JUndefined
  end.

(** [const { k = dflt } = v]: the default replaces [undefined] only. *)
Definition destructure (v : jsval) (k : string) (dflt : jsval) : result jsval :=
  x <- get v k ;;
  Ok (match x with JUndefined => dflt | _ => x end).

(** [a === b].  On primitives it compares values; on arrays and objects it
    compares references, which this model does not have: two of them are
    taken to be distinct. *)
Definition strict_equal (a b : jsval) : bool :=
  match a, b with
  | JUndefined, JUndefined => true
  | JNull, JNull => true
  | JBool x, JBool y => Bool.eqb x y
  | JNum x, JNum y => Qeq_bool x y
  | JStr x, JStr y => x =? y
  | _, _ => false
  end.

(** ASCII [toLowerCase]. *)
Definition lower_char (c : ascii) : ascii :=
  let n := nat_of_ascii c in
  if (65 <=? n)%nat && (n <=? 90)%nat then ascii_of_nat (n + 32) else c.

Fixpoint lower (s : string) : string :=
  match s with
  | EmptyString => EmptyString
  | String c s' => String (lower_char c) (lower s')
  end.

(** [v.toLowerCase()]: only a string has the method. *)
Definition toLowerCase (v : jsval) : result string :=
  match v with
  | JStr s => Ok (lower s)
  | _ => Throw TypeError
  end.

(** [s.includes(q)]. *)
Fixpoint includes (s q : string) : bool :=
  String.prefix q s ||
  match s with
  | EmptyString => false
  | String _ s' => includes s' q
  end.

End Js.
Import Js.

(* ===================================================================== *)
(** ** Binary64 arithmetic *)
(* ===================================================================== *)

Module Double.

Local Open Scope Q_scope.

(** The integer [z] with [2 ^ z <= x < 2 ^ (z + 1)], for a positive [x]. *)
Definition ilog2 (x : Q) : Z :=
  if Qle_bool 1 x then Z.log2 (Qfloor x)
  else (- Z.log2_up (Qceiling (/ x)))%Z.

(** The nearest integer, the even one of two that are as near. *)
Definition roundHalfEven (x : Q) : Z :=
  let f := Qfloor x in
  let r := x - inject_Z f in
  if negb (Qle_bool (1 # 2) r) then f
  else if negb (Qle_bool r (1 # 2)) then (f + 1)%Z
  else if Z.even f then f
  else (f + 1)%Z.

(** The exponent of the unit in the last place of the binary64 numbers
    around [x]: 53 significant bits, and -1074 for the subnormal ones. *)
Definition ulpExponent (x : Q) : Z := Z.max (ilog2 (Qabs x) - 52) (-1074).

(** The value that stands for [Infinity]. *)
Definition infinity : Q := 2 ^ 1024.

(** The multiple of the unit in the last place that is nearest to [x]. *)
Definition nearest (x : Q) : Q :=
  let e := ulpExponent x in
  Qred (inject_Z (roundHalfEven (x / 2 ^ e)) * 2 ^ e).

(** The binary64 number an operation returns when its exact result is [x]:
    [x] itself when it is one, the nearest one otherwise, an infinity past
    the largest. *)
Definition round64 (x : Q) : Q :=
  if Qeq_bool x 0 then x
  else
    let y := nearest x in
    if Qle_bool infinity y then infinity
    else if Qle_bool y (- infinity) then - infinity
    else if Qeq_bool y x then x
    else y.

(** [a + b], [a * b] and [a / b] on numbers that are not infinite, for a
    divisor that is not zero. *)
Definition add (a b : Q) : Q := round64 (a + b).
Definition mul (a b : Q) : Q := round64 (a * b).
Definition div (a b : Q) : Q := round64 (a / b).

End Double.

(* ===================================================================== *)
(** ** Result normalizer (utils/normalizeData.js) *)
(* ===================================================================== *)

Module Normalize.

(** The three values of [risk_level]. *)
Inductive risk : Type := low | medium | high.

Definition risk_eqb (a b : risk) : bool :=
  match a, b with
  | low, low | medium, medium | high, high => true
  | _, _ => false
  end.

Definition Qlt_bool (x y : Q) : bool := negb (Qle_bool y x).

(** [calculateRiskLevel(churnProbability)]. *)
Definition calculateRiskLevel (churnProbability : Q) : risk :=
  if Qlt_bool churnProbability 40 then low
  else if Qle_bool churnProbability 70 then medium
  else high.

(** The object built for each entry of [customer_churn]. *)
Record customer : Type := mkCustomer {
  id : jsval;
  churn_probability : Q;
  risk_level : risk;
  reason : jsval;
  strategy : jsval;
  feature_values : jsval;
  shap_feature_values : jsval;
  contract_type : jsval;
  internet_service : jsval;
  monthly_charges : jsval
}.

Section Host.

(** The two conversions of the host that the normalizer calls on arbitrary
    values: [parseFloat] ([None] is NaN) and ToString, used when a value that
    is not a string serves as a property key. *)
Variable parseFloat : jsval -> option Q.
Variable ToString : jsval -> string.

Definition toPropertyKey (v : jsval) : string :=
  match v with
  | JStr s => s
  | _ => ToString v
  end.

(** [typeof p === 'number' ? p : parseFloat(p) || 0]. *)
Definition resolveProbability (p : jsval) : Q :=
  match p with
  | JNum n => n
  | _ =>
      match parseFloat p with
      | Some n => if Qeq_bool n 0 then 0 else n
      | None => 0
      end
  end.

(** [if (churnProbability <= 1) churnProbability = churnProbability * 100]. *)
Definition scaleProbability (churnProbability : Q) : Q :=
  if Qle_bool churnProbability 1 then Double.mul churnProbability 100
  else churnProbability.

(** The callback given to [customer_churn.map]. *)
Definition normalizeEntry
  (customer_reasons retention_strategies customer_insights : jsval)
  (c : jsval) (index : nat) : result customer :=
  p <- get c "churn_probability" ;;
  let churnProbability := scaleProbability (resolveProbability p) in
  rawId <- get c "id" ;;
  let customerId := js_or rawId (JStr ("customer-" ++ string_of_nat (index + 1))) in
  found <- get customer_insights (toPropertyKey customerId) ;;
  let insights := js_or found (JObj []) in
  fv <- get insights "feature_values" ;;
  let featureValues := js_or fv (JObj []) in
  sv <- get insights "shap_feature_values" ;;
  let shapValues := js_or sv (JObj []) in
  contract1 <- get featureValues "Contract" ;;
  contract2 <- get featureValues "contract" ;;
  let contractType := js_or (js_or contract1 contract2) (JStr "") in
  internet1 <- get featureValues "InternetService" ;;
  internet2 <- get featureValues "internet_service" ;;
  let internetService := js_or (js_or internet1 internet2) (JStr "") in
  charges1 <- get featureValues "MonthlyCharges" ;;
  charges2 <- get featureValues "monthly_charges" ;;
  let monthlyCharges := js_or (js_or charges1 charges2) JNull in
  r <- get_index customer_reasons index ;;
  s <- get_index retention_strategies index ;;
  Ok {| id := customerId;
        churn_probability := churnProbability;
        risk_level := calculateRiskLevel churnProbability;
        reason := js_or r (JStr "");
        strategy := js_or s (JStr "");
        feature_values := featureValues;
        shap_feature_values := shapValues;
        contract_type := contractType;
        internet_service := internetService;
        monthly_charges := monthlyCharges |}.

(** [normalizeCustomerData(result)]. *)
Definition normalizeCustomerData (result : jsval) : Js.result (list customer) :=
  customer_churn <- destructure result "customer_churn" (JArr []) ;;
  customer_reasons <- destructure result "customer_reasons" (JArr []) ;;
  retention_strategies <- destructure result "retention_strategies" (JArr []) ;;
  customer_insights <- destructure result "customer_insights" (JObj []) ;;
  match customer_churn with
  | JArr entries =>
      mapi_from
        (normalizeEntry customer_reasons retention_strategies customer_insights)
        0 entries
  | _ => Throw TypeError
  end.

(** The effect of [AppProvider] that runs when [results] changes: the value
    it stores in [normalizedCustomers] (and in [filteredCustomers]). *)
Definition normalizeResults (results : jsval) : Js.result (list customer) :=
  if truthy results then
    customer_churn <- get results "customer_churn" ;;
    if truthy customer_churn then
      if isArray customer_churn then normalizeCustomerData results
      else Ok []
    else Ok []
  else Ok [].

(** The raw scores of a payload, resolved to numbers: what the callback
    reads from the entries of [customer_churn], in order. *)
Definition rawScores (payload : jsval) : list Q :=
  match get_opt payload "customer_churn" with
  | JArr entries =>
      map (fun c => resolveProbability (get_opt c "churn_probability")) entries
  | _ => []
  end.

End Host.

End Normalize.
Import Normalize.

(* ===================================================================== *)
(** ** View pipeline (the filter/search/sort effect of AppProvider) *)
(* ===================================================================== *)

Module View.

(** The state the effect depends on, besides [normalizedCustomers]. *)
Record query : Type := mkQuery {
  activeFilter : string;
  searchQuery : string;
  sortType : string;
  planTypeFilter : string;
  contractTypeFilter : string;
  regionFilter : string
}.

(** [if (s)] for a string. *)
Definition nonEmpty (s : string) : bool := negb (s =? "").

(** *** Filter stages *)

Definition isCritical (c : customer) : bool :=
  risk_eqb (risk_level c) high && Qle_bool 90 (churn_probability c).

Definition isHigh (c : customer) : bool :=
  risk_eqb (risk_level c) high && Qle_bool 70 (churn_probability c)
  && Qlt_bool (churn_probability c) 90.

Definition isLow (c : customer) : bool := risk_eqb (risk_level c) low.

(** [value && value.toLowerCase() === wanted.toLowerCase()]. *)
Definition matchesCategory (value : jsval) (wanted : string) : result bool :=
  if truthy value then
    s <- toLowerCase value ;;
    Ok (s =? lower wanted)
  else Ok false.

Definition planTypeOf (c : customer) : jsval :=
  js_or (js_or (internet_service c)
               (get_opt (feature_values c) "InternetService"))
        (get_opt (feature_values c) "internet_service").

Definition contractTypeOf (c : customer) : jsval :=
  js_or (js_or (contract_type c)
               (get_opt (feature_values c) "Contract"))
        (get_opt (feature_values c) "contract").

Definition regionOf (c : customer) : jsval :=
  js_or (get_opt (feature_values c) "Region")
        (get_opt (feature_values c) "region").

(** The filters of the effect, as it applies them to a copy of
    [normalizedCustomers]: risk level, plan type, contract type, region,
    search. *)
Definition applyFilters (q : query) (normalizedCustomers : list customer)
  : result (list customer) :=
  let filtered := normalizedCustomers in
  filtered <-
    (if activeFilter q =? "critical"
     then filterM (fun c => Ok (isCritical c)) filtered
     else if activeFilter q =? "high"
     then filterM (fun c => Ok (isHigh c)) filtered
     else if activeFilter q =? "low"
     then filterM (fun c => Ok (isLow c)) filtered
     else Ok filtered) ;;
  filtered <-
    (if nonEmpty (planTypeFilter q)
     then filterM
            (fun c => matchesCategory (planTypeOf c) (planTypeFilter q))
            filtered
     else Ok filtered) ;;
  filtered <-
    (if nonEmpty (contractTypeFilter q)
     then filterM
            (fun c => matchesCategory (contractTypeOf c) (contractTypeFilter q))
            filtered
     else Ok filtered) ;;
  filtered <-
    (if nonEmpty (regionFilter q)
     then filterM (fun c => matchesCategory (regionOf c) (regionFilter q))
            filtered
     else Ok filtered) ;;
  if nonEmpty (searchQuery q)
  then
    let query := lower (searchQuery q) in
    filterM (fun c => s <- toLowerCase (id c) ;; Ok (includes s query)) filtered
  else Ok filtered.

(** *** The stages one by one *)

(** The callback of each stage as a function of the query, an inactive
    stage having the constantly true callback. *)
Definition riskPred (activeFilter : string) (c : customer) : result bool :=
  if activeFilter =? "critical" then Ok (isCritical c)
  else if activeFilter =? "high" then Ok (isHigh c)
  else if activeFilter =? "low" then Ok (isLow c)
  else Ok true.

Definition planPred (planTypeFilter : string) (c : customer) : result bool :=
  if nonEmpty planTypeFilter then matchesCategory (planTypeOf c) planTypeFilter
  else Ok true.

Definition contractPred (contractTypeFilter : string) (c : customer)
  : result bool :=
  if nonEmpty contractTypeFilter
  then matchesCategory (contractTypeOf c) contractTypeFilter
  else Ok true.

Definition regionPred (regionFilter : string) (c : customer) : result bool :=
  if nonEmpty regionFilter then matchesCategory (regionOf c) regionFilter
  else Ok true.

Definition searchPred (searchQuery : string) (c : customer) : result bool :=
  if nonEmpty searchQuery then
    s <- toLowerCase (id c) ;;
    Ok (includes s (lower searchQuery))
  else Ok true.

(** One stage: [if (active) filtered = filtered.filter(callback)]. *)
Inductive stage : Type :=
  RiskStage | PlanStage | ContractStage | RegionStage | SearchStage.

Definition stagePred (q : query) (st : stage) : customer -> result bool :=
  match st with
  | RiskStage => riskPred (activeFilter q)
  | PlanStage => planPred (planTypeFilter q)
  | ContractStage => contractPred (contractTypeFilter q)
  | RegionStage => regionPred (regionFilter q)
  | SearchStage => searchPred (searchQuery q)
  end.

Definition stageActive (q : query) (st : stage) : bool :=
  match st with
  | RiskStage =>
      (activeFilter q =? "critical") || (activeFilter q =? "high")
      || (activeFilter q =? "low")
  | PlanStage => nonEmpty (planTypeFilter q)
  | ContractStage => nonEmpty (contractTypeFilter q)
  | RegionStage => nonEmpty (regionFilter q)
  | SearchStage => nonEmpty (searchQuery q)
  end.

Definition runStage (q : query) (st : stage) (l : list customer)
  : result (list customer) :=
  if stageActive q st then filterM (stagePred q st) l else Ok l.

Fixpoint runStages (q : query) (sts : list stage) (l : list customer)
  : result (list customer) :=
  match sts with
  | [] => Ok l
  | st :: rest => l' <- runStage q st l ;; runStages q rest l'
  end.

(** The order in which the effect applies them. *)
Definition sourceOrder : list stage :=
  [RiskStage; PlanStage; ContractStage; RegionStage; SearchStage].

(** *** Sorting *)

(** [array.sort(compare)]: a stable sort by the sign of the comparator,
    written as an insertion sort.  For a consistent comparator every stable
    sort returns this list. *)
Fixpoint insertM {A} (compare : A -> A -> result Q) (x : A) (l : list A)
  : result (list A) :=
  match l with
  | [] => Ok [x]
  | y :: l' =>
      v <- compare x y ;;
      if Qle_bool v 0 then Ok (x :: y :: l')
      else (r <- insertM compare x l' ;; Ok (y :: r))
  end.

Fixpoint sortM {A} (compare : A -> A -> result Q) (l : list A)
  : result (list A) :=
  match l with
  | [] => Ok []
  | x :: l' => s <- sortM compare l' ;; insertM compare x s
  end.

Definition isDigit (c : ascii) : bool :=
  let n := nat_of_ascii c in (48 <=? n)%nat && (n <=? 57)%nat.

Fixpoint takeDigits (s : string) : string :=
  match s with
  | EmptyString => EmptyString
  | String c s' => if isDigit c then String c (takeDigits s') else EmptyString
  end.

(** [s.match(/\d+/)?.[0]]: the first run of digits, when there is one. *)
Fixpoint firstDigitRun (s : string) : option string :=
  match s with
  | EmptyString => None
  | String c s' =>
      if isDigit c then Some (String c (takeDigits s')) else firstDigitRun s'
  end.

Definition digitValue (c : ascii) : Z := Z.of_nat (nat_of_ascii c - 48).

Fixpoint parseDigits (acc : Z) (s : string) : Z :=
  match s with
  | EmptyString => acc
  | String c s' =>
      if isDigit c then parseDigits (10 * acc + digitValue c) s' else acc
  end.

(** [parseInt(s)] for a string that starts with a digit: the number
    nearest to the integer the digits write, which is that integer up to
    2^53.  (Past twenty digits the standard lets the host approximate the
    integer before rounding; the integer is taken as written.) *)
Definition parseInt (s : string) : Q :=
  Double.round64 (inject_Z (parseDigits 0 s)).

(** [parseInt(v.id.match(/\d+/)?.[0] || '0')]; only a string has [match]. *)
Definition idNumber (v : jsval) : result Q :=
  match v with
  | JStr s =>
      match firstDigitRun s with
      | Some run => Ok (parseInt run)
      | None => Ok (parseInt "0")
      end
  | _ => Throw TypeError
  end.

(** *** The entities the pipeline is meant for *)

Definition isString (v : jsval) : bool :=
  match v with JStr _ => true | _ => false end.

Definition stringOrFalsy (v : jsval) : bool :=
  isString v || negb (truthy v).

(** A normalized entity as the data model has it: the id is a string, and
    each categorical field is a string or absent. *)
Definition wellTyped (c : customer) : bool :=
  isString (id c) && stringOrFalsy (planTypeOf c)
  && stringOrFalsy (contractTypeOf c) && stringOrFalsy (regionOf c).

Definition allWellTyped (l : list customer) : Prop :=
  Forall (fun c => wellTyped c = true) l.

(** Whether an entity satisfies the predicate of a stage. *)
Definition passes (q : query) (st : stage) (c : customer) : bool :=
  match stagePred q st c with
  | Ok b => b
  | Throw _ => false
  end.

Definition passesAll (q : query) (c : customer) : bool :=
  forallb (fun st => passes q st c) sourceOrder.

(** The query with another sort key. *)
Definition withSort (key : string) (q : query) : query :=
  mkQuery (activeFilter q) (searchQuery q) key (planTypeFilter q)
          (contractTypeFilter q) (regionFilter q).

(** The two parts of the id that the id-asc comparator reads. *)
Definition idNumberOf (c : customer) : Q :=
  match idNumber (id c) with
  | Ok n => n
  | Throw _ => 0
  end.

Definition idText (c : customer) : string :=
  match id c with
  | JStr s => s
  | _ => ""
  end.

Section Collation.

(** [a.localeCompare(b)] of the host: negative, zero or positive. *)
Variable localeCompare : string -> string -> Z.

Definition idLocaleCompare (a b : jsval) : result Z :=
  match a, b with
  | JStr x, JStr y => Ok (localeCompare x y)
  | _, _ => Throw TypeError
  end.

(** The comparators.  [Array.prototype.sort] reads the sign of what they
    return; the differences are written exactly, the rounded difference of
    two numbers having the sign of the exact one. *)
Definition byProbabilityDesc (a b : customer) : result Q :=
  Ok (churn_probability b - churn_probability a).

Definition byProbabilityAsc (a b : customer) : result Q :=
  Ok (churn_probability a - churn_probability b).

Definition byIdAsc (a b : customer) : result Q :=
  numA <- idNumber (id a) ;;
  numB <- idNumber (id b) ;;
  if negb (Qeq_bool numA numB) then Ok (numA - numB)
  else (r <- idLocaleCompare (id a) (id b) ;; Ok (inject_Z r)).

Definition sortCustomers (sortType : string) (l : list customer)
  : result (list customer) :=
  if (sortType =? "probability-desc") || (sortType =? "highest-risk")
  then sortM byProbabilityDesc l
  else if sortType =? "lowest-risk" then sortM byProbabilityAsc l
  else if sortType =? "id-asc" then sortM byIdAsc l
  else Ok l.

(** The value the effect stores in [filteredCustomers]. *)
Definition computeView (normalizedCustomers : list customer) (q : query)
  : result (list customer) :=
  filtered <- applyFilters q normalizedCustomers ;;
  sortCustomers (sortType q) filtered.

(** The order of the id-asc key: by the number of the first digit run, and
    by [localeCompare] of the whole id between equal numbers. *)
Definition idOrder (a b : customer) : Prop :=
  (idNumberOf a < idNumberOf b)%Q
  \/ (idNumberOf a == idNumberOf b
      /\ (localeCompare (idText a) (idText b) <= 0)%Z).

End Collation.

End View.

(* ===================================================================== *)
(** ** Row heights of the virtualized grid (VirtualizedCustomerGrid.jsx) *)
(* ===================================================================== *)

Module Grid.

Definition BASE_ROW_HEIGHT : Z := 420.
Definition EXPANDED_ROW_HEIGHT : Z := 790.

(** The [for] loop of [getItemSize]: [count] iterations from index [i]. *)
Fixpoint scanRow (customers : list customer) (expandedCardId : jsval)
  (i count : nat) : Z :=
  match count with
  | O => BASE_ROW_HEIGHT
  | S count' =>
      match nth_error customers i with
      | Some c =>
          if strict_equal (id c) expandedCardId then EXPANDED_ROW_HEIGHT
          else scanRow customers expandedCardId (S i) count'
      | None => scanRow customers expandedCardId (S i) count'
      end
  end.

(** [getItemSize(index)]. *)
Definition getItemSize (customers : list customer) (columnCount : nat)
  (expandedCardId : jsval) (index : nat) : Z :=
  let startIndex := (index * columnCount)%nat in
  let endIndex :=
    Nat.min (startIndex + columnCount)%nat (List.length customers) in
  scanRow customers expandedCardId startIndex (endIndex - startIndex)%nat.

(** The entity at index [i] of the view is the expanded one. *)
Definition expandedAt (customers : list customer) (expandedCardId : jsval)
  (i : nat) : Prop :=
  exists c, nth_error customers i = Some c
            /\ strict_equal (id c) expandedCardId = true.

End Grid.

(* ===================================================================== *)
(** ** Application state container and task poller (AppContext.jsx) *)
(* ===================================================================== *)

Module App.

Definition POLLING_INTERVAL : Z := 5000.
Definition MAX_POLLING_TIME : Z := 30 * 60 * 1000.

Definition TIMEOUT_MESSAGE : string :=
  "Pipeline processing took too long. Please try again or contact support.".

(** What [useState] holds (the two derived lists, which the effects
    recompute from [results] and the query, are left out). *)
Record react_state : Type := mkReact {
  file : option string;
  loading : bool;
  error : option string;
  results : jsval;
  taskId : option string;
  status : option string;
  query : View.query;
  expandedCardId : jsval
}.

(** A network call made through services/api. *)
Inductive request : Type :=
| Upload (file : string)
| StatusCheck (id : string).

(** The two refs and the part of the host they talk to: the live intervals
    (handle and the task id its callback closes over), the next handle
    [setInterval] hands out, and the calls issued so far, newest first. *)
Record machine : Type := mkMachine {
  pollingIntervalRef : option nat;
  pollingStartTimeRef : option Z;
  intervals : list (nat * string);
  nextHandle : nat;
  requests : list request
}.

(** The component instance: [pollingCleanup] tells whether the last run of
    the polling effect returned a cleanup function. *)
Record state : Type := mkState {
  react : react_state;
  machine_of : machine;
  mounted : bool;
  pollingCleanup : bool
}.

Definition initialQuery : View.query :=
  View.mkQuery "all" "" "probability-desc" "" "" "".

Definition initial : state :=
  mkState
    (mkReact None false None JNull None None initialQuery JNull)
    (mkMachine None None [] 1 [])
    true false.

(** *** Field updates *)

Definition set_loading (v : bool) (r : react_state) : react_state :=
  mkReact (file r) v (error r) (results r) (taskId r) (status r)
          (query r) (expandedCardId r).
Definition set_error (v : option string) (r : react_state) : react_state :=
  mkReact (file r) (loading r) v (results r) (taskId r) (status r)
          (query r) (expandedCardId r).
Definition set_results (v : jsval) (r : react_state) : react_state :=
  mkReact (file r) (loading r) (error r) v (taskId r) (status r)
          (query r) (expandedCardId r).
Definition set_taskId (v : option string) (r : react_state) : react_state :=
  mkReact (file r) (loading r) (error r) (results r) v (status r)
          (query r) (expandedCardId r).
Definition set_status (v : option string) (r : react_state) : react_state :=
  mkReact (file r) (loading r) (error r) (results r) (taskId r) v
          (query r) (expandedCardId r).
Definition set_query (v : View.query) (r : react_state) : react_state :=
  mkReact (file r) (loading r) (error r) (results r) (taskId r) (status r)
          v (expandedCardId r).
Definition set_expandedCardId (v : jsval) (r : react_state) : react_state :=
  mkReact (file r) (loading r) (error r) (results r) (taskId r) (status r)
          (query r) v.

Definition with_react (r : react_state) (s : state) : state :=
  mkState r (machine_of s) (mounted s) (pollingCleanup s).
Definition with_machine (m : machine) (s : state) : state :=
  mkState (react s) m (mounted s) (pollingCleanup s).
Definition with_cleanup (b : bool) (s : state) : state :=
  mkState (react s) (machine_of s) (mounted s) b.

(** A state setter: it does nothing once the component is unmounted. *)
Definition setState (f : react_state -> react_state) (s : state) : state :=
  if mounted s then with_react (f (react s)) s else s.

(** *** Timers *)

(** [clearInterval(h)]. *)
Definition clearInterval (h : nat) (s : state) : state :=
  let m := machine_of s in
  with_machine
    (mkMachine (pollingIntervalRef m) (pollingStartTimeRef m)
       (filter (fun t => negb (fst t =? h)%nat) (intervals m))
       (nextHandle m) (requests m)) s.

Definition set_ref (v : option nat) (s : state) : state :=
  let m := machine_of s in
  with_machine
    (mkMachine v (pollingStartTimeRef m) (intervals m) (nextHandle m)
       (requests m)) s.

Definition set_start (v : option Z) (s : state) : state :=
  let m := machine_of s in
  with_machine
    (mkMachine (pollingIntervalRef m) v (intervals m) (nextHandle m)
       (requests m)) s.

(** A call through services/api is recorded. *)
Definition issue (r : request) (s : state) : state :=
  let m := machine_of s in
  with_machine
    (mkMachine (pollingIntervalRef m) (pollingStartTimeRef m) (intervals m)
       (nextHandle m) (r :: requests m)) s.

(** [pollingIntervalRef.current = setInterval(callback, POLLING_INTERVAL)],
    the callback closing over [id]. *)
Definition setIntervalRef (id : string) (s : state) : state :=
  let m := machine_of s in
  with_machine
    (mkMachine (Some (nextHandle m)) (pollingStartTimeRef m)
       ((nextHandle m, id) :: intervals m) (S (nextHandle m)) (requests m)) s.

(** [if (pollingIntervalRef.current) clearInterval(pollingIntervalRef.current)]:
    a handle is a number, and zero is falsy. *)
Definition clearIfSet (s : state) : state :=
  match pollingIntervalRef (machine_of s) with
  | Some h => if (h =? 0)%nat then s else clearInterval h s
  | None => s
  end.

(** The same with [pollingIntervalRef.current = null] inside the [if]. *)
Definition clearAndForget (s : state) : state :=
  match pollingIntervalRef (machine_of s) with
  | Some h => if (h =? 0)%nat then s else set_ref None (clearInterval h s)
  | None => s
  end.

(** [clearInterval(pollingIntervalRef.current)], whatever the ref holds. *)
Definition clearRef (s : state) : state :=
  match pollingIntervalRef (machine_of s) with
  | Some h => clearInterval h s
  | None => s
  end.

(** *** Handlers *)

(** [pollTaskStatus(id)] up to its [await]: the status call is issued. *)
Definition pollTaskStatus (id : string) (s : state) : state :=
  issue (StatusCheck id) s.

(** How [getPipelineStatus] settles: with [statusData] (its [status],
    [result] and [error], the empty string when the server sent none), or
    with an exception carrying a message. *)
Inductive response : Type :=
| Resolved (status : string) (result : jsval) (error : string)
| Rejected (message : string).

Definition orDefault (message fallback : string) : string :=
  if View.nonEmpty message then message else fallback.

(** What the debug log of the [done] branch evaluates:
    [result?.customer_churn?.length], which never raises, and
    [result?.customer_churn?.slice(0, 3)?.map(c => c.id)], which raises
    when [customer_churn] is neither absent nor an array (a string has
    [slice] but its slice has no [map]; the other values have no [slice]),
    and when one of the first three entries is [null] or [undefined]. *)
Definition debugLog (result : jsval) : Js.result unit :=
  match result with
  | JUndefined | JNull => Ok tt
  | _ =>
      match get_opt result "customer_churn" with
      | JUndefined | JNull => Ok tt
      | JArr items =>
          _ <- mapi_from (fun c _ => get c "id") 0 (firstn 3 items) ;;
          Ok tt
      | _ => Throw TypeError
      end
  end.

(** The message of the exception the engine raises; its text is the
    engine's own, and it is not empty. *)
Definition messageOf (e : js_error) : string :=
  match e with
  | TypeError => "TypeError"
  end.

(** The [catch] block of [pollTaskStatus]. *)
Definition pollTaskStatusCatch (message : string) (s : state) : state :=
  let s := clearAndForget s in
  let s :=
    setState
      (set_error (Some (orDefault message "Error checking pipeline status."))) s in
  let s := setState (set_loading false) s in
  setState (set_taskId None) s.

(** [pollTaskStatus] after its [await]. *)
Definition pollTaskStatusResume (resp : response) (s : state) : state :=
  match resp with
  | Resolved st result err =>
      let s := setState (set_status (Some st)) s in
      if st =? "done" then
        let s := clearAndForget s in
        match debugLog result with
        | Ok _ =>
            let s := setState (set_results result) s in
            let s := setState (set_loading false) s in
            setState (set_taskId None) s
        | Throw e => pollTaskStatusCatch (messageOf e) s
        end
      else if st =? "failed" then
        let s := clearAndForget s in
        let s :=
          setState (set_error (Some (orDefault err "Pipeline processing failed."))) s in
        let s := setState (set_loading false) s in
        setState (set_taskId None) s
      else s
  | Rejected message => pollTaskStatusCatch message s
  end.

Definition elapsed (now : Z) (s : state) : Z :=
  (now - match pollingStartTimeRef (machine_of s) with
         | Some t => t
         | None => 0
         end)%Z.

(** The callback given to [setInterval], for the task [id] of its closure. *)
Definition intervalCallback (now : Z) (id : string) (s : state) : state :=
  if (MAX_POLLING_TIME <? elapsed now s)%Z then
    let s := clearRef s in
    let s := setState (set_error (Some TIMEOUT_MESSAGE)) s in
    let s := setState (set_loading false) s in
    setState (set_taskId None) s
  else pollTaskStatus id s.

(** The polling effect, run when [taskId] has changed: first the cleanup
    the previous run returned, then the body. *)
Definition pollingEffect (now : Z) (s : state) : state :=
  let s := if pollingCleanup s then clearAndForget s else s in
  match taskId (react s) with
  | Some id =>
      if View.nonEmpty id then
        let s := clearIfSet s in
        let s := set_start (Some now) s in
        let s := pollTaskStatus id s in
        let s := setIntervalRef id s in
        with_cleanup true s
      else with_cleanup false s
  | None => with_cleanup false s
  end.

Definition taskId_eqb (a b : option string) : bool :=
  match a, b with
  | None, None => true
  | Some x, Some y => x =? y
  | _, _ => false
  end.

(** After a handler returns React renders again, and runs the polling
    effect when [taskId] differs from the one of the previous render. *)
Definition commit (previous : option string) (now : Z) (s : state) : state :=
  if mounted s && negb (taskId_eqb previous (taskId (react s)))
  then pollingEffect now s
  else s.

(** [handleFileSelect(selectedFile)] up to its [await]. *)
Definition handleFileSelect (selectedFile : string) (s : state) : state :=
  let s :=
    setState
      (fun r =>
         mkReact (Some selectedFile) true None JNull None None
           (View.mkQuery "all" "" (View.sortType (query r)) "" "" "")
           JNull) s in
  let s := clearAndForget s in
  issue (Upload selectedFile) s.

(** The setters the pages call. *)
Inductive ui_event : Type :=
| SetActiveFilter (v : string)
| SetSearchQuery (v : string)
| SetSortType (v : string)
| SetPlanTypeFilter (v : string)
| SetContractTypeFilter (v : string)
| SetRegionFilter (v : string)
| SetExpandedCardId (v : jsval)
| SetError (v : option string).

Definition applyUi (u : ui_event) (r : react_state) : react_state :=
  let q := query r in
  match u with
  | SetActiveFilter v =>
      set_query (View.mkQuery v (View.searchQuery q) (View.sortType q)
                   (View.planTypeFilter q) (View.contractTypeFilter q)
                   (View.regionFilter q)) r
  | SetSearchQuery v =>
      set_query (View.mkQuery (View.activeFilter q) v (View.sortType q)
                   (View.planTypeFilter q) (View.contractTypeFilter q)
                   (View.regionFilter q)) r
  | SetSortType v =>
      set_query (View.mkQuery (View.activeFilter q) (View.searchQuery q) v
                   (View.planTypeFilter q) (View.contractTypeFilter q)
                   (View.regionFilter q)) r
  | SetPlanTypeFilter v =>
      set_query (View.mkQuery (View.activeFilter q) (View.searchQuery q)
                   (View.sortType q) v (View.contractTypeFilter q)
                   (View.regionFilter q)) r
  | SetContractTypeFilter v =>
      set_query (View.mkQuery (View.activeFilter q) (View.searchQuery q)
                   (View.sortType q) (View.planTypeFilter q) v
                   (View.regionFilter q)) r
  | SetRegionFilter v =>
      set_query (View.mkQuery (View.activeFilter q) (View.searchQuery q)
                   (View.sortType q) (View.planTypeFilter q)
                   (View.contractTypeFilter q) v) r
  | SetExpandedCardId v => set_expandedCardId v r
  | SetError v => set_error v r
  end.

(** The two cleanups run when the provider is unmounted. *)
Definition unmount (s : state) : state :=
  let s := clearIfSet s in
  let s := if pollingCleanup s then clearAndForget s else s in
  mkState (react s) (machine_of s) false false.

(** *** The event loop *)

Inductive event : Type :=
| FileSelect (selectedFile : string)
| PipelineStarted (task_id : string)
| PipelineFailed (message : string)
| Tick (handle : nat)
| StatusArrived (resp : response)
| Ui (u : ui_event)
| Unmount.

Definition liveInterval (h : nat) (s : state) : option (nat * string) :=
  find (fun t => (fst t =? h)%nat) (intervals (machine_of s)).

(** What one task of the event loop does, at host time [now]. *)
Definition handle (now : Z) (e : event) (s : state) : state :=
  match e with
  | FileSelect f => if mounted s then handleFileSelect f s else s
  | PipelineStarted task_id => setState (set_taskId (Some task_id)) s
  | PipelineFailed message =>
      let s :=
        setState
          (set_error
             (Some (orDefault message
                      "An error occurred while uploading the file."))) s in
      setState (set_loading false) s
  | Tick h =>
      match liveInterval h s with
      | Some (_, id) => intervalCallback now id s
      | None => s
      end
  | StatusArrived resp => pollTaskStatusResume resp s
  | Ui u => if mounted s then setState (applyUi u) s else s
  | Unmount => if mounted s then unmount s else s
  end.

Definition step (s : state) (te : Z * event) : state :=
  let (now, e) := te in
  commit (taskId (react s)) now (handle now e s).

Definition run (s : state) (trace : list (Z * event)) : state :=
  fold_left step trace s.

(** One period of the timer: every live interval fires once. *)
Definition tickAll (now : Z) (s : state) : state :=
  run s (map (fun t => (now, Tick (fst t))) (intervals (machine_of s))).

(** The status checks among the calls issued. *)
Definition statusChecks (s : state) : list string :=
  flat_map (fun r => match r with StatusCheck id => [id] | Upload _ => [] end)
    (requests (machine_of s)).

(** *** The poller's invariant *)

(** Every live interval is the one [pollingIntervalRef] holds, and its
    handle is truthy. *)
Definition tracked (s : state) : Prop :=
  intervals (machine_of s) = []
  \/ exists h id,
       intervals (machine_of s) = [(h, id)]
       /\ pollingIntervalRef (machine_of s) = Some h
       /\ h <> 0%nat.

Definition onePoller (s : state) : Prop :=
  nextHandle (machine_of s) <> 0%nat
  /\ tracked s
  /\ (mounted s = false -> intervals (machine_of s) = []).

(** States that agree on what the invariant reads. *)
Definition sameTimers (s s' : state) : Prop :=
  pollingIntervalRef (machine_of s') = pollingIntervalRef (machine_of s)
  /\ intervals (machine_of s') = intervals (machine_of s)
  /\ nextHandle (machine_of s') = nextHandle (machine_of s)
  /\ mounted s' = mounted s.

(** A state with no live interval, and otherwise the handles and the
    mounting of [s]. *)
Definition cleared (s s' : state) : Prop :=
  intervals (machine_of s') = []
  /\ nextHandle (machine_of s') = nextHandle (machine_of s)
  /\ mounted s' = mounted s.

(** Cancelling an interval touches the timers and the ref only. *)
Definition framed (s s' : state) : Prop :=
  react s' = react s
  /\ mounted s' = mounted s
  /\ pollingCleanup s' = pollingCleanup s
  /\ requests (machine_of s') = requests (machine_of s)
  /\ nextHandle (machine_of s') = nextHandle (machine_of s)
  /\ pollingStartTimeRef (machine_of s') = pollingStartTimeRef (machine_of s).

(** A response after which [pollTaskStatus] stops polling. *)
Definition terminal (resp : response) : bool :=
  match resp with
  | Resolved st _ _ => (st =? "done") || (st =? "failed")
  | Rejected _ => true
  end.

(** Polling is under way: one interval, started at [started], for [id]. *)
Definition pollingOn (h : nat) (id : string) (started : Z) (s : state)
  : Prop :=
  intervals (machine_of s) = [(h, id)]
  /\ pollingStartTimeRef (machine_of s) = Some started
  /\ mounted s = true.

Definition isTick (te : Z * event) : bool :=
  match snd te with
  | Tick _ => true
  | _ => false
  end.

(** What happens while a job started at [started] is neither finished nor
    timed out: ticks of its interval [h] within the ceiling, and status
    responses that are not terminal. *)
Definition ongoing (h : nat) (started : Z) (te : Z * event) : bool :=
  match snd te with
  | Tick h' => (h' =? h)%nat && (fst te - started <=? MAX_POLLING_TIME)%Z
  | StatusArrived resp => negb (terminal resp)
  | _ => false
  end.

(** No task is tracked and no interval is alive. *)
Definition idle (s : state) : Prop :=
  intervals (machine_of s) = []
  /\ (mounted s = true -> taskId (react s) = None).

(** Any event but the arrival of a new task id. *)
Definition notStart (te : Z * event) : bool :=
  match snd te with
  | PipelineStarted _ => false
  | _ => true
  end.

(** A sequence of timer firings. *)
Definition ticks (firings : list (Z * nat)) : list (Z * event) :=
  map (fun f => (fst f, Tick (snd f))) firings.

End App.

(* ===================================================================== *)
(** ** A host instance and sample data for the closed examples *)
(* ===================================================================== *)

Module ExampleHost.

Fixpoint dropDigits (s : string) : string :=
  match s with
  | EmptyString => EmptyString
  | String c s' => if View.isDigit c then dropDigits s' else s
  end.

(** An unsigned decimal literal [digits], [digits.digits] or [.digits] at
    the start of [s]: the number nearest to what it writes. *)
Definition parseUnsigned (s : string) : option Q :=
  let whole := View.takeDigits s in
  let frac :=
    match dropDigits s with
    | String "."%char rest => View.takeDigits rest
    | _ => EmptyString
    end in
  if (String.length whole + String.length frac =? 0)%nat then None
  else
    Some (Double.round64
            (inject_Z (View.parseDigits 0 (whole ++ frac))
             / inject_Z (10 ^ Z.of_nat (String.length frac)))).

(** [parseFloat] on strings that start with a decimal literal without
    exponent; everything else is NaN in this instance. *)
Definition parseFloat (v : jsval) : option Q :=
  match v with
  | JStr (String "-"%char s) =>
      match parseUnsigned s with
      | Some n => Some (- n)
      | None => None
      end
  | JStr s => parseUnsigned s
  | _ => None
  end.

(** ToString; a number prints as the decimal form of its integer part,
    which is its text when it is an integer. *)
Fixpoint ToString (v : jsval) : string :=
  match v with
  | JUndefined => "undefined"
  | JNull => "null"
  | JBool true => "true"
  | JBool false => "false"
  | JNum n => NilZero.string_of_int (Z.to_int (Qnum n / Zpos (Qden n)))
  | JStr s => s
  | JArr items =>
      (fix join (l : list jsval) : string :=
         match l with
         | [] => ""
         | x :: rest =>
             let text :=
               match x with
               | JUndefined | JNull => ""
               | _ => ToString x
               end in
             match rest with
             | [] => text
             | _ => (text ++ "," ++ join rest)%string
             end
         end) items
  | JObj _ => "[object Object]"
  end.

(** [localeCompare] under the binary collation: code units in order. *)
Definition localeCompare (a b : string) : Z :=
  match String.compare a b with
  | Lt => -1
  | Eq => 0
  | Gt => 1
  end.

(** A normalized customer with the given id and probability and no
    feature values. *)
Definition sample (name : string) (p : Q) : customer :=
  mkCustomer (JStr name) p (calculateRiskLevel p) (JStr "") (JStr "")
             (JObj []) (JObj []) (JStr "") (JStr "") JNull.

(** The same with a contract type and an internet service. *)
Definition sampleWith (name : string) (p : Q) (contract internet : string)
  : customer :=
  mkCustomer (JStr name) p (calculateRiskLevel p) (JStr "") (JStr "")
             (JObj [("Contract", JStr contract);
                    ("InternetService", JStr internet)])
             (JObj []) (JStr contract) (JStr internet) JNull.

Definition nineCustomers : list customer :=
  map (fun n => sample ("customer-" ++ string_of_nat n) 50)
      (seq 1 9).

(** Four entities and a query with three active filters. *)
Definition sampleView : list customer :=
  [sampleWith "customer-1" 95 "Month-to-month" "DSL";
   sampleWith "customer-2" 72 "One year" "Fiber optic";
   sample "customer-3" 39;
   sampleWith "customer-12" 91 "Month-to-month" "Fiber optic"].

Definition sampleQuery : View.query :=
  View.mkQuery "critical" "Customer-1" "id-asc" "" "month-to-month" "".


Definition entry (score : jsval) : jsval :=
  JObj [("churn_probability", score)].

Definition payload (scores : list jsval) : jsval :=
  JObj [("customer_churn", JArr (map entry scores))].

End ExampleHost.

(* ===================================================================== *)
(** ** Layout of the virtualized grid (VirtualizedCustomerGrid.jsx) *)
(* ===================================================================== *)

Module GridLayout.


(** [Math.ceil(customers.length / columnCount)]. *)
Definition rowCount (customers : list customer) (columnCount : nat) : Z :=
  Qceiling (inject_Z (Z.of_nat (List.length customers))
            / inject_Z (Z.of_nat columnCount)).

(** [(containerWidth - (columnCount - 1) * 24) / columnCount]. *)
Definition columnWidth (containerWidth : Z) (columnCount : nat) : Q :=
  let availableWidth :=
    (containerWidth - (Z.of_nat columnCount - 1) * 24)%Z in
  inject_Z availableWidth / inject_Z (Z.of_nat columnCount).

(** What [Row] pushes to [cards] for one customer: the card, whether it is
    expanded, and the width and right margin of its wrapper. *)
Record card : Type := mkCard {
  customer_of : customer;
  isExpanded : bool;
  width : Q;
  marginRight : Z
}.

(** The [for] loop of [Row]: [count] iterations from column [colIndex],
    left at the first index past the end of [customers]. *)
Fixpoint rowLoop (customers : list customer) (columnCount : nat)
  (columnWidth : Q) (expandedCardId : jsval) (rowIndex colIndex count : nat)
  : list card :=
  match count with
  | O => []
  | S count' =>
      let customerIndex := (rowIndex * columnCount + colIndex)%nat in
      if (List.length customers <=? customerIndex)%nat then []
      else
        match nth_error customers customerIndex with
        | Some customer =>
            mkCard customer (strict_equal expandedCardId (id customer))
                   columnWidth
                   (if (colIndex <? columnCount - 1)%nat then 24 else 0)
            :: rowLoop customers columnCount columnWidth expandedCardId
                 rowIndex (S colIndex) count'
        | None => []
        end
  end.

(** The cards of [Row({ index: rowIndex })]. *)
Definition Row (customers : list customer) (columnCount : nat)
  (columnWidth : Q) (expandedCardId : jsval) (rowIndex : nat) : list card :=
  rowLoop customers columnCount columnWidth expandedCardId rowIndex 0
    columnCount.

(** [array.findIndex(p)], [None] for -1. *)
Fixpoint findIndexFrom {A} (p : A -> bool) (i : nat) (l : list A)
  : option nat :=
  match l with
  | [] => None
  | x :: l' => if p x then Some i else findIndexFrom p (S i) l'
  end.

Definition findIndex {A} (p : A -> bool) (l : list A) : option nat :=
  findIndexFrom p 0 l.

(** The row given to [resetAfterIndex] by the effect that runs when the
    expansion changes, the list being mounted. *)
Definition resetRow (customers : list customer) (columnCount : nat)
  (expandedCardId : jsval) : Z :=
  if truthy expandedCardId then
    match
      findIndex (fun customer => strict_equal (id customer) expandedCardId)
        customers
    with
    | Some expandedCardIndex =>
        Qfloor (inject_Z (Z.of_nat expandedCardIndex)
                / inject_Z (Z.of_nat columnCount))
    | None => 0%Z
    end
  else 0%Z.


(** No two entities of the view have the same id. *)
Fixpoint distinctIds (customers : list customer) : bool :=
  match customers with
  | [] => true
  | c :: rest =>
      negb (existsb (fun d => strict_equal (id c) (id d)) rest)
      && distinctIds rest
  end.

(** Every id is a string that is not empty. *)
Definition stringIds (customers : list customer) : bool :=
  forallb (fun c => View.isString (id c) && truthy (id c)) customers.

End GridLayout.

(* ===================================================================== *)
(** ** The customer list page and its cards
       (pages/CustomerListPage.jsx, components/CustomerCard.jsx) *)
(* ===================================================================== *)

Module Page.

(** [handleCardToggle(cardId)]: the value it gives to
    [setExpandedCardId]. *)
Definition handleCardToggle (expandedCardId cardId : jsval) : jsval :=
  if strict_equal expandedCardId cardId then JNull else cardId.

(** The cards of the page: [filteredCustomers.map] with
    [isExpanded={expandedCardId === customer.id}]. *)
Definition cards (filteredCustomers : list customer) (expandedCardId : jsval)
  : list (customer * bool) :=
  map (fun customer => (customer, strict_equal expandedCardId (id customer)))
      filteredCustomers.

(** The object the card computes from [risk_level] and
    [churn_probability].  The [default] branch of the [switch], with the
    label "Unknown", is for values of [risk_level] other than the three
    that [calculateRiskLevel] returns; an entity has none of those. *)
Record colors : Type := mkColors {
  badge : string;
  ring : string;
  text : string;
  label : string
}.

Definition getRiskColors (c : customer) : colors :=
  match risk_level c with
  | low =>
      mkColors
        "bg-green-50 dark:bg-green-900/30 text-risk-low border-green-100 dark:border-green-900/50"
        "text-risk-low" "text-risk-low" "Low Risk"
  | medium =>
      mkColors
        "bg-amber-50 dark:bg-amber-900/30 text-risk-medium border-amber-100 dark:border-amber-900/50"
        "text-risk-medium" "text-risk-medium" "Medium Risk"
  | high =>
      mkColors
        "bg-rose-50 dark:bg-rose-900/30 text-risk-high border-rose-100 dark:border-rose-900/50"
        "text-risk-high" "text-risk-high"
        (if Qle_bool 90 (churn_probability c) then "Critical" else "High Risk")
  end.

End Page.

(* ===================================================================== *)
(** ** Key figures (components/KPICards.jsx) *)
(* ===================================================================== *)

Module Kpi.

Module Distribution.
Record t : Type := mk {
  critical : nat;
  high : nat;
  medium : nat;
  low : nat
}.
End Distribution.

Record kpis : Type := mkKpis {
  criticalRisks : nat;
  avgScore : Q;
  retentionSuccess : Z;
  totalCustomers : nat;
  riskDistribution : Distribution.t
}.

(** [Math.round(x)]: the nearest integer, a half going up. *)
Definition round (x : Q) : Z := Qfloor (x + (1 # 2)).

(** A length or a count as a number. *)
Definition ofNat (n : nat) : Q := inject_Z (Z.of_nat n).

(** [calculateKPIs(customers)]; [None] is a null or undefined argument.
    Each sum, quotient and product is rounded as the host does. *)
Definition calculateKPIs (customers : option (list customer)) : kpis :=
  match customers with
  | None => mkKpis 0 0 0 0 (Distribution.mk 0 0 0 0)
  | Some customers =>
      if (List.length customers =? 0)%nat
      then mkKpis 0 0 0 0 (Distribution.mk 0 0 0 0)
      else
        let criticalRisks :=
          List.length
            (filter (fun customer =>
                       risk_eqb (risk_level customer) high
                       && Qle_bool 90 (churn_probability customer))
                    customers) in
        let avgScore :=
          Double.div
            (fold_left
               (fun sum customer =>
                  Double.add sum (churn_probability customer))
               customers 0)
            (ofNat (List.length customers)) in
        let lowRiskCount :=
          List.length
            (filter (fun customer => risk_eqb (risk_level customer) low)
                    customers) in
        let retentionSuccess :=
          Double.mul
            (Double.div (ofNat lowRiskCount) (ofNat (List.length customers)))
            100 in
        let riskDistribution :=
          Distribution.mk
            (List.length
               (filter (fun c => risk_eqb (risk_level c) high
                                 && Qle_bool 90 (churn_probability c))
                       customers))
            (List.length
               (filter (fun c => risk_eqb (risk_level c) high
                                 && Qle_bool 70 (churn_probability c)
                                 && Qlt_bool (churn_probability c) 90)
                       customers))
            (List.length
               (filter (fun c => risk_eqb (risk_level c) medium) customers))
            (List.length
               (filter (fun c => risk_eqb (risk_level c) low) customers)) in
        mkKpis criticalRisks
               (Double.div (inject_Z (round (Double.mul avgScore 10))) 10)
               (round retentionSuccess)
               (List.length customers)
               riskDistribution
  end.

(** The scores lie between 0 and 100. *)
Definition percentages (customers : list customer) : Prop :=
  Forall (fun c => 0 <= churn_probability c /\ churn_probability c <= 100)
         customers.

(** The mean of the scores and the share of the low tier, as exact
    numbers, before any rounding. *)
Definition total (customers : list customer) : Q :=
  fold_right (fun c s => churn_probability c + s) 0 customers.

Definition mean (customers : list customer) : Q :=
  total customers / ofNat (List.length customers).

Definition lowShare (customers : list customer) : Q :=
  ofNat (List.length
           (filter (fun customer => risk_eqb (risk_level customer) low)
                   customers))
  / ofNat (List.length customers).

(** The tier of an entity is the one [calculateRiskLevel] gives to its
    score, as for every entity the normalizer builds. *)
Definition consistent (c : customer) : bool :=
  risk_eqb (risk_level c) (calculateRiskLevel (churn_probability c)).

End Kpi.

(* ===================================================================== *)
(** ** Payloads the normalizer accepts *)
(* ===================================================================== *)

Module Payload.

Definition nullish (v : jsval) : bool :=
  match v with
  | JUndefined | JNull => true
  | _ => false
  end.

Definition isNull (v : jsval) : bool :=
  match v with
  | JNull => true
  | _ => false
  end.

(** The entries of the entity-scores collection. *)
Definition entriesOf (payload : jsval) : list jsval :=
  match get_opt payload "customer_churn" with
  | JArr entries => entries
  | _ => []
  end.

(** The payload is a value with properties; its entity-scores collection
    is absent or an array; and when that array has entries, none of them is
    null or undefined and none of the three other collections is null. *)
Definition accepted (payload : jsval) : bool :=
  negb (nullish payload)
  && match get_opt payload "customer_churn" with
     | JUndefined => true
     | JArr [] => true
     | JArr entries =>
         forallb (fun c => negb (nullish c)) entries
         && negb (isNull (get_opt payload "customer_reasons"))
         && negb (isNull (get_opt payload "retention_strategies"))
         && negb (isNull (get_opt payload "customer_insights"))
     | _ => false
     end.

(** [collection[i]] for a collection read with the default [[]]. *)
Definition itemAt (collection : jsval) (i : nat) : jsval :=
  match collection with
  | JUndefined => JUndefined
  | _ =>
      match get_index collection i with
      | Ok x => x
      | Throw _ => JUndefined
      end
  end.

(** No entry carries a usable id. *)
Definition withoutIds (payload : jsval) : bool :=
  forallb (fun c => negb (truthy (get_opt c "id"))) (entriesOf payload).

(** [const { k = dflt } = v] for a [v] that has properties. *)
Definition withDefault (v dflt : jsval) : jsval :=
  match v with
  | JUndefined => dflt
  | _ => v
  end.

Section Host.

Variable parseFloat : jsval -> option Q.
Variable ToString : jsval -> string.

(** The record of [customer_insights] found under the id of an entity. *)
Definition insightsFor (payload : jsval) (customerId : jsval) : jsval :=
  js_or (get_opt (withDefault (get_opt payload "customer_insights") (JObj []))
                 (toPropertyKey ToString customerId))
        (JObj []).

(** The entity built for the entry [c] at position [index], when nothing
    raises. *)
Definition entityOf (payload c : jsval) (index : nat) : customer :=
  let churnProbability :=
    scaleProbability
      (resolveProbability parseFloat (get_opt c "churn_probability")) in
  let customerId :=
    js_or (get_opt c "id") (JStr ("customer-" ++ string_of_nat (index + 1))) in
  let insights := insightsFor payload customerId in
  let featureValues := js_or (get_opt insights "feature_values") (JObj []) in
  {| id := customerId;
     churn_probability := churnProbability;
     risk_level := calculateRiskLevel churnProbability;
     reason :=
       js_or (itemAt (get_opt payload "customer_reasons") index) (JStr "");
     strategy :=
       js_or (itemAt (get_opt payload "retention_strategies") index)
             (JStr "");
     feature_values := featureValues;
     shap_feature_values :=
       js_or (get_opt insights "shap_feature_values") (JObj []);
     contract_type :=
       js_or (js_or (get_opt featureValues "Contract")
                    (get_opt featureValues "contract")) (JStr "");
     internet_service :=
       js_or (js_or (get_opt featureValues "InternetService")
                    (get_opt featureValues "internet_service")) (JStr "");
     monthly_charges :=
       js_or (js_or (get_opt featureValues "MonthlyCharges")
                    (get_opt featureValues "monthly_charges")) JNull |}.

End Host.

End Payload.

(* ===================================================================== *)
(** ** What the poller and the error banner maintain *)
(* ===================================================================== *)

Module AppInvariants.

Import App.

(** A live interval polls the task on screen: its closure holds the current
    task id, which is not empty, the start time is set, and the effect has
    a cleanup to run. *)
Definition pollsCurrent (s : state) : Prop :=
  forall h id,
    In (h, id) (intervals (machine_of s)) ->
    taskId (react s) = Some id
    /\ View.nonEmpty id = true
    /\ pollingStartTimeRef (machine_of s) <> None
    /\ pollingCleanup s = true.

(** The error banner, when shown, has a text, and the loading flag is
    down. *)
Definition errorShown (s : state) : Prop :=
  match error (react s) with
  | Some message =>
      View.nonEmpty message = true /\ loading (react s) = false
  | None => True
  end.

(** The only use the pages make of [setError] is to dismiss the banner. *)
Definition dismissOnly (te : Z * event) : bool :=
  match snd te with
  | Ui (SetError (Some _)) => false
  | _ => true
  end.

(** The task ids the server has handed out along a trace. *)
Definition startedIds (trace : list (Z * event)) : list string :=
  flat_map (fun te => match snd te with
                      | PipelineStarted task_id => [task_id]
                      | _ => []
                      end) trace.

End AppInvariants.

(* ===================================================================== *)
(** ** Orders and relations on views *)
(* ===================================================================== *)

Module ViewSpec.

(** Descending and ascending score. *)
Definition scoreDesc (a b : customer) : Prop :=
  (churn_probability b <= churn_probability a)%Q.

Definition scoreAsc (a b : customer) : Prop :=
  (churn_probability a <= churn_probability b)%Q.

(** The entities of a list whose score is [s], in the order of the list. *)
Definition withScore (s : Q) (l : list customer) : list customer :=
  filter (fun c => Qeq_bool (churn_probability c) s) l.

(** Two queries that differ in letter case only; the tier filter and the
    sort key are compared as they are. *)
Definition sameUpToCase (q q' : View.query) : bool :=
  (View.activeFilter q =? View.activeFilter q')
  && (View.sortType q =? View.sortType q')
  && (lower (View.searchQuery q) =? lower (View.searchQuery q'))
  && (lower (View.planTypeFilter q) =? lower (View.planTypeFilter q'))
  && (lower (View.contractTypeFilter q) =? lower (View.contractTypeFilter q'))
  && (lower (View.regionFilter q) =? lower (View.regionFilter q')).



End ViewSpec.

(* ===================================================================== *)
(** ** More sample data *)
(* ===================================================================== *)

Module Samples.

(** Three entries, the first with an id and insights, reasons for the
    first entry only, strategies for the first two. *)
Definition richPayload : jsval :=
  JObj
    [("customer_churn",
      JArr [JObj [("id", JStr "A-7"); ("churn_probability", JNum (95 # 100))];
            JObj [("churn_probability", JStr "0.5")];
            JObj [("churn_probability", JNum 20)]]);
     ("customer_reasons", JArr [JStr "price"]);
     ("retention_strategies", JArr [JStr "discount"; JStr "call"]);
     ("customer_insights",
      JObj [("A-7",
             JObj [("feature_values",
                    JObj [("Contract", JStr "Month-to-month")])])])].

Definition entitiesOf (payload : jsval) : list customer :=
  match
    normalizeCustomerData ExampleHost.parseFloat ExampleHost.ToString payload
  with
  | Ok out => out
  | Throw _ => []
  end.

(** Three entries without ids. *)
Definition plainPayload : jsval :=
  ExampleHost.payload [JNum (1 # 5); JStr "0.5"; JNum 95].


End Samples.

(* ===================================================================== *)
(** ** Properties of the rounding *)
(* ===================================================================== *)

Module DoubleFacts.

Import Double.
Local Open Scope Q_scope.

Lemma pow2_pos (z : Z) : 0 < 2 ^ z.
Proof. apply Qpower_0_lt. reflexivity. Qed.

Lemma pow2_Z (z : Z) : (0 <= z)%Z -> inject_Z (2 ^ z) == 2 ^ z.
Proof. intros H. apply (Zpower_Qpower 2 z H). Qed.

Lemma pow2_le (a b : Z) : (a <= b)%Z -> 2 ^ a <= 2 ^ b.
Proof.
  intros H. apply Qpower_le_compat_l; [ assumption | ].
  unfold Qle. simpl. lia.
Qed.

(** *** The exponent *)

Lemma ilog2_le (x : Q) : 0 < x -> 2 ^ ilog2 x <= x.
Proof.
  intros Hx. unfold ilog2.
  destruct (Qle_bool 1 x) eqn:H1.
  - apply Qle_bool_iff in H1.
    assert (Hf : (1 <= Qfloor x)%Z).
    { rewrite <- (Qfloor_Z 1). apply Qfloor_resp_le. assumption. }
    destruct (Z.log2_spec (Qfloor x)) as [Hlow _]; [ lia | ].
    rewrite <- pow2_Z by apply Z.log2_nonneg.
    apply Qle_trans with (inject_Z (Qfloor x)); [ | apply Qfloor_le ].
    rewrite <- Zle_Qle. assumption.
  - assert (Hlt : x < 1).
    { apply Qnot_le_lt. intros H. apply Qle_bool_iff in H. congruence. }
    set (c := Qceiling (/ x)).
    assert (Hinv : / x <= inject_Z c) by apply Qle_ceiling.
    assert (Hc : (1 < c)%Z).
    { assert (H : 1 < / x).
      { apply Qlt_shift_inv_l; [ assumption | ]. lra. }
      assert (H' : inject_Z 1 < inject_Z c).
      { change (inject_Z 1) with 1. lra. }
      rewrite <- Zlt_Qlt in H'. assumption. }
    destruct (Z.log2_up_spec c Hc) as [_ Hup].
    rewrite Qpower_opp.
    assert (Hw : / x <= 2 ^ Z.log2_up c).
    { rewrite <- pow2_Z by apply Z.log2_up_nonneg.
      apply Qle_trans with (inject_Z c); [ assumption | ].
      rewrite <- Zle_Qle. assumption. }
    apply Qle_shift_inv_r; [ apply pow2_pos | ].
    assert (H : x * / x == 1) by (field; lra).
    apply Qle_trans with (x * / x); [ rewrite H; apply Qle_refl | ].
    apply Qmult_le_l; assumption.
Qed.

(** *** The nearest integer *)

Lemma roundHalfEven_cases (x : Q) :
  roundHalfEven x = Qfloor x \/ roundHalfEven x = (Qfloor x + 1)%Z.
Proof.
  unfold roundHalfEven.
  destruct (negb (Qle_bool (1 # 2) (x - inject_Z (Qfloor x)))); [ auto | ].
  destruct (negb (Qle_bool (x - inject_Z (Qfloor x)) (1 # 2))); [ auto | ].
  destruct (Z.even (Qfloor x)); auto.
Qed.

Lemma roundHalfEven_near (x : Q) :
  - (1 # 2) <= inject_Z (roundHalfEven x) - x <= 1 # 2.
Proof.
  pose proof (Qfloor_le x) as Hlo. pose proof (Qlt_floor x) as Hhi.
  rewrite inject_Z_plus in Hhi. change (inject_Z 1) with 1 in Hhi.
  unfold roundHalfEven.
  destruct (Qle_bool (1 # 2) (x - inject_Z (Qfloor x))) eqn:Ha; simpl.
  - apply Qle_bool_iff in Ha.
    destruct (Qle_bool (x - inject_Z (Qfloor x)) (1 # 2)) eqn:Hb; simpl.
    + apply Qle_bool_iff in Hb.
      destruct (Z.even (Qfloor x)).
      * split; lra.
      * rewrite inject_Z_plus. change (inject_Z 1) with 1. split; lra.
    + rewrite inject_Z_plus. change (inject_Z 1) with 1. split; lra.
  - assert (Hlt : x - inject_Z (Qfloor x) < 1 # 2).
    { apply Qnot_le_lt. intros H. apply Qle_bool_iff in H. congruence. }
    split; lra.
Qed.

Lemma roundHalfEven_le (x : Q) (k : Z) :
  x <= inject_Z k -> (roundHalfEven x <= k)%Z.
Proof.
  intros H.
  assert (Hf : (Qfloor x <= k)%Z).
  { rewrite <- (Qfloor_Z k). apply Qfloor_resp_le. assumption. }
  destruct (Z.eq_dec (Qfloor x) k) as [ Heq | Hne ].
  - unfold roundHalfEven. rewrite Heq.
    assert (Hr : Qle_bool (1 # 2) (x - inject_Z k) = false).
    { destruct (Qle_bool (1 # 2) (x - inject_Z k)) eqn:E; [ | reflexivity ].
      apply Qle_bool_iff in E. lra. }
    rewrite Hr. simpl. lia.
  - destruct (roundHalfEven_cases x) as [ -> | -> ]; lia.
Qed.

Lemma roundHalfEven_ge (x : Q) (k : Z) :
  inject_Z k <= x -> (k <= roundHalfEven x)%Z.
Proof.
  intros H.
  assert (Hf : (k <= Qfloor x)%Z).
  { rewrite <- (Qfloor_Z k). apply Qfloor_resp_le. assumption. }
  destruct (roundHalfEven_cases x) as [ -> | -> ]; lia.
Qed.


(** *** Rounding *)

Lemma nearest_value (x : Q) :
  nearest x
  == inject_Z (roundHalfEven (x / 2 ^ ulpExponent x)) * 2 ^ ulpExponent x.
Proof. unfold nearest. apply Qred_correct. Qed.

Lemma round64_cases (x : Q) :
  round64 x = x
  \/ (round64 x = nearest x /\ - infinity < nearest x < infinity)
  \/ (round64 x = infinity /\ infinity <= nearest x)
  \/ (round64 x = - infinity /\ nearest x <= - infinity).
Proof.
  unfold round64.
  destruct (Qeq_bool x 0); [ auto | ].
  destruct (Qle_bool infinity (nearest x)) eqn:Hi.
  { apply Qle_bool_iff in Hi. auto. }
  destruct (Qle_bool (nearest x) (- infinity)) eqn:Hn.
  { apply Qle_bool_iff in Hn. auto 6. }
  destruct (Qeq_bool (nearest x) x); [ auto | ].
  right. left. split; [ reflexivity | ].
  split; apply Qnot_le_lt; intros H; apply Qle_bool_iff in H; congruence.
Qed.

Lemma Qabs_nonneg_eq (x : Q) : 0 <= x -> Qabs x = x.
Proof.
  destruct x as [ n d ]. unfold Qle, Qabs. simpl. intros H.
  f_equal. apply Z.abs_eq. lia.
Qed.


(** The unit in the last place of a number below 2^53 is at most one. *)
Lemma ulpExponent_small (x : Q) :
  0 < x -> x < 2 ^ 53 -> (ulpExponent x <= 0)%Z.
Proof.
  intros H0 Hx. unfold ulpExponent.
  rewrite Qabs_nonneg_eq by (apply Qlt_le_weak; assumption).
  assert (Hl : (ilog2 x < 53)%Z).
  { apply (Qpower_lt_compat_l_inv 2); [ | reflexivity ].
    apply Qle_lt_trans with x; [ apply ilog2_le; assumption | assumption ]. }
  lia.
Qed.

(** Rounding does not cross an integer below 2^53. *)
Lemma nearest_le_integer (x : Q) (m : Z) :
  0 < x -> (m < 2 ^ 53)%Z -> x <= inject_Z m -> nearest x <= inject_Z m.
Proof.
  intros H0 Hm Hx.
  assert (Hlt : x < 2 ^ 53).
  { apply Qle_lt_trans with (inject_Z m); [ assumption | ].
    rewrite <- pow2_Z by lia. rewrite <- Zlt_Qlt. assumption. }
  pose proof (ulpExponent_small H0 Hlt) as He.
  rewrite nearest_value.
  set (e := ulpExponent x) in *.
  assert (Hk : inject_Z (m * 2 ^ (- e)) * 2 ^ e == inject_Z m).
  { rewrite inject_Z_mult, pow2_Z by lia. rewrite Qpower_opp.
    field. apply Qpower_not_0. discriminate. }
  rewrite <- Hk.
  apply Qmult_le_compat_r; [ | apply Qlt_le_weak, pow2_pos ].
  rewrite <- Zle_Qle. apply roundHalfEven_le.
  apply Qle_shift_div_r; [ apply pow2_pos | ].
  rewrite Hk. assumption.
Qed.

Lemma nearest_nonneg (x : Q) : 0 <= x -> 0 <= nearest x.
Proof.
  intros H. rewrite nearest_value.
  apply Qmult_le_0_compat; [ | apply Qlt_le_weak, pow2_pos ].
  change 0 with (inject_Z 0). rewrite <- Zle_Qle.
  apply roundHalfEven_ge. change (inject_Z 0) with 0.
  apply Qle_shift_div_l; [ apply pow2_pos | ]. lra.
Qed.

Lemma infinity_large (m : Z) : (m < 2 ^ 53)%Z -> inject_Z m < infinity.
Proof.
  intros H. unfold infinity.
  apply Qlt_le_trans with (2 ^ 53).
  - rewrite <- pow2_Z by lia. rewrite <- Zlt_Qlt. assumption.
  - apply pow2_le. lia.
Qed.

(** The result of an operation whose exact value lies between zero and an
    integer below 2^53 lies between them too. *)
Lemma round64_between (x : Q) (m : Z) :
  (m < 2 ^ 53)%Z -> 0 <= x -> x <= inject_Z m ->
  0 <= round64 x /\ round64 x <= inject_Z m.
Proof.
  intros Hm H0 Hx.
  destruct (Qeq_dec x 0) as [ Hz | Hnz ].
  { unfold round64. apply Qeq_bool_iff in Hz. rewrite Hz. auto. }
  assert (Hpos : 0 < x).
  { destruct (Qlt_le_dec 0 x) as [ | Hle ]; [ assumption | ].
    exfalso. apply Hnz. apply Qle_antisym; assumption. }
  pose proof (nearest_le_integer Hpos Hm Hx) as Hup.
  pose proof (nearest_nonneg H0) as Hlow.
  pose proof (infinity_large Hm) as Hinf.
  destruct (round64_cases x) as [ -> | [ (-> & _) | [ (_ & H) | (_ & H) ] ] ].
  - auto.
  - auto.
  - exfalso. lra.
  - exfalso. assert (0 < infinity) by apply pow2_pos. lra.
Qed.


(** The nearest number is within half a unit in the last place. *)
Lemma nearest_error (x : Q) :
  Qabs (nearest x - x) <= 2 ^ (ulpExponent x - 1).
Proof.
  rewrite nearest_value. set (e := ulpExponent x) in *.
  pose proof (pow2_pos e) as He.
  destruct (roundHalfEven_near (x / 2 ^ e)) as [Ha Hb].
  set (m := inject_Z (roundHalfEven (x / 2 ^ e))) in *.
  assert (Hx : x == x / 2 ^ e * 2 ^ e) by (field; lra).
  assert (Hhalf : 2 ^ (e - 1) == (1 # 2) * 2 ^ e).
  { replace (e - 1)%Z with (e + -1)%Z by ring.
    rewrite Qpower_plus by discriminate.
    change (2 ^ (-1)) with (1 # 2). ring. }
  rewrite Hhalf. apply Qabs_Qle_condition.
  assert (Hd : m * 2 ^ e - x == (m - x / 2 ^ e) * 2 ^ e).
  { rewrite Hx at 1. ring. }
  rewrite Hd. split.
  - setoid_replace (- ((1 # 2) * 2 ^ e)) with ((- (1 # 2)) * 2 ^ e) by ring.
    apply Qmult_le_compat_r; [ assumption | lra ].
  - apply Qmult_le_compat_r; [ assumption | lra ].
Qed.

(** The result of an operation whose exact value lies between zero and an
    integer [m] below 2^53 is within [m] parts in 2^53 of it. *)
Lemma round64_near (x : Q) (m : Z) :
  (1 <= m < 2 ^ 53)%Z -> 0 <= x -> x <= inject_Z m ->
  Qabs (round64 x - x) <= inject_Z m * 2 ^ (-53).
Proof.
  intros Hm H0 Hx.
  assert (Hm1 : 1 <= inject_Z m).
  { change 1 with (inject_Z 1). rewrite <- Zle_Qle. lia. }
  pose proof (pow2_pos (-53)) as Hu.
  assert (Hzero : 0 <= inject_Z m * 2 ^ (-53)).
  { apply Qmult_le_0_compat; lra. }
  destruct (Qeq_dec x 0) as [ Hz | Hnz ].
  { assert (E : round64 x = x).
    { unfold round64. apply Qeq_bool_iff in Hz. rewrite Hz. reflexivity. }
    rewrite E. setoid_replace (x - x) with 0 by ring.
    change (Qabs 0) with 0. assumption. }
  assert (Hpos : 0 < x).
  { destruct (Qlt_le_dec 0 x) as [ | Hle ]; [ assumption | ].
    exfalso. apply Hnz. apply Qle_antisym; assumption. }
  assert (Hulp : 2 ^ (ulpExponent x - 1) <= inject_Z m * 2 ^ (-53)).
  { unfold ulpExponent. rewrite Qabs_nonneg_eq by assumption.
    destruct (Z.max_spec (ilog2 x - 52) (-1074)) as [ [_ ->] | [_ ->] ].
    - change (-1074 - 1)%Z with (-1022 + -53)%Z.
      rewrite Qpower_plus by discriminate.
      apply Qmult_le_compat_r; [ | lra ].
      apply Qle_trans with 1; [ | assumption ].
      change 1 with (2 ^ 0). apply pow2_le. lia.
    - replace (ilog2 x - 52 - 1)%Z with (ilog2 x + -53)%Z by ring.
      rewrite Qpower_plus by discriminate.
      apply Qmult_le_compat_r; [ | lra ].
      apply Qle_trans with x; [ apply ilog2_le; assumption | assumption ]. }
  pose proof (nearest_error x) as Hnear.
  assert (Hmlt : (m < 2 ^ 53)%Z) by lia.
  pose proof (nearest_le_integer Hpos Hmlt Hx) as Hup.
  pose proof (nearest_nonneg H0) as Hlow.
  pose proof (infinity_large Hmlt) as Hinf.
  destruct (round64_cases x)
    as [ -> | [ (-> & _) | [ (_ & H) | (_ & H) ] ] ].
  - setoid_replace (x - x) with 0 by ring. change (Qabs 0) with 0.
    assumption.
  - lra.
  - exfalso. lra.
  - exfalso. assert (0 < infinity) by apply pow2_pos. lra.
Qed.

End DoubleFacts.

(* ===================================================================== *)
(** ** Properties of the normalizer *)
(* ===================================================================== *)

Module NormalizeFacts.

Local Open Scope Q_scope.

Lemma Qlt_bool_iff (x y : Q) : Qlt_bool x y = true <-> x < y.
Proof.
  unfold Qlt_bool. rewrite negb_true_iff. split.
  - intros H. apply Qnot_le_lt. intro Hle.
    apply Qle_bool_iff in Hle. congruence.
  - intros H. destruct (Qle_bool y x) eqn:E; [ | reflexivity ].
    apply Qle_bool_iff in E. apply Qlt_not_le in H. contradiction.
Qed.

Lemma Qle_bool_false_iff (x y : Q) : Qle_bool x y = false <-> y < x.
Proof.
  rewrite <- Qlt_bool_iff. unfold Qlt_bool.
  destruct (Qle_bool x y); simpl; intuition congruence.
Qed.



Lemma calculateRiskLevel_high (n : Q) : calculateRiskLevel n = high <-> 70 < n.
Proof.
  unfold calculateRiskLevel.
  destruct (Qlt_bool n 40) eqn:E.
  - apply Qlt_bool_iff in E. split; [ discriminate | ].
    intros H. exfalso. lra.
  - destruct (Qle_bool n 70) eqn:E70.
    + apply Qle_bool_iff in E70. split; [ discriminate | ].
      intros H. apply Qle_not_lt in E70. contradiction.
    + apply Qle_bool_false_iff in E70. tauto.
Qed.



Lemma scaleProbability_range (s : Q) :
  0 <= s /\ s <= 100 ->
  0 <= scaleProbability s /\ scaleProbability s <= 100.
Proof.
  intros [H0 H100]. unfold scaleProbability.
  destruct (Qle_bool s 1) eqn:E.
  - apply Qle_bool_iff in E.
    apply (@DoubleFacts.round64_between (s * 100) 100).
    + reflexivity.
    + lra.
    + change (inject_Z 100) with 100. lra.
  - split; assumption.
Qed.

(** Reading a property of a value that is neither [null] nor [undefined]
    returns, and [get_opt] is what it returns. *)
Lemma get_get_opt (v : jsval) (k : string) (x : jsval) :
  get v k = Ok x -> get_opt v k = x.
Proof. unfold get_opt. intros ->. reflexivity. Qed.

Section Host.

Variable parseFloat : jsval -> option Q.
Variable ToString : jsval -> string.

(** What the callback stores is the scaled score it resolved, and the risk
    level computed from it. *)
Lemma normalizeEntry_score reasons strategies insights c index e :
  normalizeEntry parseFloat ToString reasons strategies insights c index
    = Ok e ->
  churn_probability e
    = scaleProbability
        (resolveProbability parseFloat (get_opt c "churn_probability"))
  /\ risk_level e = calculateRiskLevel (churn_probability e).
Proof.
  unfold normalizeEntry, bind. intros H.
  destruct (get c "churn_probability") as [p | ] eqn:Hp; [ | discriminate ].
  rewrite (get_get_opt _ _ Hp).
  repeat match type of H with
         | match ?x with _ => _ end = Ok _ => destruct x; [ | discriminate ]
         end.
  inversion H; subst; simpl. split; reflexivity.
Qed.

Lemma mapi_from_Forall2 (A B : Type) (f : A -> nat -> result B) l :
  forall i out,
    mapi_from f i l = Ok out ->
    Forall2 (fun x y => exists j, f x j = Ok y) l out.
Proof.
  induction l as [ | x l IH ]; intros i out H; simpl in H.
  - inversion H. constructor.
  - unfold bind in H.
    destruct (f x i) as [ y | ] eqn:Hx; [ | discriminate ].
    destruct (mapi_from f (S i) l) as [ ys | ] eqn:Hl; [ | discriminate ].
    inversion H; subst. constructor; eauto.
Qed.

Lemma mapi_from_length (A B : Type) (f : A -> nat -> result B) l :
  forall i out, mapi_from f i l = Ok out -> List.length out = List.length l.
Proof.
  intros i out H. apply mapi_from_Forall2 in H.
  symmetry. eapply Forall2_length; eauto.
Qed.

(** The entries [normalizeCustomerData] maps over are those [rawScores]
    reads. *)
Lemma normalizeCustomerData_entries payload out :
  normalizeCustomerData parseFloat ToString payload = Ok out ->
  exists entries reasons strategies insights,
    rawScores parseFloat payload
      = map (fun c => resolveProbability parseFloat
                        (get_opt c "churn_probability")) entries
    /\ mapi_from
         (normalizeEntry parseFloat ToString reasons strategies insights)
         0 entries = Ok out.
Proof.
  unfold normalizeCustomerData, destructure, bind, rawScores. intros H.
  destruct (get payload "customer_churn") as [ cc | ] eqn:Hcc;
    [ | discriminate ].
  rewrite (get_get_opt _ _ Hcc).
  destruct (get payload "customer_reasons") as [ a0 | ]; [ | discriminate ].
  destruct (get payload "retention_strategies") as [ a1 | ];
    [ | discriminate ].
  destruct (get payload "customer_insights") as [ a2 | ]; [ | discriminate ].
  destruct cc; try discriminate.
  - exists []. do 3 eexists. split; [ reflexivity | exact H ].
  - exists items. do 3 eexists. split; [ reflexivity | exact H ].
Qed.

End Host.

(** Three scores on a payload: 0.5 becomes 50 and is medium, 85 stays 85
    and is high, the text "0.25" becomes 25 and is low. *)
Example normalize_three_scores :
  map (fun e => (churn_probability e, risk_level e))
      match normalizeCustomerData ExampleHost.parseFloat ExampleHost.ToString
              (ExampleHost.payload [JNum (1 # 2); JNum 85; JStr "0.25"]) with
      | Ok l => l
      | Throw _ => []
      end
  = [(100 # 2, medium); (85, high); (25.00, low)].
Proof. vm_compute. reflexivity. Qed.

(** C4, as the claim states it, fails: on a [null] or [undefined] payload,
    and on one whose [customer_churn] is not an array, [normalizeCustomerData]
    raises a TypeError instead of returning the empty list. *)
Lemma normalize_raises_on_wrong_type :
  normalizeCustomerData ExampleHost.parseFloat ExampleHost.ToString JNull
    = Throw TypeError
  /\ normalizeCustomerData ExampleHost.parseFloat ExampleHost.ToString
       JUndefined = Throw TypeError
  /\ normalizeCustomerData ExampleHost.parseFloat ExampleHost.ToString
       (JObj [("customer_churn", JStr "not an array")]) = Throw TypeError.
Proof. repeat split. Qed.

(** C4, amended. The normalization step of the state container, which is
    the caller of [normalizeCustomerData], returns the empty list and does
    not raise when the payload is [null], [undefined] or otherwise falsy,
    and when its [customer_churn] is missing or not an array. *)
Theorem guarded_normalization_is_empty
  (parseFloat : jsval -> option Q) (ToString : jsval -> string)
  (results : jsval) :
  truthy results = false
  \/ isArray (get_opt results "customer_churn") = false ->
  normalizeResults parseFloat ToString results = Ok [].
Proof.
  intros H. unfold normalizeResults.
  destruct (truthy results) eqn:Ht; [ | reflexivity ].
  destruct H as [ H | H ]; [ discriminate | ].
  unfold bind. destruct (get results "customer_churn") as [ cc | ] eqn:Hcc.
  - rewrite (get_get_opt _ _ Hcc) in H. rewrite H.
    destruct (truthy cc); reflexivity.
  - destruct results; discriminate.
Qed.

Lemma guarded_normalization_is_empty_witness :
  normalizeResults ExampleHost.parseFloat ExampleHost.ToString JNull = Ok []
  /\ normalizeResults ExampleHost.parseFloat ExampleHost.ToString
       (JObj [("customer_churn", JStr "not an array")]) = Ok [].
Proof.
  split.
  - apply guarded_normalization_is_empty. left. reflexivity.
  - apply guarded_normalization_is_empty. right. reflexivity.
Defined.

(** C5, as the claim states it, fails: a raw score of 150 is kept as it is,
    and a raw score of -0.5 becomes -50. *)
Lemma risk_score_outside_range :
  map churn_probability
      match normalizeCustomerData ExampleHost.parseFloat ExampleHost.ToString
              (ExampleHost.payload [JNum 150; JNum (- (1 # 2))]) with
      | Ok l => l
      | Throw _ => []
      end
  = [150; -100 # 2]
  /\ ~ 150 <= 100 /\ ~ 0 <= -100 # 2.
Proof.
  split; [ vm_compute; reflexivity | ].
  split; intros H; unfold Qle in H; simpl in H; lia.
Qed.

(** C5, amended. When the raw scores of the payload, resolved to numbers,
    lie in [0,100], every entity that [normalizeCustomerData] returns has a
    [churn_probability] in [0,100]. *)
Theorem risk_score_in_range
  (parseFloat : jsval -> option Q) (ToString : jsval -> string)
  (payload : jsval) (out : list customer) :
  normalizeCustomerData parseFloat ToString payload = Ok out ->
  Forall (fun s => 0 <= s /\ s <= 100) (rawScores parseFloat payload) ->
  Forall (fun e => 0 <= churn_probability e /\ churn_probability e <= 100)
         out.
Proof.
  intros Hn Hraw.
  destruct (normalizeCustomerData_entries _ _ _ Hn)
    as (entries & reasons & strategies & insights & Hscores & Hmap).
  rewrite Hscores in Hraw. clear Hscores Hn.
  apply mapi_from_Forall2 in Hmap.
  induction Hmap as [ | c e entries out [j Hj] _ IH ]; [ constructor | ].
  simpl in Hraw. inversion Hraw; subst.
  constructor; [ | apply IH; assumption ].
  destruct (normalizeEntry_score _ _ _ _ _ _ _ Hj) as [-> _].
  apply scaleProbability_range. assumption.
Qed.

Lemma risk_score_in_range_witness :
  Forall (fun e => 0 <= churn_probability e /\ churn_probability e <= 100)
    [ExampleHost.sample "customer-1" (100 # 2);
     ExampleHost.sample "customer-2" 85;
     ExampleHost.sample "customer-3" 25.00].
Proof.
  apply (@risk_score_in_range ExampleHost.parseFloat ExampleHost.ToString
           (ExampleHost.payload [JNum (1 # 2); JNum 85; JStr "0.25"])).
  - vm_compute. reflexivity.
  - vm_compute. repeat constructor; discriminate.
Defined.

End NormalizeFacts.

(* ===================================================================== *)
(** ** Properties of the row heights *)
(* ===================================================================== *)

Module GridFacts.

Import Grid.
Local Open Scope nat_scope.

Lemma scanRow_cases customers expandedCardId count :
  forall i,
    scanRow customers expandedCardId i count = BASE_ROW_HEIGHT
    \/ scanRow customers expandedCardId i count = EXPANDED_ROW_HEIGHT.
Proof.
  induction count as [ | count IH ]; intros i; simpl.
  - left. reflexivity.
  - destruct (nth_error customers i) as [ c | ]; [ | apply IH ].
    destruct (strict_equal (id c) expandedCardId); [ right; reflexivity | ].
    apply IH.
Qed.

Lemma scanRow_expanded customers expandedCardId count :
  forall i,
    scanRow customers expandedCardId i count = EXPANDED_ROW_HEIGHT
    <-> exists j, i <= j < i + count
                  /\ expandedAt customers expandedCardId j.
Proof.
  induction count as [ | count IH ]; intros i; simpl.
  - split; [ discriminate | ]. intros (j & Hj & _). lia.
  - destruct (nth_error customers i) as [ c | ] eqn:Hc.
    + destruct (strict_equal (id c) expandedCardId) eqn:He.
      * split; [ | reflexivity ]. intros _. exists i.
        split; [ lia | ]. exists c. split; assumption.
      * rewrite IH. split; intros (j & Hj & Hex).
        -- exists j. split; [ lia | assumption ].
        -- exists j. split; [ | assumption ].
           destruct (Nat.eq_dec j i) as [ -> | ]; [ | lia ].
           destruct Hex as (c' & Hc' & He'). congruence.
    + rewrite IH. split; intros (j & Hj & Hex).
      * exists j. split; [ lia | assumption ].
      * exists j. split; [ | assumption ].
        destruct (Nat.eq_dec j i) as [ -> | ]; [ | lia ].
        destruct Hex as (c' & Hc' & _). congruence.
Qed.

(** C7. The height of row [r] is the expanded height if and only if one of
    the entities of the row (indices [r * columns] to
    [r * columns + columns - 1], within the view) is the expanded one, and
    the base height otherwise; for nine entities in four columns, expanding
    the entity at index 6 makes row 1 tall and leaves rows 0 and 2 at the
    base height, and collapsing it returns row 1 to the base height. *)
Theorem row_height_tall_iff_expanded
  (customers : list customer) (columns : nat) (expandedCardId : jsval)
  (r : nat) :
  (getItemSize customers columns expandedCardId r = EXPANDED_ROW_HEIGHT
   <-> exists i, r * columns <= i < r * columns + columns
                 /\ i < List.length customers
                 /\ expandedAt customers expandedCardId i)
  /\ (getItemSize customers columns expandedCardId r = BASE_ROW_HEIGHT
      <-> ~ exists i, r * columns <= i < r * columns + columns
                      /\ i < List.length customers
                      /\ expandedAt customers expandedCardId i)
  /\ (let nine := ExampleHost.nineCustomers in
      let seventh := JStr "customer-7" in
      option_map id (nth_error nine 6) = Some seventh
      /\ map (getItemSize nine 4 seventh) [0; 1; 2]
         = [BASE_ROW_HEIGHT; EXPANDED_ROW_HEIGHT; BASE_ROW_HEIGHT]
      /\ map (getItemSize nine 4 JNull) [0; 1; 2]
         = [BASE_ROW_HEIGHT; BASE_ROW_HEIGHT; BASE_ROW_HEIGHT]).
Proof.
  assert (Htall :
    getItemSize customers columns expandedCardId r = EXPANDED_ROW_HEIGHT
    <-> exists i, r * columns <= i < r * columns + columns
                  /\ i < List.length customers
                  /\ expandedAt customers expandedCardId i).
  { unfold getItemSize. rewrite scanRow_expanded.
    split; intros (i & Hi & Hex).
    - exists i. split; [ lia | ]. split; [ | assumption ].
      destruct Hex as (c & Hc & _).
      apply nth_error_Some. congruence.
    - destruct Hi as (Hrange & Hlen). exists i. split; [ lia | ].
      apply Hex. }
  split; [ exact Htall | ].
  split.
  - rewrite <- Htall. unfold getItemSize.
    match goal with
    | |- scanRow ?cs ?e ?i ?n = _ <-> _ =>
        destruct (scanRow_cases cs e n i) as [ H | H ]; rewrite H
    end.
    + split; [ discriminate | reflexivity ].
    + split; [ discriminate | ]. intros Hn. exfalso. apply Hn. reflexivity.
  - repeat split.
Qed.

End GridFacts.

(* ===================================================================== *)
(** ** Properties of the view pipeline *)
(* ===================================================================== *)

Module ViewFacts.

Import View.

(** *** Filtering *)

Lemma filterM_pure (A : Type) (p : A -> result bool) (b : A -> bool)
  (l : list A) :
  Forall (fun x => p x = Ok (b x)) l -> filterM p l = Ok (filter b l).
Proof.
  induction 1 as [ | x l Hx _ IH ]; simpl; [ reflexivity | ].
  rewrite Hx, IH. simpl. reflexivity.
Qed.

Lemma matchesCategory_returns (v : jsval) (wanted : string) :
  stringOrFalsy v = true -> exists b, matchesCategory v wanted = Ok b.
Proof.
  unfold stringOrFalsy, matchesCategory. intros H.
  destruct (truthy v) eqn:Ht; [ | eauto ].
  destruct v; simpl in *; try discriminate; eauto.
Qed.

(** On an entity of the data model no stage raises. *)
Lemma stagePred_returns (q : query) (st : stage) (c : customer) :
  wellTyped c = true -> stagePred q st c = Ok (passes q st c).
Proof.
  unfold wellTyped, passes. intros H.
  apply andb_prop in H. destruct H as [H Hregion].
  apply andb_prop in H. destruct H as [H Hcontract].
  apply andb_prop in H. destruct H as [Hid Hplan].
  assert (Hret : exists b, stagePred q st c = Ok b).
  { destruct st; simpl.
    - unfold riskPred.
      repeat match goal with |- context [if ?b then _ else _] =>
        destruct b end; eauto.
    - unfold planPred. destruct (nonEmpty _); eauto.
      apply matchesCategory_returns. assumption.
    - unfold contractPred. destruct (nonEmpty _); eauto.
      apply matchesCategory_returns. assumption.
    - unfold regionPred. destruct (nonEmpty _); eauto.
      apply matchesCategory_returns. assumption.
    - unfold searchPred. destruct (nonEmpty _); eauto.
      destruct (id c); simpl in *; try discriminate; eauto. }
  destruct Hret as [b Hb]. rewrite Hb. reflexivity.
Qed.

(** A stage that is not active has the constantly true predicate. *)
Lemma inactive_stage_passes (q : query) (st : stage) (c : customer) :
  stageActive q st = false -> passes q st c = true.
Proof.
  unfold passes. destruct st; simpl; intros H.
  - unfold riskPred.
    apply orb_false_elim in H. destruct H as [H Hlow].
    apply orb_false_elim in H. destruct H as [Hcrit Hhigh].
    rewrite Hcrit, Hhigh, Hlow. reflexivity.
  - unfold planPred. rewrite H. reflexivity.
  - unfold contractPred. rewrite H. reflexivity.
  - unfold regionPred. rewrite H. reflexivity.
  - unfold searchPred. rewrite H. reflexivity.
Qed.

Lemma filter_all_true (A : Type) (f : A -> bool) (l : list A) :
  (forall x, f x = true) -> filter f l = l.
Proof.
  intros H. induction l as [ | x l IH ]; simpl; [ reflexivity | ].
  rewrite H, IH. reflexivity.
Qed.

Lemma allWellTyped_forallb (l : list customer) :
  forallb wellTyped l = true <-> allWellTyped l.
Proof.
  unfold allWellTyped. rewrite forallb_forall, Forall_forall. reflexivity.
Qed.

Lemma allWellTyped_filter (f : customer -> bool) (l : list customer) :
  allWellTyped l -> allWellTyped (filter f l).
Proof.
  unfold allWellTyped. rewrite !Forall_forall.
  intros H c Hc. apply filter_In in Hc. apply H. tauto.
Qed.

(** Each stage selects by a predicate on the single entity. *)
Lemma runStage_filter (q : query) (st : stage) (l : list customer) :
  allWellTyped l -> runStage q st l = Ok (filter (passes q st) l).
Proof.
  intros Hwt. unfold runStage.
  destruct (stageActive q st) eqn:Hact.
  - apply filterM_pure.
    eapply Forall_impl; [ | exact Hwt ].
    intros c Hc. apply stagePred_returns. assumption.
  - rewrite filter_all_true; [ reflexivity | ].
    intros c. apply inactive_stage_passes. assumption.
Qed.

Lemma filter_filter (A : Type) (f g : A -> bool) (l : list A) :
  filter f (filter g l) = filter (fun x => g x && f x) l.
Proof.
  induction l as [ | x l IH ]; simpl; [ reflexivity | ].
  destruct (g x); simpl; [ destruct (f x) | ]; rewrite IH; reflexivity.
Qed.

Lemma runStages_filter (q : query) (sts : list stage) :
  forall l,
    allWellTyped l ->
    runStages q sts l
    = Ok (filter (fun c => forallb (fun st => passes q st c) sts) l).
Proof.
  induction sts as [ | st sts IH ]; intros l Hwt; simpl.
  - rewrite filter_all_true; reflexivity.
  - rewrite runStage_filter by assumption. simpl.
    rewrite IH by (apply allWellTyped_filter; assumption).
    rewrite filter_filter. reflexivity.
Qed.


Lemma filterM_ext (A : Type) (p p' : A -> result bool) (l : list A) :
  (forall x, p x = p' x) -> filterM p l = filterM p' l.
Proof.
  intros H. induction l as [ | x l IH ]; simpl; [ reflexivity | ].
  rewrite H, IH. reflexivity.
Qed.

Lemma bind_ext (A B : Type) (m : result A) (f g : A -> result B) :
  (forall x, f x = g x) -> bind m f = bind m g.
Proof. intros H. destruct m; simpl; [ apply H | reflexivity ]. Qed.

Lemma bind_Ok (A : Type) (m : result A) : bind m (fun x => Ok x) = m.
Proof. destruct m; reflexivity. Qed.

Lemma riskStage_source (q : query) (l : list customer) :
  (if activeFilter q =? "critical"
   then filterM (fun c => Ok (isCritical c)) l
   else if activeFilter q =? "high"
   then filterM (fun c => Ok (isHigh c)) l
   else if activeFilter q =? "low"
   then filterM (fun c => Ok (isLow c)) l
   else Ok l)
  = runStage q RiskStage l.
Proof.
  unfold runStage, stageActive, stagePred, riskPred.
  destruct (activeFilter q =? "critical"); simpl; [ reflexivity | ].
  destruct (activeFilter q =? "high"); simpl; [ reflexivity | ].
  destruct (activeFilter q =? "low"); reflexivity.
Qed.

Lemma categoryStage_source (wanted : string) (field : customer -> jsval)
  (l : list customer) :
  (if nonEmpty wanted
   then filterM (fun c => matchesCategory (field c) wanted) l
   else Ok l)
  = (if nonEmpty wanted
     then filterM
            (fun c => if nonEmpty wanted
                      then matchesCategory (field c) wanted else Ok true) l
     else Ok l).
Proof. destruct (nonEmpty wanted); reflexivity. Qed.

Lemma searchStage_source (q : query) (l : list customer) :
  (if nonEmpty (searchQuery q)
   then filterM
          (fun c => s <- toLowerCase (id c) ;;
                    Ok (includes s (lower (searchQuery q)))) l
   else Ok l)
  = runStage q SearchStage l.
Proof.
  unfold runStage, stageActive, stagePred, searchPred.
  destruct (nonEmpty (searchQuery q)); reflexivity.
Qed.

(** The effect applies the five stages in the order of the source. *)
Lemma applyFilters_stages (q : query) (l : list customer) :
  applyFilters q l = runStages q sourceOrder l.
Proof.
  unfold applyFilters. simpl. rewrite riskStage_source.
  apply bind_ext. intros l1.
  rewrite (categoryStage_source (planTypeFilter q) planTypeOf).
  apply bind_ext. intros l2.
  rewrite (categoryStage_source (contractTypeFilter q) contractTypeOf).
  apply bind_ext. intros l3.
  rewrite (categoryStage_source (regionFilter q) regionOf).
  apply bind_ext. intros l4.
  rewrite searchStage_source. symmetry. apply bind_Ok.
Qed.

Lemma applyFilters_filter (q : query) (l : list customer) :
  allWellTyped l -> applyFilters q l = Ok (filter (passesAll q) l).
Proof.
  intros H. rewrite applyFilters_stages. apply runStages_filter. assumption.
Qed.




(** *** Sorting *)

Section Sorting.

Variable A : Type.
Variable compare : A -> A -> result Q.

(** Where the comparator returns, the sort returns a rearrangement. *)
Lemma insertM_Permutation (x : A) (l : list A) :
  Forall (fun y => exists v, compare x y = Ok v) l ->
  exists out, insertM compare x l = Ok out /\ Permutation (x :: l) out.
Proof.
  induction 1 as [ | y l [v Hv] _ (out & Hout & Hperm) ]; simpl.
  - eauto.
  - rewrite Hv. simpl. destruct (Qle_bool v 0).
    + eauto.
    + rewrite Hout. simpl. eexists. split; [ reflexivity | ].
      rewrite perm_swap. constructor. assumption.
Qed.

Variable P : A -> Prop.
Hypothesis compare_returns :
  forall a b, P a -> P b -> exists v, compare a b = Ok v.

Lemma sortM_Permutation (l : list A) :
  Forall P l ->
  exists out, sortM compare l = Ok out /\ Permutation l out /\ Forall P out.
Proof.
  induction 1 as [ | x l Hx Hl (s & Hs & Hperm & HP) ]; simpl.
  - exists []. auto.
  - rewrite Hs. simpl.
    destruct (@insertM_Permutation x s) as (out & Hout & Hperm').
    { eapply Forall_impl; [ | exact HP ]. intros y Hy.
      apply compare_returns; assumption. }
    exists out. split; [ assumption | ]. split.
    + rewrite <- Hperm'. constructor. assumption.
    + rewrite Forall_forall in *. intros y Hy.
      apply Permutation_sym in Hperm'.
      apply (Permutation_in _ Hperm') in Hy. destruct Hy as [ <- | Hy ]; auto.
Qed.

(** Where the comparator decides a total and transitive order, the result
    is in that order. *)
Variable R : A -> A -> Prop.
Hypothesis compare_decides :
  forall a b v, P a -> P b -> compare a b = Ok v ->
                (Qle_bool v 0 = true <-> R a b).
Hypothesis R_total : forall a b, P a -> P b -> R a b \/ R b a.
Hypothesis R_trans : forall a b c, R a b -> R b c -> R a c.

Lemma insertM_sorted (x : A) (l : list A) :
  P x -> Forall P l -> StronglySorted R l ->
  forall out, insertM compare x l = Ok out -> StronglySorted R out.
Proof.
  intros Hx HP Hsorted. induction Hsorted as [ | y l Hsorted IH Hy ];
    intros out Hout; simpl in Hout.
  - inversion Hout. repeat constructor.
  - inversion HP as [ | ? ? HPy HPl ]; subst.
    unfold bind in Hout.
    destruct (compare x y) as [ v | ] eqn:Hv; [ | discriminate ].
    pose proof (compare_decides Hx HPy Hv) as Hdec.
    destruct (Qle_bool v 0) eqn:Hle.
    + inversion Hout; subst.
      assert (Hxy : R x y) by (apply Hdec; reflexivity).
      constructor; [ constructor; assumption | ].
      constructor; [ assumption | ].
      eapply Forall_impl; [ | exact Hy ]. intros z Hz. eauto.
    + destruct (insertM compare x l) as [ r | ] eqn:Hr; [ | discriminate ].
      inversion Hout; subst.
      assert (Hyx : R y x).
      { destruct (R_total Hx HPy) as [ Hxy | ]; [ | assumption ].
        apply Hdec in Hxy. congruence. }
      constructor; [ apply IH; auto | ].
      destruct (@insertM_Permutation x l) as (r' & Hr' & Hperm).
      { eapply Forall_impl; [ | exact HPl ]. intros z Hz.
        apply compare_returns; assumption. }
      assert (r' = r) by congruence. subst r'.
      rewrite Forall_forall in *. intros z Hz.
      apply Permutation_sym in Hperm.
      apply (Permutation_in _ Hperm) in Hz. destruct Hz as [ <- | Hz ]; auto.
Qed.

Lemma sortM_sorted (l : list A) :
  Forall P l ->
  exists out, sortM compare l = Ok out /\ Permutation l out
              /\ StronglySorted R out.
Proof.
  induction 1 as [ | x l Hx Hl (s & Hs & Hperm & Hsorted) ]; simpl.
  - exists []. repeat split; constructor.
  - rewrite Hs. simpl.
    destruct (sortM_Permutation Hl) as (s' & Hs' & _ & HPs).
    assert (s' = s) by congruence. subst s'.
    destruct (@insertM_Permutation x s) as (out & Hout & Hperm').
    { eapply Forall_impl; [ | exact HPs ]. intros y Hy.
      apply compare_returns; assumption. }
    exists out. split; [ assumption | ]. split.
    + rewrite <- Hperm'. constructor. assumption.
    + eapply insertM_sorted; eauto.
Qed.

End Sorting.

Lemma Qle_bool_inject_Z (z : Z) :
  Qle_bool (inject_Z z) 0 = true <-> (z <= 0)%Z.
Proof.
  rewrite Qle_bool_iff. unfold Qle, inject_Z. simpl. lia.
Qed.

Lemma wellTyped_id (c : customer) :
  wellTyped c = true -> exists s, id c = JStr s.
Proof.
  unfold wellTyped. intros H.
  repeat (apply andb_prop in H; destruct H as [H _]).
  destruct (id c); try discriminate. eauto.
Qed.

Section Collation.

Variable localeCompare : string -> string -> Z.

Lemma byIdAsc_returns (a b : customer) :
  wellTyped a = true -> wellTyped b = true ->
  exists v, byIdAsc localeCompare a b = Ok v.
Proof.
  intros Ha Hb.
  destruct (wellTyped_id _ Ha) as [x Hx].
  destruct (wellTyped_id _ Hb) as [y Hy].
  unfold byIdAsc, idNumber, idLocaleCompare. rewrite Hx, Hy.
  destruct (firstDigitRun x), (firstDigitRun y); cbv beta iota delta [bind];
    match goal with
    | |- context [if ?t then _ else _] => destruct t
    end; eauto.
Qed.

Lemma byIdAsc_decides (a b : customer) (v : Q) :
  wellTyped a = true -> wellTyped b = true ->
  byIdAsc localeCompare a b = Ok v ->
  (Qle_bool v 0 = true <-> idOrder localeCompare a b).
Proof.
  intros Ha Hb.
  destruct (wellTyped_id _ Ha) as [x Hx].
  destruct (wellTyped_id _ Hb) as [y Hy].
  unfold idOrder, idNumberOf, idText, byIdAsc, idLocaleCompare.
  rewrite Hx, Hy. unfold idNumber.
  set (numA := match firstDigitRun x with
               | Some run => parseInt run
               | None => parseInt "0"
               end).
  set (numB := match firstDigitRun y with
               | Some run => parseInt run
               | None => parseInt "0"
               end).
  replace (match firstDigitRun x with
           | Some run => Ok (parseInt run)
           | None => Ok (parseInt "0")
           end) with (Ok numA)
    by (subst numA; destruct (firstDigitRun x); reflexivity).
  replace (match firstDigitRun y with
           | Some run => Ok (parseInt run)
           | None => Ok (parseInt "0")
           end) with (Ok numB)
    by (subst numB; destruct (firstDigitRun y); reflexivity).
  clearbody numA numB. cbv beta iota delta [bind].
  destruct (Qeq_bool numA numB) eqn:E; cbv beta iota delta [negb];
    intros Hv; inversion Hv; subst v.
  - apply Qeq_bool_iff in E. rewrite Qle_bool_inject_Z. split; [ auto | ].
    intros [ Hlt | [ _ Hle ] ]; [ lra | assumption ].
  - assert (Hne : ~ numA == numB).
    { intros H. apply Qeq_bool_iff in H. congruence. }
    rewrite Qle_bool_iff. split.
    + intros H. left.
      destruct (Q_dec numA numB) as [ [ Hlt | Hgt ] | Heq ];
        [ assumption | lra | contradiction ].
    + intros [ Hlt | [ Heq _ ] ]; [ lra | contradiction ].
Qed.

(** Whatever the sort key, sorting entities of the data model returns, and
    returns a rearrangement of its input. *)
Lemma sortCustomers_Permutation (key : string) (l : list customer) :
  allWellTyped l ->
  exists out, sortCustomers localeCompare key l = Ok out
              /\ Permutation l out.
Proof.
  intros Hwt. unfold sortCustomers.
  destruct ((key =? "probability-desc") || (key =? "highest-risk"))%string.
  { destruct (@sortM_Permutation _ byProbabilityDesc
                (fun c => wellTyped c = true)
                (fun a b _ _ => ex_intro _ _ eq_refl) l Hwt)
      as (out & Hout & Hperm & _). eauto. }
  destruct (key =? "lowest-risk")%string.
  { destruct (@sortM_Permutation _ byProbabilityAsc
                (fun c => wellTyped c = true)
                (fun a b _ _ => ex_intro _ _ eq_refl) l Hwt)
      as (out & Hout & Hperm & _). eauto. }
  destruct (key =? "id-asc")%string.
  { destruct (@sortM_Permutation _ (byIdAsc localeCompare)
                (fun c => wellTyped c = true) byIdAsc_returns l Hwt)
      as (out & Hout & Hperm & _). eauto. }
  eauto.
Qed.


(** The order of the number first and of [localeCompare] second is total
    and transitive when [localeCompare] is. *)
Hypothesis localeCompare_total :
  forall a b, (localeCompare a b <= 0)%Z \/ (localeCompare b a <= 0)%Z.
Hypothesis localeCompare_trans :
  forall a b c, (localeCompare a b <= 0)%Z -> (localeCompare b c <= 0)%Z ->
                (localeCompare a c <= 0)%Z.

Lemma idOrder_total (a b : customer) :
  idOrder localeCompare a b \/ idOrder localeCompare b a.
Proof.
  unfold idOrder.
  destruct (Q_dec (idNumberOf a) (idNumberOf b)) as [ [ H | H ] | H ].
  - left. left. assumption.
  - right. left. assumption.
  - destruct (localeCompare_total (idText a) (idText b)).
    + left. right. auto.
    + right. right. split; [ symmetry; assumption | assumption ].
Qed.

Lemma idOrder_trans (a b c : customer) :
  idOrder localeCompare a b -> idOrder localeCompare b c ->
  idOrder localeCompare a c.
Proof.
  unfold idOrder.
  intros [ Hab | [ Hab Hab' ] ] [ Hbc | [ Hbc Hbc' ] ].
  - left. lra.
  - left. lra.
  - left. lra.
  - right. split; [ lra | eauto ].
Qed.








End Collation.

(** The binary collation is a total preorder. *)
Lemma binary_le (a b : string) :
  (ExampleHost.localeCompare a b <= 0)%Z <-> String.compare a b <> Gt.
Proof.
  unfold ExampleHost.localeCompare.
  destruct (String.compare a b); split; intros H; try lia; congruence.
Qed.

Lemma binary_total (a b : string) :
  (ExampleHost.localeCompare a b <= 0)%Z
  \/ (ExampleHost.localeCompare b a <= 0)%Z.
Proof.
  rewrite !binary_le. rewrite (String.compare_antisym b a).
  destruct (String.compare a b); simpl; [ left | left | right ]; congruence.
Qed.

Lemma binary_trans (a b c : string) :
  (ExampleHost.localeCompare a b <= 0)%Z ->
  (ExampleHost.localeCompare b c <= 0)%Z ->
  (ExampleHost.localeCompare a c <= 0)%Z.
Proof.
  rewrite !binary_le. intros Hab Hbc.
  destruct (String.compare a b) eqn:Eab; [ | | congruence ].
  - apply String.compare_eq_iff in Eab. subst. assumption.
  - destruct (String.compare b c) eqn:Ebc; [ | | congruence ].
    + apply String.compare_eq_iff in Ebc. subst. congruence.
    + apply OrderedTypeEx.String_as_OT.cmp_lt in Eab, Ebc.
      pose proof (OrderedTypeEx.String_as_OT.lt_trans _ _ _ Eab Ebc) as Hac.
      apply OrderedTypeEx.String_as_OT.cmp_lt in Hac.
      unfold OrderedTypeEx.String_as_OT.cmp in Hac. congruence.
Qed.


(** The two views of the witness above: the critical month-to-month
    customers whose id contains "customer-1", by id and by probability. *)
Example sample_views :
  computeView ExampleHost.localeCompare ExampleHost.sampleView
    (withSort "id-asc" ExampleHost.sampleQuery)
  = Ok [ExampleHost.sampleWith "customer-1" 95 "Month-to-month" "DSL";
        ExampleHost.sampleWith "customer-12" 91 "Month-to-month"
          "Fiber optic"]
  /\ computeView ExampleHost.localeCompare ExampleHost.sampleView
       (withSort "lowest-risk" ExampleHost.sampleQuery)
     = Ok [ExampleHost.sampleWith "customer-12" 91 "Month-to-month"
             "Fiber optic";
           ExampleHost.sampleWith "customer-1" 95 "Month-to-month" "DSL"].
Proof. split; vm_compute; reflexivity. Qed.

(** The critical filter on scores 95, 72, 39 and 91 keeps 95 and 91. *)
Example critical_filter :
  applyFilters (mkQuery "critical" "" "" "" "" "")
    [ExampleHost.sample "a" 95; ExampleHost.sample "b" 72;
     ExampleHost.sample "c" 39; ExampleHost.sample "d" 91]
  = Ok [ExampleHost.sample "a" 95; ExampleHost.sample "d" 91].
Proof. reflexivity. Qed.



End ViewFacts.

(* ===================================================================== *)
(** ** Properties of the poller and of the state container *)
(* ===================================================================== *)

Module AppFacts.

Import App.

(** *** The invariant is kept by every step *)

Lemma sameTimers_refl s : sameTimers s s.
Proof. repeat split. Qed.

Lemma sameTimers_trans s1 s2 s3 :
  sameTimers s1 s2 -> sameTimers s2 s3 -> sameTimers s1 s3.
Proof.
  unfold sameTimers. intros (? & ? & ? & ?) (? & ? & ? & ?).
  repeat split; congruence.
Qed.

Lemma onePoller_sameTimers s s' : sameTimers s s' -> onePoller s -> onePoller s'.
Proof.
  unfold sameTimers, onePoller, tracked.
  intros (Hr & Hi & Hn & Hm) (H1 & H2 & H3).
  rewrite Hr, Hi, Hn, Hm. auto.
Qed.

Lemma sameTimers_setState f s : sameTimers s (setState f s).
Proof. unfold setState. destruct (mounted s) eqn:E; repeat split. Qed.

Lemma sameTimers_issue r s : sameTimers s (issue r s).
Proof. repeat split. Qed.

Lemma sameTimers_set_start v s : sameTimers s (set_start v s).
Proof. repeat split. Qed.

Lemma sameTimers_with_cleanup b s : sameTimers s (with_cleanup b s).
Proof. repeat split. Qed.

Lemma onePoller_cleared s s' : cleared s s' -> onePoller s -> onePoller s'.
Proof.
  unfold cleared, onePoller, tracked.
  intros (Hi & Hn & Hm) (H1 & _ & _). rewrite Hi, Hn. auto.
Qed.

Lemma cleared_sameTimers s s1 s2 :
  cleared s s1 -> sameTimers s1 s2 -> cleared s s2.
Proof.
  unfold cleared, sameTimers. intros (? & ? & ?) (? & ? & ? & ?).
  repeat split; congruence.
Qed.

Lemma sameTimers_cleared s s1 s2 :
  sameTimers s s1 -> cleared s1 s2 -> cleared s s2.
Proof.
  unfold cleared, sameTimers. intros (? & ? & ? & ?) (? & ? & ?).
  repeat split; congruence.
Qed.

Lemma tracked_sameTimers s s' : sameTimers s s' -> tracked s -> tracked s'.
Proof.
  unfold sameTimers, tracked. intros (Hr & Hi & _ & _). rewrite Hr, Hi. auto.
Qed.

Lemma tracked_cleared s s' : cleared s s' -> tracked s'.
Proof. unfold cleared, tracked. intros (Hi & _). auto. Qed.

Lemma cleared_clearAndForget s : tracked s -> cleared s (clearAndForget s).
Proof.
  unfold tracked, cleared, clearAndForget, clearInterval, set_ref.
  intros [ Hi | (h & id & Hi & Hr & Hh) ].
  - destruct (pollingIntervalRef (machine_of s)) as [ h | ];
      [ destruct (h =? 0)%nat | ]; simpl; rewrite ?Hi; auto.
  - rewrite Hr. apply Nat.eqb_neq in Hh. rewrite Hh. simpl.
    rewrite Hi. simpl. rewrite Nat.eqb_refl. simpl. auto.
Qed.

Lemma cleared_clearIfSet s : tracked s -> cleared s (clearIfSet s).
Proof.
  unfold tracked, cleared, clearIfSet, clearInterval.
  intros [ Hi | (h & id & Hi & Hr & Hh) ].
  - destruct (pollingIntervalRef (machine_of s)) as [ h | ];
      [ destruct (h =? 0)%nat | ]; simpl; rewrite ?Hi; auto.
  - rewrite Hr. apply Nat.eqb_neq in Hh. rewrite Hh. simpl.
    rewrite Hi. simpl. rewrite Nat.eqb_refl. simpl. auto.
Qed.

Lemma cleared_clearRef s : tracked s -> cleared s (clearRef s).
Proof.
  unfold tracked, cleared, clearRef, clearInterval.
  intros [ Hi | (h & id & Hi & Hr & Hh) ].
  - destruct (pollingIntervalRef (machine_of s)) as [ h | ];
      simpl; rewrite ?Hi; auto.
  - rewrite Hr. simpl. rewrite Hi. simpl. rewrite Nat.eqb_refl. simpl. auto.
Qed.

Lemma onePoller_setIntervalRef id s :
  onePoller s -> intervals (machine_of s) = [] -> mounted s = true ->
  onePoller (setIntervalRef id s).
Proof.
  unfold onePoller, tracked, setIntervalRef. simpl.
  intros (Hn & _ & _) Hi Hm. rewrite Hi.
  split; [ lia | ]. split; [ | congruence ].
  right. eauto.
Qed.

Ltac timers :=
  repeat first
    [ assumption
    | apply sameTimers_refl
    | apply sameTimers_setState
    | apply sameTimers_issue
    | apply sameTimers_set_start
    | apply sameTimers_with_cleanup
    | eapply sameTimers_trans; [ | apply sameTimers_setState ]
    | eapply sameTimers_trans; [ | apply sameTimers_issue ]
    | eapply sameTimers_trans; [ | apply sameTimers_set_start ]
    | eapply sameTimers_trans; [ | apply sameTimers_with_cleanup ]
    | eapply cleared_sameTimers; [ | apply sameTimers_setState ]
    | eapply cleared_sameTimers; [ | apply sameTimers_issue ]
    | eapply cleared_sameTimers; [ | apply sameTimers_with_cleanup ] ].

Lemma cleared_pollTaskStatusCatch message s :
  tracked s -> cleared s (pollTaskStatusCatch message s).
Proof.
  intros Ht. unfold pollTaskStatusCatch.
  timers. apply cleared_clearAndForget. assumption.
Qed.

Lemma cleared_trans s1 s2 s3 : cleared s1 s2 -> cleared s2 s3 -> cleared s1 s3.
Proof.
  unfold cleared. intros (? & ? & ?) (? & ? & ?).
  repeat split; congruence.
Qed.

Lemma pollTaskStatusResume_timers resp s :
  tracked s ->
  (terminal resp = true -> cleared s (pollTaskStatusResume resp s))
  /\ (terminal resp = false -> sameTimers s (pollTaskStatusResume resp s)).
Proof.
  intros Ht. destruct resp as [ st result err | message ]; simpl.
  - assert (Ht' : tracked (setState (set_status (Some st)) s)).
    { eapply tracked_sameTimers; [ | exact Ht ]. timers. }
    pose proof (cleared_clearAndForget Ht') as Hc.
    destruct (st =? "done")%string; simpl.
    + split; [ intros _ | discriminate ].
      eapply sameTimers_cleared; [ apply sameTimers_setState | ].
      destruct (debugLog result).
      * timers. exact Hc.
      * eapply cleared_trans; [ exact Hc | ].
        apply cleared_pollTaskStatusCatch.
        exact (tracked_cleared Hc).
    + destruct (st =? "failed")%string; simpl.
      * split; [ intros _ | discriminate ].
        eapply sameTimers_cleared; [ apply sameTimers_setState | ].
        timers. exact Hc.
      * split; [ discriminate | intros _ ]. timers.
  - split; [ intros _ | discriminate ].
    apply cleared_pollTaskStatusCatch. assumption.
Qed.

Lemma intervalCallback_timers now id s :
  tracked s ->
  ((MAX_POLLING_TIME <? elapsed now s)%Z = true ->
     cleared s (intervalCallback now id s))
  /\ ((MAX_POLLING_TIME <? elapsed now s)%Z = false ->
     sameTimers s (intervalCallback now id s)).
Proof.
  intros Ht. unfold intervalCallback.
  destruct (MAX_POLLING_TIME <? elapsed now s)%Z.
  - split; [ intros _ | discriminate ].
    timers. apply cleared_clearRef. assumption.
  - split; [ discriminate | intros _ ]. unfold pollTaskStatus. timers.
Qed.

Lemma handleFileSelect_cleared f s :
  tracked s -> cleared s (handleFileSelect f s).
Proof.
  intros Ht. unfold handleFileSelect. timers.
  eapply sameTimers_cleared; [ apply sameTimers_setState | ].
  apply cleared_clearAndForget.
  eapply tracked_sameTimers; [ | exact Ht ]. timers.
Qed.

Lemma unmount_intervals s :
  tracked s ->
  intervals (machine_of (unmount s)) = []
  /\ nextHandle (machine_of (unmount s)) = nextHandle (machine_of s)
  /\ mounted (unmount s) = false.
Proof.
  intros Ht. unfold unmount.
  pose proof (cleared_clearIfSet Ht) as (Hi & Hn & Hm).
  destruct (pollingCleanup (clearIfSet s)).
  - pose proof (@cleared_clearAndForget (clearIfSet s)
                  (or_introl Hi)) as (Hi' & Hn' & _).
    simpl. repeat split; congruence.
  - simpl. repeat split; assumption.
Qed.

Lemma onePoller_unmount s : onePoller s -> onePoller (unmount s).
Proof.
  intros (Hn & Ht & _).
  destruct (unmount_intervals Ht) as (Hi & Hn' & Hm).
  unfold onePoller, tracked. rewrite Hi, Hn'. auto.
Qed.

Lemma onePoller_pollingEffect now s :
  onePoller s -> mounted s = true -> onePoller (pollingEffect now s).
Proof.
  intros Hinv Hm. unfold pollingEffect.
  set (s1 := if pollingCleanup s then clearAndForget s else s).
  assert (H1 : onePoller s1 /\ mounted s1 = true
               /\ taskId (react s1) = taskId (react s)).
  { subst s1. destruct (pollingCleanup s); [ | auto ].
    destruct Hinv as (Hn & Ht & Hu).
    pose proof (cleared_clearAndForget Ht) as Hc.
    split; [ eapply onePoller_cleared; [ exact Hc | repeat split; auto ] | ].
    split; [ destruct Hc as (_ & _ & ->); assumption | ].
    unfold clearAndForget.
    destruct (pollingIntervalRef (machine_of s)) as [ h | ];
      [ destruct (h =? 0)%nat | ]; reflexivity. }
  destruct H1 as (Hinv1 & Hm1 & _). clearbody s1.
  destruct (taskId (react s1)) as [ id | ];
    [ destruct (View.nonEmpty id) | ].
  - destruct Hinv1 as (Hn & Ht & Hu).
    pose proof (cleared_clearIfSet Ht) as Hc.
    eapply onePoller_sameTimers; [ apply sameTimers_with_cleanup | ].
    apply onePoller_setIntervalRef.
    + eapply onePoller_sameTimers;
        [ | eapply onePoller_cleared; [ exact Hc | repeat split; auto ] ].
      unfold pollTaskStatus. timers.
    + destruct Hc as (Hi & _). exact Hi.
    + change (mounted (clearIfSet s1) = true).
      destruct Hc as (_ & _ & ->). assumption.
  - eapply onePoller_sameTimers; [ apply sameTimers_with_cleanup | assumption ].
  - eapply onePoller_sameTimers; [ apply sameTimers_with_cleanup | assumption ].
Qed.

Lemma onePoller_commit previous now s :
  onePoller s -> onePoller (commit previous now s).
Proof.
  intros H. unfold commit.
  destruct (mounted s) eqn:Hm; simpl; [ | assumption ].
  destruct (negb (taskId_eqb previous (taskId (react s)))); [ | assumption ].
  apply onePoller_pollingEffect; assumption.
Qed.

Lemma onePoller_handle now e s : onePoller s -> onePoller (handle now e s).
Proof.
  intros Hinv. pose proof Hinv as (Hn & Ht & Hu).
  destruct e as [ f | task_id | message | h | resp | u | ]; simpl.
  - destruct (mounted s); [ | assumption ].
    eapply onePoller_cleared; [ apply handleFileSelect_cleared | ]; assumption.
  - eapply onePoller_sameTimers; [ | exact Hinv ]. timers.
  - eapply onePoller_sameTimers; [ | exact Hinv ]. timers.
  - destruct (liveInterval h s) as [ [ h' id ] | ]; [ | assumption ].
    destruct (intervalCallback_timers now id Ht) as (Hc & Hs).
    destruct (MAX_POLLING_TIME <? elapsed now s)%Z.
    + eapply onePoller_cleared; [ apply Hc; reflexivity | assumption ].
    + eapply onePoller_sameTimers; [ apply Hs; reflexivity | assumption ].
  - destruct (pollTaskStatusResume_timers resp Ht) as (Hc & Hs).
    destruct (terminal resp).
    + eapply onePoller_cleared; [ apply Hc; reflexivity | assumption ].
    + eapply onePoller_sameTimers; [ apply Hs; reflexivity | assumption ].
  - destruct (mounted s); [ | assumption ].
    eapply onePoller_sameTimers; [ | exact Hinv ]. timers.
  - destruct (mounted s); [ | assumption ].
    apply onePoller_unmount. assumption.
Qed.

Lemma onePoller_step s te : onePoller s -> onePoller (step s te).
Proof.
  intros H. destruct te as [ now e ]. unfold step.
  apply onePoller_commit, onePoller_handle. assumption.
Qed.

Lemma onePoller_run trace : forall s, onePoller s -> onePoller (run s trace).
Proof.
  unfold run. induction trace as [ | te trace IH ]; intros s H; simpl.
  - assumption.
  - apply IH, onePoller_step. assumption.
Qed.

Lemma onePoller_initial : onePoller initial.
Proof.
  unfold onePoller, tracked, initial. simpl.
  split; [ lia | ]. split; [ left; reflexivity | reflexivity ].
Qed.

Lemma onePoller_reachable trace : onePoller (run initial trace).
Proof. apply onePoller_run, onePoller_initial. Qed.

(** *** What the steps of a job do *)

Lemma framed_clearAndForget s : framed s (clearAndForget s).
Proof.
  unfold framed, clearAndForget.
  destruct (pollingIntervalRef (machine_of s)) as [ h | ];
    [ destruct (h =? 0)%nat | ]; repeat split.
Qed.

Lemma framed_clearIfSet s : framed s (clearIfSet s).
Proof.
  unfold framed, clearIfSet.
  destruct (pollingIntervalRef (machine_of s)) as [ h | ];
    [ destruct (h =? 0)%nat | ]; repeat split.
Qed.

Lemma framed_clearRef s : framed s (clearRef s).
Proof.
  unfold framed, clearRef.
  destruct (pollingIntervalRef (machine_of s)) as [ h | ]; repeat split.
Qed.

Lemma clearAndForget_idle s :
  intervals (machine_of s) = [] ->
  intervals (machine_of (clearAndForget s)) = [].
Proof.
  intros H. unfold clearAndForget, clearInterval.
  destruct (pollingIntervalRef (machine_of s)) as [ h | ];
    [ destruct (h =? 0)%nat | ]; simpl; rewrite ?H; reflexivity.
Qed.

Lemma clearIfSet_idle s :
  intervals (machine_of s) = [] ->
  intervals (machine_of (clearIfSet s)) = [].
Proof.
  intros H. unfold clearIfSet, clearInterval.
  destruct (pollingIntervalRef (machine_of s)) as [ h | ];
    [ destruct (h =? 0)%nat | ]; simpl; rewrite ?H; reflexivity.
Qed.

(** The effect when [taskId] has become [null]: nothing is started. *)
Lemma pollingEffect_idle now s :
  taskId (react s) = None ->
  let s' := pollingEffect now s in
  react s' = react s
  /\ mounted s' = mounted s
  /\ requests (machine_of s') = requests (machine_of s)
  /\ nextHandle (machine_of s') = nextHandle (machine_of s)
  /\ pollingCleanup s' = false
  /\ (intervals (machine_of s) = [] -> intervals (machine_of s') = []).
Proof.
  intros Hid. unfold pollingEffect.
  destruct (pollingCleanup s).
  - destruct (framed_clearAndForget s) as (Hr & Hm & _ & Hq & Hn & _).
    rewrite Hr, Hid. simpl. rewrite Hr, Hm, Hq, Hn.
    repeat split. apply clearAndForget_idle.
  - rewrite Hid. simpl. repeat split. auto.
Qed.

(** The effect when [taskId] has become a task id: one status check is
    issued at once and one interval is started for that id. *)
Lemma pollingEffect_start now id s :
  taskId (react s) = Some id -> View.nonEmpty id = true ->
  intervals (machine_of s) = [] ->
  let s' := pollingEffect now s in
  react s' = react s
  /\ mounted s' = mounted s
  /\ requests (machine_of s') = StatusCheck id :: requests (machine_of s)
  /\ intervals (machine_of s') = [(nextHandle (machine_of s), id)]
  /\ pollingIntervalRef (machine_of s') = Some (nextHandle (machine_of s))
  /\ pollingStartTimeRef (machine_of s') = Some now
  /\ nextHandle (machine_of s') = S (nextHandle (machine_of s)).
Proof.
  intros Hid Hne Hi. unfold pollingEffect.
  set (s1 := if pollingCleanup s then clearAndForget s else s).
  assert (H1 : framed s s1 /\ intervals (machine_of s1) = []).
  { subst s1. destruct (pollingCleanup s).
    - split; [ apply framed_clearAndForget | ].
      apply clearAndForget_idle. assumption.
    - split; [ repeat split | assumption ]. }
  destruct H1 as ((Hr & Hm & _ & Hq & Hn & _) & Hi1). clearbody s1.
  rewrite Hr, Hid, Hne.
  destruct (framed_clearIfSet s1) as (Hr2 & Hm2 & _ & Hq2 & Hn2 & _).
  pose proof (clearIfSet_idle _ Hi1) as Hi2.
  simpl. rewrite Hr2, Hm2, Hq2, Hn2, Hi2, Hr, Hm, Hq, Hn.
  repeat split.
Qed.

Lemma setState_mounted f s :
  mounted s = true -> setState f s = with_react (f (react s)) s.
Proof. unfold setState. intros ->. reflexivity. Qed.

Lemma taskId_eqb_refl (a : option string) : taskId_eqb a a = true.
Proof. destruct a; simpl; [ apply String.eqb_refl | reflexivity ]. Qed.

(** The synchronous part of an upload, followed by the render it causes. *)
Lemma step_FileSelect now f s :
  mounted s = true -> tracked s ->
  let s1 := step s (now, FileSelect f) in
  intervals (machine_of s1) = []
  /\ nextHandle (machine_of s1) = nextHandle (machine_of s)
  /\ mounted s1 = true
  /\ react s1
     = mkReact (Some f) true None JNull None None
         (View.mkQuery "all" "" (View.sortType (query (react s))) "" "" "")
         JNull
  /\ requests (machine_of s1) = Upload f :: requests (machine_of s).
Proof.
  intros Hm Ht. simpl. rewrite Hm.
  set (s0 := handleFileSelect f s).
  assert (H0 : intervals (machine_of s0) = []
               /\ nextHandle (machine_of s0) = nextHandle (machine_of s)
               /\ mounted s0 = true
               /\ react s0
                  = mkReact (Some f) true None JNull None None
                      (View.mkQuery "all" ""
                         (View.sortType (query (react s))) "" "" "") JNull
               /\ requests (machine_of s0) = Upload f :: requests (machine_of s)).
  { subst s0. destruct (handleFileSelect_cleared f Ht) as (Hi & Hn & Hm0).
    split; [ exact Hi | ]. split; [ exact Hn | ].
    split; [ congruence | ].
    unfold handleFileSelect, setState. rewrite Hm.
    match goal with
    | |- context [clearAndForget ?x] =>
        destruct (framed_clearAndForget x) as (Hr & _ & _ & Hq & _)
    end.
    simpl. rewrite Hr, Hq. split; reflexivity. }
  clearbody s0. destruct H0 as (Hi & Hn & Hm0 & Hr & Hq).
  unfold commit. rewrite Hm0. simpl.
  destruct (negb (taskId_eqb (taskId (react s)) (taskId (react s0))));
    [ | repeat split; assumption ].
  destruct (@pollingEffect_idle now s0) as (Hr' & Hm' & Hq' & Hn' & _ & Hi').
  { rewrite Hr. reflexivity. }
  rewrite Hr', Hm', Hq', Hn'. repeat split; auto.
Qed.

(** The task id arrives while no task is tracked: polling starts. *)
Lemma step_PipelineStarted now id s :
  mounted s = true -> taskId (react s) = None ->
  View.nonEmpty id = true -> intervals (machine_of s) = [] ->
  let s' := step s (now, PipelineStarted id) in
  intervals (machine_of s') = [(nextHandle (machine_of s), id)]
  /\ pollingIntervalRef (machine_of s') = Some (nextHandle (machine_of s))
  /\ pollingStartTimeRef (machine_of s') = Some now
  /\ requests (machine_of s') = StatusCheck id :: requests (machine_of s)
  /\ mounted s' = true
  /\ taskId (react s') = Some id.
Proof.
  intros Hm Hid Hne Hi. simpl. unfold setState, commit. rewrite Hm, Hid.
  simpl. rewrite Hm. simpl.
  match goal with
  | |- context [pollingEffect now ?x] =>
      destruct (@pollingEffect_start now id x eq_refl Hne Hi)
        as (Hr & Hm' & Hq & Hi' & Href & Hst & _)
  end.
  rewrite Hr, Hm', Hq, Hi', Href, Hst. simpl. repeat split. assumption.
Qed.

(** A tick of the tracked interval within the ceiling: one status check. *)
Lemma step_Tick_polls now h id s :
  liveInterval h s = Some (h, id) ->
  (elapsed now s <= MAX_POLLING_TIME)%Z ->
  let s' := step s (now, Tick h) in
  requests (machine_of s') = StatusCheck id :: requests (machine_of s)
  /\ intervals (machine_of s') = intervals (machine_of s)
  /\ react s' = react s.
Proof.
  intros Hlive Hle. simpl. rewrite Hlive. unfold intervalCallback.
  apply Z.ltb_ge in Hle. rewrite Hle.
  unfold commit, pollTaskStatus. simpl.
  rewrite taskId_eqb_refl, andb_false_r. simpl. auto.
Qed.

(** A tick when no interval is live does nothing. *)
Lemma step_Tick_idle now h s :
  intervals (machine_of s) = [] -> step s (now, Tick h) = s.
Proof.
  intros Hi. simpl. unfold liveInterval. rewrite Hi. simpl.
  unfold commit. rewrite taskId_eqb_refl, andb_false_r. reflexivity.
Qed.

Lemma run_ticks_idle firings :
  forall s, intervals (machine_of s) = [] -> run s (ticks firings) = s.
Proof.
  unfold run. induction firings as [ | [ now h ] firings IH ]; intros s Hi;
    simpl; [ reflexivity | ].
  change (fold_left step (ticks firings) (step s (now, Tick h)) = s).
  rewrite step_Tick_idle by assumption. apply IH. assumption.
Qed.

(** A tick of the tracked interval past the ceiling: polling stops. *)
Lemma step_Tick_times_out now h id s :
  onePoller s ->
  liveInterval h s = Some (h, id) ->
  (MAX_POLLING_TIME < elapsed now s)%Z ->
  let s' := step s (now, Tick h) in
  intervals (machine_of s') = []
  /\ error (react s') = Some TIMEOUT_MESSAGE
  /\ loading (react s') = false
  /\ taskId (react s') = None
  /\ requests (machine_of s') = requests (machine_of s).
Proof.
  intros (Hn & Ht & Hu) Hlive Hlt. simpl. rewrite Hlive.
  assert (Hm : mounted s = true).
  { destruct (mounted s); [ reflexivity | ].
    unfold liveInterval in Hlive. rewrite Hu in Hlive by reflexivity.
    discriminate. }
  unfold intervalCallback. apply Z.ltb_lt in Hlt. rewrite Hlt.
  destruct (cleared_clearRef Ht) as (Hi & _ & Hm1).
  destruct (framed_clearRef s) as (Hr & _ & _ & Hq & _).
  set (s0 := setState (set_taskId None)
               (setState (set_loading false)
                  (setState (set_error (Some TIMEOUT_MESSAGE)) (clearRef s)))).
  assert (H0 : intervals (machine_of s0) = []
               /\ error (react s0) = Some TIMEOUT_MESSAGE
               /\ loading (react s0) = false
               /\ taskId (react s0) = None
               /\ requests (machine_of s0) = requests (machine_of s)
               /\ mounted s0 = true).
  { subst s0. rewrite Hm in Hm1.
    rewrite (@setState_mounted _ (clearRef s)) by assumption.
    rewrite (@setState_mounted (set_loading false)) by (simpl; assumption).
    rewrite (@setState_mounted (set_taskId None)) by (simpl; assumption).
    simpl. rewrite Hi, Hq. repeat split. assumption. }
  clearbody s0. destruct H0 as (Hi0 & He0 & Hl0 & Hid0 & Hq0 & Hm0).
  unfold commit. rewrite Hm0. simpl.
  destruct (negb (taskId_eqb (taskId (react s)) (taskId (react s0))));
    [ | repeat split; assumption ].
  destruct (@pollingEffect_idle now s0 Hid0)
    as (Hr' & Hm' & Hq' & Hn' & _ & Hi').
  rewrite Hr', Hq'. repeat split; auto.
Qed.

(** What an upload resets, whatever the state it starts from. *)
Lemma step_FileSelect_react now f s :
  mounted s = true ->
  let s1 := step s (now, FileSelect f) in
  react s1
  = mkReact (Some f) true None JNull None None
      (View.mkQuery "all" "" (View.sortType (query (react s))) "" "" "")
      JNull
  /\ requests (machine_of s1) = Upload f :: requests (machine_of s).
Proof.
  intros Hm. simpl. rewrite Hm.
  set (s0 := handleFileSelect f s).
  assert (H0 : mounted s0 = true
               /\ react s0
                  = mkReact (Some f) true None JNull None None
                      (View.mkQuery "all" ""
                         (View.sortType (query (react s))) "" "" "") JNull
               /\ requests (machine_of s0) = Upload f :: requests (machine_of s)).
  { subst s0. unfold handleFileSelect. rewrite setState_mounted by assumption.
    match goal with
    | |- context [clearAndForget ?x] =>
        destruct (framed_clearAndForget x) as (Hr & Hm' & _ & Hq & _)
    end.
    simpl. rewrite Hr, Hm', Hq. simpl. auto. }
  clearbody s0. destruct H0 as (Hm0 & Hr & Hq).
  unfold commit. rewrite Hm0. simpl.
  destruct (negb (taskId_eqb (taskId (react s)) (taskId (react s0))));
    [ | split; assumption ].
  destruct (@pollingEffect_idle now s0) as (Hr' & _ & Hq' & _).
  { rewrite Hr. reflexivity. }
  rewrite Hr', Hq'. split; assumption.
Qed.

Lemma commit_idle previous now s :
  intervals (machine_of s) = [] ->
  (mounted s = true -> taskId (react s) = None) ->
  intervals (machine_of (commit previous now s)) = [].
Proof.
  intros Hi Hid. unfold commit.
  destruct (mounted s) eqn:Hm; simpl; [ | assumption ].
  destruct (negb (taskId_eqb previous (taskId (react s)))); [ | assumption ].
  destruct (@pollingEffect_idle now s (Hid eq_refl)) as (_ & _ & _ & _ & _ & H).
  apply H. assumption.
Qed.

Lemma pollTaskStatusResume_taskId resp s :
  terminal resp = true -> mounted s = true ->
  taskId (react (pollTaskStatusResume resp s)) = None.
Proof.
  intros Hterm Hm.
  assert (Hstop : forall f g s0, mounted s0 = true ->
            taskId (react (setState (set_taskId None)
                             (setState f (setState g (clearAndForget s0)))))
            = None).
  { intros f g s0 Hm0.
    destruct (framed_clearAndForget s0) as (_ & Hm1 & _).
    rewrite Hm0 in Hm1.
    rewrite (@setState_mounted g) by assumption.
    rewrite (@setState_mounted f) by (simpl; assumption).
    rewrite (@setState_mounted (set_taskId None)) by (simpl; assumption).
    reflexivity. }
  assert (Hcatch : forall message s0, mounted s0 = true ->
            taskId (react (pollTaskStatusCatch message s0)) = None).
  { intros message s0 Hm0. unfold pollTaskStatusCatch.
    apply Hstop. assumption. }
  destruct resp as [ st result err | message ]; simpl in *.
  - assert (Hm' : mounted (setState (set_status (Some st)) s) = true).
    { rewrite setState_mounted by assumption. assumption. }
    destruct (st =? "done")%string.
    { destruct (debugLog result); [ apply Hstop; assumption | ].
      apply Hcatch.
      destruct (framed_clearAndForget (setState (set_status (Some st)) s))
        as (_ & Hm1 & _).
      congruence. }
    destruct (st =? "failed")%string; [ apply Hstop; assumption | ].
    discriminate.
  - apply Hcatch. assumption.
Qed.

Lemma liveInterval_single h id s :
  intervals (machine_of s) = [(h, id)] -> liveInterval h s = Some (h, id).
Proof.
  intros H. unfold liveInterval. rewrite H. simpl.
  rewrite Nat.eqb_refl. reflexivity.
Qed.

Lemma liveInterval_tracked h id s :
  onePoller s -> liveInterval h s = Some (h, id) ->
  intervals (machine_of s) = [(h, id)] /\ mounted s = true.
Proof.
  intros (_ & Ht & Hu) Hlive. unfold liveInterval in Hlive.
  destruct Ht as [ Hi | (h' & id' & Hi & _ & _) ].
  - rewrite Hi in Hlive. discriminate.
  - rewrite Hi in Hlive. simpl in Hlive.
    destruct (h' =? h)%nat eqn:E; [ | discriminate ].
    inversion Hlive; subst. split; [ assumption | ].
    destruct (mounted s); [ reflexivity | ].
    rewrite Hu in Hi by reflexivity. discriminate.
Qed.

Lemma step_Tick_issue now h id s :
  liveInterval h s = Some (h, id) ->
  (elapsed now s <= MAX_POLLING_TIME)%Z ->
  step s (now, Tick h) = issue (StatusCheck id) s.
Proof.
  intros Hlive Hle. simpl. rewrite Hlive. unfold intervalCallback.
  apply Z.ltb_ge in Hle. rewrite Hle.
  unfold commit, pollTaskStatus. simpl.
  rewrite taskId_eqb_refl, andb_false_r. reflexivity.
Qed.

Lemma step_StatusArrived_pending now resp s :
  terminal resp = false ->
  exists st, step s (now, StatusArrived resp)
             = setState (set_status (Some st)) s.
Proof.
  intros Hterm. destruct resp as [ st result err | message ];
    [ | discriminate ].
  exists st. simpl in *. apply orb_false_elim in Hterm.
  destruct Hterm as [ -> -> ].
  unfold commit, setState. destruct (mounted s) eqn:Hm; simpl.
  - rewrite taskId_eqb_refl, andb_false_r. reflexivity.
  - rewrite Hm. reflexivity.
Qed.

(** While the job goes on, each tick issues one status check and nothing
    else does. *)
Lemma step_ongoing h id started s te :
  pollingOn h id started s -> ongoing h started te = true ->
  pollingOn h id started (step s te)
  /\ statusChecks (step s te)
     = (if isTick te then [id] else []) ++ statusChecks s.
Proof.
  intros (Hi & Hst & Hm) Hon. destruct te as [ now e ].
  unfold ongoing, isTick in *. simpl in Hon. simpl snd.
  destruct e as [ | | | h' | resp | | ]; try discriminate.
  - apply andb_prop in Hon. destruct Hon as [ Hh Hle ].
    apply Nat.eqb_eq in Hh. subst h'. apply Z.leb_le in Hle.
    rewrite (@step_Tick_issue now h id s).
    + split; [ repeat split; assumption | reflexivity ].
    + apply liveInterval_single. assumption.
    + unfold elapsed. rewrite Hst. assumption.
  - apply negb_true_iff in Hon.
    destruct (@step_StatusArrived_pending now resp s Hon) as [ st -> ].
    rewrite setState_mounted by assumption.
    split; [ repeat split; assumption | reflexivity ].
Qed.

Lemma run_ongoing h id started trace :
  forall s,
    pollingOn h id started s ->
    forallb (ongoing h started) trace = true ->
    pollingOn h id started (run s trace)
    /\ statusChecks (run s trace)
       = repeat id (List.length (filter isTick trace)) ++ statusChecks s.
Proof.
  unfold run. induction trace as [ | te trace IH ]; intros s Hp Hall; simpl.
  - split; [ assumption | reflexivity ].
  - simpl in Hall. apply andb_prop in Hall. destruct Hall as [ Hte Hall ].
    destruct (@step_ongoing h id started s te Hp Hte) as (Hp' & Hq).
    destruct (IH _ Hp' Hall) as (Hp'' & Hq').
    split; [ assumption | ].
    rewrite Hq', Hq. destruct (isTick te); simpl.
    + change (id :: statusChecks s) with ([id] ++ statusChecks s).
      rewrite app_assoc, <- repeat_cons. reflexivity.
    + reflexivity.
Qed.

(** C2. In every state the provider reaches there is at most one live
    polling interval, and it is the one the ref holds; an upload, a
    terminal status response and the unmounting of the provider leave no
    interval alive; and a second job started from any such state, polling or
    not, ends with exactly one interval, the one of the new task, so that
    every later period of the timer issues exactly one status check, for the
    new task, while the job is neither finished nor timed out. *)
Theorem at_most_one_polling_loop (trace : list (Z * event)) :
  let s := run initial trace in
  (List.length (intervals (machine_of s)) <= 1)%nat
  /\ (forall h id, In (h, id) (intervals (machine_of s)) ->
        pollingIntervalRef (machine_of s) = Some h)
  /\ (forall now f,
        intervals (machine_of (step s (now, FileSelect f))) = [])
  /\ (forall now resp, terminal resp = true ->
        intervals (machine_of (step s (now, StatusArrived resp))) = [])
  /\ (forall now, intervals (machine_of (step s (now, Unmount))) = [])
  /\ (forall now f started id2,
        mounted s = true -> View.nonEmpty id2 = true ->
        let s2 := run s [(now, FileSelect f); (started, PipelineStarted id2)] in
        let h2 := nextHandle (machine_of s) in
        intervals (machine_of s2) = [(h2, id2)]
        /\ (forall later,
              (later - started <= MAX_POLLING_TIME)%Z ->
              statusChecks (tickAll later s2) = id2 :: statusChecks s2)
        /\ (forall rest,
              forallb (ongoing h2 started) rest = true ->
              intervals (machine_of (run s2 rest)) = [(h2, id2)]
              /\ statusChecks (run s2 rest)
                 = repeat id2 (List.length (filter isTick rest))
                   ++ statusChecks s2)).
Proof.
  intros s. pose proof (onePoller_reachable trace) as Hinv.
  fold s in Hinv. clearbody s.
  pose proof Hinv as (Hn & Ht & Hu).
  split; [ | split; [ | split; [ | split; [ | split ] ] ] ].
  - destruct Ht as [ -> | (h & id & -> & _) ]; simpl; lia.
  - intros h id Hin. destruct Ht as [ Hi | (h' & id' & Hi & Hr & _) ];
      rewrite Hi in Hin; simpl in Hin; [ contradiction | ].
    destruct Hin as [ Heq | [] ]. inversion Heq; subst. assumption.
  - intros now f. destruct (mounted s) eqn:Hm.
    + apply (@step_FileSelect now f s Hm Ht).
    + simpl. rewrite Hm. unfold commit. rewrite Hm. simpl. auto.
  - intros now resp Hterm. simpl.
    destruct (pollTaskStatusResume_timers resp Ht) as (Hc & _).
    destruct (Hc Hterm) as (Hi & _ & Hm).
    apply commit_idle; [ assumption | ].
    intros Hm'. apply pollTaskStatusResume_taskId; congruence.
  - intros now. simpl. destruct (mounted s) eqn:Hm.
    + destruct (unmount_intervals Ht) as (Hi & _ & Hm').
      unfold commit. rewrite Hm'. simpl. assumption.
    + unfold commit. rewrite Hm. simpl. auto.
  - intros now f started id2 Hm Hne s2 h2.
    destruct (@step_FileSelect now f s Hm Ht) as (Hi1 & Hn1 & Hm1 & Hr1 & _).
    set (s1 := step s (now, FileSelect f)) in *.
    assert (Hid1 : taskId (react s1) = None) by (rewrite Hr1; reflexivity).
    destruct (@step_PipelineStarted started id2 s1 Hm1 Hid1 Hne Hi1)
      as (Hi2 & _ & Hst2 & _ & Hm2 & _).
    assert (Hs2 : step s1 (started, PipelineStarted id2) = s2)
      by reflexivity.
    rewrite Hs2 in Hi2, Hst2, Hm2. clear Hs2. clearbody s2.
    rewrite Hn1 in Hi2. fold h2 in Hi2.
    assert (Hon : pollingOn h2 id2 started s2) by (repeat split; assumption).
    split; [ exact Hi2 | ]. split.
    + intros later Hle. unfold tickAll. rewrite Hi2.
      change (statusChecks (step s2 (later, Tick h2))
              = id2 :: statusChecks s2).
      rewrite (@step_Tick_issue later h2 id2 s2); [ reflexivity | | ].
      * apply liveInterval_single. assumption.
      * unfold elapsed. rewrite Hst2. assumption.
    + intros rest Hrest.
      destruct (@run_ongoing h2 id2 started rest s2 Hon Hrest)
        as ((Hi3 & _) & Hq).
      split; assumption.
Qed.

(** A first job is polling when a second file is selected: its interval is
    cancelled at once, and after the second task id arrives each period of
    the timer issues one check, for the second task only. *)
Lemma at_most_one_polling_loop_witness :
  let first := [(0, FileSelect "a.csv"); (100, PipelineStarted "task-1");
                (5100, Tick 1)]%Z in
  let s := run initial first in
  let s2 := run s [(6000, FileSelect "b.csv");
                   (6200, PipelineStarted "task-2")]%Z in
  intervals (machine_of s) = [(1%nat, "task-1")]
  /\ intervals (machine_of (step s (6000%Z, FileSelect "b.csv"))) = []
  /\ intervals (machine_of s2) = [(2%nat, "task-2")]
  /\ statusChecks (tickAll 11200 s2) = "task-2" :: statusChecks s2
  /\ statusChecks
       (run s2 [(11200, Tick 2);
                (11300, StatusArrived (Resolved "processing" JNull ""));
                (16200, Tick 2); (21200, Tick 2)]%Z)
     = ["task-2"; "task-2"; "task-2"] ++ statusChecks s2.
Proof.
  intros first s s2.
  destruct (at_most_one_polling_loop first)
    as (_ & _ & Hselect & _ & _ & Hsecond).
  split; [ reflexivity | ].
  split; [ apply Hselect | ].
  destruct (Hsecond 6000%Z "b.csv" 6200%Z "task-2" eq_refl eq_refl)
    as (Hone & Hcheck & Hrest).
  split; [ exact Hone | ].
  split; [ apply Hcheck; vm_compute; discriminate | ].
  apply Hrest. reflexivity.
Defined.

(** Two uploads in quick succession, their task ids arriving afterwards:
    one interval is left, for the task that arrived last. *)
Example rapid_starts :
  let s := run initial
             [(0, FileSelect "a.csv"); (1, FileSelect "b.csv");
              (50, PipelineStarted "task-a"); (51, PipelineStarted "task-b");
              (5051, Tick 1); (5051, Tick 2)]%Z in
  intervals (machine_of s) = [(2%nat, "task-b")]
  /\ statusChecks s = ["task-b"; "task-b"; "task-a"].
Proof. split; reflexivity. Qed.

(** A status response that arrives when the provider is idle leaves it
    idle, and issues no call. *)
Lemma setState_keeps_mounted f s : mounted (setState f s) = mounted s.
Proof. unfold setState. destruct (mounted s) eqn:E; simpl; congruence. Qed.

Lemma setState_keeps_machine f s : machine_of (setState f s) = machine_of s.
Proof. unfold setState. destruct (mounted s); reflexivity. Qed.

Lemma idle_setState f s :
  (forall r, taskId (f r) = taskId r) ->
  idle s ->
  idle (setState f s)
  /\ mounted (setState f s) = mounted s
  /\ requests (machine_of (setState f s)) = requests (machine_of s).
Proof.
  intros Hf (Hi & Hid). unfold idle.
  rewrite setState_keeps_machine, setState_keeps_mounted.
  repeat split; [ assumption | ].
  intros Hm. rewrite setState_mounted by assumption. simpl.
  rewrite Hf. auto.
Qed.

Lemma idle_clearAndForget s :
  idle s ->
  idle (clearAndForget s)
  /\ mounted (clearAndForget s) = mounted s
  /\ requests (machine_of (clearAndForget s)) = requests (machine_of s).
Proof.
  intros (Hi & Hid).
  destruct (framed_clearAndForget s) as (Hr & Hm & _ & Hq & _).
  unfold idle. rewrite Hr, Hm, Hq.
  repeat split; [ | assumption ].
  apply clearAndForget_idle. assumption.
Qed.

Lemma idle_stop f g s :
  idle s ->
  let s' :=
    setState (set_taskId None) (setState f (setState g (clearAndForget s))) in
  idle s'
  /\ mounted s' = mounted s
  /\ requests (machine_of s') = requests (machine_of s).
Proof.
  intros Hidle. destruct (idle_clearAndForget Hidle) as ((Hi & _) & Hm & Hq).
  simpl. unfold idle.
  rewrite !setState_keeps_machine, !setState_keeps_mounted.
  repeat split; try assumption.
  intros Hm'. rewrite setState_mounted; [ reflexivity | ].
  rewrite !setState_keeps_mounted. assumption.
Qed.

Lemma idle_pollTaskStatusResume resp s :
  idle s ->
  idle (pollTaskStatusResume resp s)
  /\ mounted (pollTaskStatusResume resp s) = mounted s
  /\ requests (machine_of (pollTaskStatusResume resp s))
     = requests (machine_of s).
Proof.
  intros Hidle.
  destruct resp as [ st result err | message ];
    unfold pollTaskStatusResume, pollTaskStatusCatch.
  - destruct (@idle_setState (set_status (Some st)) s (fun r => eq_refl)
                Hidle) as (H1 & Hm1 & Hq1).
    rewrite <- Hm1, <- Hq1.
    destruct (st =? "done")%string.
    { destruct (debugLog result); [ apply idle_stop; assumption | ].
      destruct (idle_clearAndForget H1) as (H2 & Hm2 & Hq2).
      rewrite <- Hm2, <- Hq2. apply idle_stop. assumption. }
    destruct (st =? "failed")%string; [ apply idle_stop; assumption | ].
    auto.
  - apply idle_stop. assumption.
Qed.

Lemma step_idle_StatusArrived now resp s :
  idle s ->
  idle (step s (now, StatusArrived resp))
  /\ statusChecks (step s (now, StatusArrived resp)) = statusChecks s.
Proof.
  intros Hidle.
  destruct (idle_pollTaskStatusResume resp Hidle) as (H' & Hm & Hq).
  assert (Hstep : step s (now, StatusArrived resp)
                  = pollTaskStatusResume resp s).
  { unfold step, handle, commit.
    destruct (mounted (pollTaskStatusResume resp s)) eqn:E;
      [ | reflexivity ].
    destruct Hidle as (_ & Hid). destruct H' as (_ & Hid').
    rewrite Hid by congruence. rewrite Hid' by assumption.
    reflexivity. }
  rewrite Hstep. split; [ assumption | ].
  unfold statusChecks. rewrite Hq. reflexivity.
Qed.

(** Once idle, the provider issues no status check until a task id
    arrives. *)
Lemma step_idle s te :
  idle s -> notStart te = true ->
  idle (step s te) /\ statusChecks (step s te) = statusChecks s.
Proof.
  destruct te as [ now e ].
  destruct e as [ f | task_id | message | h | resp | u | ];
    [ | | | | intros Hidle _; apply step_idle_StatusArrived; exact Hidle
    | | ];
    destruct s as [ r [ ref start ivs next reqs ] mt cl ];
    unfold idle, notStart; simpl; intros (-> & Hid) Hns;
    try discriminate;
    assert (Hr : mt = true -> taskId_eqb (taskId r) None = true)
      by (intros Hm; rewrite (Hid Hm); reflexivity);
    unfold commit, statusChecks; simpl.
  - destruct mt; simpl; [ | auto ].
    rewrite (Hid eq_refl). simpl.
    unfold handleFileSelect, setState, clearAndForget, clearInterval. simpl.
    destruct ref as [ [ | h ] | ]; simpl; auto.
  - unfold setState. simpl. destruct mt; simpl; [ | auto ].
    rewrite (Hid eq_refl). simpl. auto.
  - rewrite taskId_eqb_refl, andb_false_r. auto.
  - unfold setState. simpl. destruct mt; simpl; [ | auto ].
    destruct u; simpl; rewrite (Hid eq_refl); simpl; auto.
  - destruct mt; simpl; [ | auto ].
    unfold unmount, clearIfSet, clearAndForget, clearInterval. simpl.
    destruct ref as [ [ | h ] | ]; simpl; destruct cl; simpl;
      split; auto; split; auto; discriminate.
Qed.

Lemma run_idle trace :
  forall s,
    idle s -> forallb notStart trace = true ->
    statusChecks (run s trace) = statusChecks s.
Proof.
  unfold run. induction trace as [ | te trace IH ]; intros s Hi Hall; simpl.
  - reflexivity.
  - simpl in Hall. apply andb_prop in Hall. destruct Hall as [ Hte Hall ].
    destruct (@step_idle s te Hi Hte) as (Hi' & Hq).
    rewrite IH by assumption. assumption.
Qed.

(** C3, as the claim states it, fails at the ceiling itself: a tick exactly
    thirty minutes after polling started is not a timeout, it issues one
    more status check and leaves the interval alive. *)
Lemma no_timeout_at_the_ceiling :
  let s := run initial
             [(0, FileSelect "a.csv"); (0, PipelineStarted "task-1")]%Z in
  let s' := step s (MAX_POLLING_TIME, Tick 1) in
  MAX_POLLING_TIME = (360 * POLLING_INTERVAL)%Z
  /\ elapsed MAX_POLLING_TIME s = (30 * 60 * 1000)%Z
  /\ error (react s') = None
  /\ taskId (react s') = Some "task-1"
  /\ intervals (machine_of s') = [(1%nat, "task-1")]
  /\ statusChecks s' = "task-1" :: statusChecks s.
Proof. repeat split. Qed.

(** C3, amended. On every tick of the polling interval the elapsed time is
    compared with the ceiling first.  On the first tick at which more than
    thirty minutes have passed since polling started, the interval is
    cancelled, the timeout message becomes the error, the task id is
    cleared, that tick issues no status check, and no later event issues
    one (a firing of a timer, a late response, an action of the user)
    until the task id of a new job arrives.  On a tick at which the ceiling
    is not passed, one status check is issued and the interval stays
    alive. *)
Theorem timeout_on_first_tick_past_ceiling
  (trace : list (Z * event)) (h : nat) (id : string) (now : Z) :
  let s := run initial trace in
  liveInterval h s = Some (h, id) ->
  let s' := step s (now, Tick h) in
  ((MAX_POLLING_TIME < elapsed now s)%Z ->
     intervals (machine_of s') = []
     /\ error (react s') = Some TIMEOUT_MESSAGE
     /\ loading (react s') = false
     /\ taskId (react s') = None
     /\ statusChecks s' = statusChecks s
     /\ (forall firings,
           statusChecks (run s' (ticks firings)) = statusChecks s)
     /\ (forall rest,
           forallb notStart rest = true ->
           statusChecks (run s' rest) = statusChecks s))
  /\ ((elapsed now s <= MAX_POLLING_TIME)%Z ->
      statusChecks s' = id :: statusChecks s
      /\ intervals (machine_of s') = [(h, id)]
      /\ error (react s') = error (react s)
      /\ taskId (react s') = taskId (react s)).
Proof.
  intros s Hlive s'. pose proof (onePoller_reachable trace) as Hinv.
  fold s in Hinv. clearbody s.
  destruct (liveInterval_tracked Hinv Hlive) as (Hi & Hm).
  split.
  - intros Hlt.
    destruct (@step_Tick_times_out now h id s Hinv Hlive Hlt)
      as (Hi' & He & Hl & Hid & Hq).
    fold s' in Hi', He, Hl, Hid, Hq.
    assert (Hsame : statusChecks s' = statusChecks s).
    { unfold statusChecks. rewrite Hq. reflexivity. }
    repeat (split; [ assumption | ]).
    split.
    + intros firings. rewrite run_ticks_idle by assumption. assumption.
    + intros rest Hrest. rewrite run_idle; [ assumption | | assumption ].
      split; [ assumption | intros _; assumption ].
  - intros Hle.
    destruct (@step_Tick_polls now h id s Hlive Hle) as (Hq & Hi' & Hr).
    fold s' in Hq, Hi', Hr.
    split; [ unfold statusChecks; rewrite Hq; reflexivity | ].
    split; [ congruence | ].
    rewrite Hr. split; reflexivity.
Qed.

Lemma timeout_on_first_tick_past_ceiling_witness :
  let trace := [(0, FileSelect "a.csv"); (0, PipelineStarted "task-1");
                (5000, Tick 1); (MAX_POLLING_TIME, Tick 1)]%Z in
  let s := run initial trace in
  let s' := step s ((MAX_POLLING_TIME + 5000)%Z, Tick 1) in
  liveInterval 1 s = Some (1%nat, "task-1")
  /\ intervals (machine_of s') = []
  /\ error (react s') = Some TIMEOUT_MESSAGE
  /\ statusChecks s' = statusChecks s
  /\ statusChecks
       (run s' (ticks [((MAX_POLLING_TIME + 10000)%Z, 1%nat);
                       ((MAX_POLLING_TIME + 15000)%Z, 1%nat)]))
     = statusChecks s.
Proof.
  intros trace s s'.
  destruct (@timeout_on_first_tick_past_ceiling trace 1%nat "task-1"
              (MAX_POLLING_TIME + 5000)%Z eq_refl) as (Hout & _).
  destruct Hout as (Hi & He & _ & _ & Hq & Hlater & _).
  { vm_compute. reflexivity. }
  split; [ reflexivity | ].
  split; [ exact Hi | ].
  split; [ exact He | ].
  split; [ exact Hq | ].
  apply Hlater.
Defined.

(** C6, as the claim states it, fails for the sort key: an upload keeps the
    sort key the user chose instead of returning it to its initial value. *)
Lemma upload_keeps_sort_key :
  let s := run initial [(0%Z, Ui (SetSortType "id-asc"))] in
  let s' := step s (1%Z, FileSelect "a.csv") in
  View.sortType (query (react initial)) = "probability-desc"
  /\ View.sortType (query (react s)) = "id-asc"
  /\ View.sortType (query (react s')) = "id-asc"
  /\ View.sortType (query (react s')) <> "probability-desc".
Proof. repeat split. discriminate. Qed.

(** C6, amended. An upload clears the error, the tier filter, the search
    text, the three category filters and the expanded id, whatever they
    were, and keeps the sort key; this is done when the upload request is
    issued, before any task id exists and before any status check. *)
Theorem upload_starts_from_clean_slate (s : state) (now : Z) (f : string) :
  mounted s = true ->
  let s' := step s (now, FileSelect f) in
  error (react s') = None
  /\ View.activeFilter (query (react s')) = "all"
  /\ View.searchQuery (query (react s')) = ""
  /\ View.planTypeFilter (query (react s')) = ""
  /\ View.contractTypeFilter (query (react s')) = ""
  /\ View.regionFilter (query (react s')) = ""
  /\ expandedCardId (react s') = JNull
  /\ View.sortType (query (react s')) = View.sortType (query (react s))
  /\ taskId (react s') = None
  /\ requests (machine_of s') = Upload f :: requests (machine_of s)
  /\ statusChecks s' = statusChecks s.
Proof.
  intros Hm s'.
  destruct (@step_FileSelect_react now f s Hm) as (Hr & Hq).
  fold s' in Hr, Hq. unfold statusChecks. rewrite Hr, Hq.
  repeat split.
Qed.

Lemma upload_starts_from_clean_slate_witness :
  let s := run initial
             [(0, FileSelect "a.csv"); (10, PipelineStarted "task-1");
              (20, StatusArrived (Resolved "failed" JNull "bad file"));
              (30, Ui (SetActiveFilter "critical"));
              (31, Ui (SetSearchQuery "77"));
              (32, Ui (SetSortType "id-asc"));
              (33, Ui (SetContractTypeFilter "One year"));
              (34, Ui (SetExpandedCardId (JStr "customer-77")))]%Z in
  let s' := step s (40%Z, FileSelect "b.csv") in
  (error (react s) = Some "bad file"
   /\ View.activeFilter (query (react s)) = "critical"
   /\ expandedCardId (react s) = JStr "customer-77")
  /\ error (react s') = None
  /\ View.activeFilter (query (react s')) = "all"
  /\ View.searchQuery (query (react s')) = ""
  /\ View.planTypeFilter (query (react s')) = ""
  /\ View.contractTypeFilter (query (react s')) = ""
  /\ View.regionFilter (query (react s')) = ""
  /\ expandedCardId (react s') = JNull
  /\ View.sortType (query (react s')) = View.sortType (query (react s))
  /\ taskId (react s') = None
  /\ requests (machine_of s') = Upload "b.csv" :: requests (machine_of s)
  /\ statusChecks s' = statusChecks s.
Proof.
  intros s s'.
  split; [ repeat split | ].
  apply (@upload_starts_from_clean_slate s 40%Z "b.csv").
  reflexivity.
Defined.

End AppFacts.

(* ===================================================================== *)
(** ** More on the normalizer: accepted payloads, positions, ids *)
(* ===================================================================== *)

Module NormalizeExtra.

Import Payload.

Lemma get_returns (v : jsval) (k : string) :
  nullish v = false -> get v k = Ok (get_opt v k).
Proof.
  unfold get_opt. destruct v; simpl; try discriminate; intros _;
    try reflexivity.
  - destruct (index_of_key k); [ reflexivity | ].
    destruct (k =? "length"); reflexivity.
  - destruct (index_of_key k); [ reflexivity | ].
    destruct (k =? "length"); reflexivity.
Qed.

Lemma get_throws (v : jsval) (k : string) :
  nullish v = true -> get v k = Throw TypeError.
Proof. destruct v; simpl; try discriminate; reflexivity. Qed.

Lemma get_index_itemAt (v : jsval) (i : nat) :
  nullish v = false -> get_index v i = Ok (itemAt v i).
Proof. destruct v; simpl; try discriminate; reflexivity. Qed.

Lemma get_index_throws (v : jsval) (i : nat) :
  nullish v = true -> get_index v i = Throw TypeError.
Proof. destruct v; simpl; try discriminate; reflexivity. Qed.

Lemma js_or_object (v : jsval) : nullish (js_or v (JObj [])) = false.
Proof.
  unfold js_or. destruct (truthy v) eqn:H; [ | reflexivity ].
  destruct v; simpl in *; congruence.
Qed.

Lemma itemAt_withDefault (v : jsval) (i : nat) :
  itemAt (withDefault v (JArr [])) i = itemAt v i.
Proof. destruct v; simpl; try reflexivity. destruct i; reflexivity. Qed.

Lemma nullish_withDefault (v dflt : jsval) :
  nullish dflt = false -> nullish (withDefault v dflt) = isNull v.
Proof. destruct v; simpl; auto. Qed.

Lemma mapi_from_nth (A B : Type) (f : A -> nat -> result B) (l : list A) :
  forall k out i x,
    mapi_from f k l = Ok out ->
    nth_error l i = Some x ->
    exists y, nth_error out i = Some y /\ f x (k + i)%nat = Ok y.
Proof.
  induction l as [ | a l IH ]; intros k out i x H Hi.
  - destruct i; discriminate.
  - simpl in H. unfold bind in H.
    destruct (f a k) as [ y | ] eqn:Ha; [ | discriminate ].
    destruct (mapi_from f (S k) l) as [ ys | ] eqn:Hl; [ | discriminate ].
    inversion H; subst out. destruct i as [ | i ]; simpl in Hi.
    + inversion Hi; subst a. exists y. rewrite Nat.add_0_r. auto.
    + destruct (IH _ _ _ _ Hl Hi) as (z & Hz & Hf).
      exists z. split; [ assumption | ].
      rewrite <- Nat.add_succ_comm. assumption.
Qed.

Lemma mapi_from_returns (A B : Type) (f : A -> nat -> result B) (l : list A) :
  (forall x i, In x l -> exists y, f x i = Ok y) ->
  forall k, exists out, mapi_from f k l = Ok out.
Proof.
  induction l as [ | a l IH ]; intros H k; simpl; [ eauto | ].
  destruct (H a k (or_introl eq_refl)) as [ y -> ].
  destruct (IH (fun x i Hx => H x i (or_intror Hx)) (S k)) as [ ys -> ].
  simpl. eauto.
Qed.

Lemma mapi_from_throws (A B : Type) (f : A -> nat -> result B) (l : list A)
  (x : A) :
  In x l -> (forall i, f x i = Throw TypeError) ->
  forall k, mapi_from f k l = Throw TypeError.
Proof.
  intros Hx Hf. induction l as [ | a l IH ]; intros k; [ contradiction | ].
  simpl. destruct (f a k) as [ y | [] ] eqn:Ha; [ | reflexivity ].
  destruct Hx as [ -> | Hx ]; [ congruence | ].
  simpl. rewrite (IH Hx). reflexivity.
Qed.

Section Host.

Variable parseFloat : jsval -> option Q.
Variable ToString : jsval -> string.

(** On a payload with properties the four collections are read with
    their defaults. *)
Lemma normalizeCustomerData_unfold (payload : jsval) :
  nullish payload = false ->
  normalizeCustomerData parseFloat ToString payload
  = match withDefault (get_opt payload "customer_churn") (JArr []) with
    | JArr entries =>
        mapi_from
          (normalizeEntry parseFloat ToString
             (withDefault (get_opt payload "customer_reasons") (JArr []))
             (withDefault (get_opt payload "retention_strategies") (JArr []))
             (withDefault (get_opt payload "customer_insights") (JObj [])))
          0 entries
    | _ => Throw TypeError
    end.
Proof.
  intros H. unfold normalizeCustomerData,
    destructure.
  rewrite !(fun k => @get_returns payload k H). reflexivity.
Qed.

(** The callback returns the entity of the entry and its position when the
    entry and the three collections have properties. *)
Lemma normalizeEntry_returns (payload c : jsval) (index : nat) :
  nullish c = false ->
  isNull (get_opt payload "customer_reasons") = false ->
  isNull (get_opt payload "retention_strategies") = false ->
  isNull (get_opt payload "customer_insights") = false ->
  normalizeEntry parseFloat ToString
    (withDefault (get_opt payload "customer_reasons") (JArr []))
    (withDefault (get_opt payload "retention_strategies") (JArr []))
    (withDefault (get_opt payload "customer_insights") (JObj []))
    c index
  = Ok (entityOf parseFloat ToString payload c index).
Proof.
  intros Hc Hr Hs Hi.
  unfold normalizeEntry, entityOf,
    insightsFor.
  rewrite !(fun k => @get_returns c k Hc). simpl bind.
  rewrite get_returns by (rewrite nullish_withDefault; auto).
  simpl bind.
  rewrite !(fun v k => @get_returns (js_or v (JObj [])) k (js_or_object v)). simpl bind.
  rewrite !(fun v k => @get_returns (js_or v (JObj [])) k (js_or_object v)). simpl bind.
  rewrite !get_index_itemAt by (rewrite nullish_withDefault; auto).
  simpl bind. rewrite !itemAt_withDefault. reflexivity.
Qed.

(** It raises on a null or undefined entry, and when one of the three
    collections is null. *)
Lemma normalizeEntry_throws (payload c : jsval) (index : nat) :
  nullish c
  || isNull (get_opt payload "customer_reasons")
  || isNull (get_opt payload "retention_strategies")
  || isNull (get_opt payload "customer_insights") = true ->
  normalizeEntry parseFloat ToString
    (withDefault (get_opt payload "customer_reasons") (JArr []))
    (withDefault (get_opt payload "retention_strategies") (JArr []))
    (withDefault (get_opt payload "customer_insights") (JObj []))
    c index
  = Throw TypeError.
Proof.
  intros H. unfold normalizeEntry.
  destruct (nullish c) eqn:Hc.
  { rewrite (@get_throws c _ Hc). reflexivity. }
  rewrite !(fun k => @get_returns c k Hc). simpl bind.
  destruct (isNull (get_opt payload "customer_insights")) eqn:Hi.
  { rewrite get_throws by (rewrite nullish_withDefault; auto). reflexivity. }
  rewrite get_returns by (rewrite nullish_withDefault; auto).
  simpl bind.
  rewrite !(fun v k => @get_returns (js_or v (JObj [])) k (js_or_object v)). simpl bind.
  rewrite !(fun v k => @get_returns (js_or v (JObj [])) k (js_or_object v)). simpl bind.
  destruct (isNull (get_opt payload "customer_reasons")) eqn:Hr.
  { rewrite get_index_throws by (rewrite nullish_withDefault; auto).
    reflexivity. }
  rewrite get_index_itemAt by (rewrite nullish_withDefault; auto).
  simpl bind.
  destruct (isNull (get_opt payload "retention_strategies")) eqn:Hs;
    [ | discriminate ].
  rewrite get_index_throws by (rewrite nullish_withDefault; auto).
  reflexivity.
Qed.

(** [normalizeCustomerData] returns on the accepted payloads and raises on
    the others. *)
Lemma normalizeCustomerData_cases (payload : jsval) :
  match normalizeCustomerData parseFloat ToString payload with
  | Ok out =>
      accepted payload = true
      /\ List.length out = List.length (entriesOf payload)
  | Throw e => accepted payload = false /\ e = TypeError
  end.
Proof.
  destruct (nullish payload) eqn:Hp.
  { unfold normalizeCustomerData,
      destructure.
    rewrite (@get_throws payload _ Hp). simpl. unfold accepted. rewrite Hp. auto. }
  rewrite (@normalizeCustomerData_unfold payload Hp).
  unfold accepted, entriesOf. rewrite Hp. simpl negb. simpl andb.
  destruct (get_opt payload "customer_churn") as [ | | | | | entries | ]
    eqn:Hcc; simpl withDefault; simpl; auto.
  destruct entries as [ | c entries ]; [ simpl; auto | ].
  set (l := c :: entries).
  destruct (forallb (fun c => negb (nullish c)) l) eqn:Hall.
  - destruct (isNull (get_opt payload "customer_reasons")) eqn:Hr.
    { rewrite (@mapi_from_throws _ _ _ l c); [ auto | left; reflexivity | ].
      intros i. apply normalizeEntry_throws. rewrite Hr.
      rewrite orb_true_r. reflexivity. }
    destruct (isNull (get_opt payload "retention_strategies")) eqn:Hs.
    { rewrite (@mapi_from_throws _ _ _ l c); [ auto | left; reflexivity | ].
      intros i. apply normalizeEntry_throws. rewrite Hs.
      rewrite !orb_true_r. reflexivity. }
    destruct (isNull (get_opt payload "customer_insights")) eqn:Hi.
    { rewrite (@mapi_from_throws _ _ _ l c); [ auto | left; reflexivity | ].
      intros i. apply normalizeEntry_throws. rewrite Hi.
      rewrite !orb_true_r. reflexivity. }
    destruct (@mapi_from_returns _ _
                (normalizeEntry parseFloat ToString
                   (withDefault (get_opt payload "customer_reasons") (JArr []))
                   (withDefault (get_opt payload "retention_strategies")
                      (JArr []))
                   (withDefault (get_opt payload "customer_insights")
                      (JObj [])))
                l) with (k := 0%nat) as [ out Hout ].
    { intros x i Hx. eexists. apply normalizeEntry_returns; auto.
      rewrite forallb_forall in Hall. apply Hall in Hx.
      destruct (nullish x); [ discriminate | reflexivity ]. }
    rewrite Hout. split; [ reflexivity | ].
    eapply NormalizeFacts.mapi_from_length. eassumption.
  - assert (Hex : exists x, In x l /\ nullish x = true).
    { clear - Hall. induction l as [ | a l IH ]; [ discriminate | ].
      simpl in Hall. destruct (nullish a) eqn:Ha.
      - exists a. split; [ left; reflexivity | assumption ].
      - destruct (IH Hall) as (x & Hx & Hn). exists x. split; [ right | ]; auto. }
    destruct Hex as (x & Hx & Hn).
    rewrite (@mapi_from_throws _ _ _ l x); [ auto | assumption | ].
    intros i. apply normalizeEntry_throws. rewrite Hn. reflexivity.
Qed.

(** X1. [normalizeCustomerData] returns exactly on the accepted payloads:
    those that are neither null nor undefined, whose entity-scores
    collection is absent or an array, and for which, when that array is not
    empty, no entry is null or undefined and none of the reasons,
    strategies and insights collections is null.  On every other payload
    it raises a TypeError.  When it returns, it returns one entity per
    entry.  The effect of the state container that calls it stores one
    entity per entry of the entity-scores array (none when there is no
    such array), and raises exactly when that array has entries and the
    payload is not accepted: its guard does not cover a null entry or a
    null collection. *)
Theorem normalize_returns_exactly_when_accepted (payload : jsval) :
  match normalizeCustomerData parseFloat ToString payload with
  | Ok out =>
      accepted payload = true
      /\ List.length out = List.length (entriesOf payload)
  | Throw e => accepted payload = false /\ e = TypeError
  end
  /\ match normalizeResults parseFloat ToString payload with
     | Ok out =>
         List.length out = List.length (entriesOf payload)
         /\ (entriesOf payload = [] \/ accepted payload = true)
     | Throw e =>
         e = TypeError /\ entriesOf payload <> []
         /\ accepted payload = false
     end.
Proof.
  split; [ apply normalizeCustomerData_cases | ].
  pose proof (normalizeCustomerData_cases payload) as Hcases.
  unfold normalizeResults.
  destruct (truthy payload) eqn:Ht.
  - assert (Hp : nullish payload = false)
      by (destruct payload; simpl in *; congruence).
    rewrite (@get_returns payload "customer_churn" Hp). simpl bind.
    unfold entriesOf in *.
    destruct (get_opt payload "customer_churn") as [ | | | | | entries | ]
      eqn:Hcc; simpl;
      try (split; [ reflexivity | left; reflexivity ]).
    + destruct b; simpl; split; auto.
    + destruct (negb (Qeq_bool n 0)); simpl; split; auto.
    + destruct (negb (s =? "")); simpl; split; auto.
    + destruct (normalizeCustomerData parseFloat ToString payload)
        as [ out | e ].
      * destruct Hcases as [ Hacc Hlen ]. split; [ assumption | ].
        right. assumption.
      * destruct Hcases as [ Hacc He ]. split; [ assumption | ].
        split; [ | assumption ].
        intros Hnil. subst entries. unfold accepted in Hacc.
        rewrite Hp, Hcc in Hacc. discriminate.
  - assert (Hnone : entriesOf payload = []).
    { destruct payload as [ | | b | n | s | | ]; simpl in Ht;
        try discriminate; reflexivity. }
    simpl. rewrite Hnone. split; [ reflexivity | left; reflexivity ].
Qed.

Lemma normalize_returns_length (payload : jsval) (out : list customer) :
  normalizeCustomerData parseFloat ToString payload = Ok out ->
  List.length out = List.length (entriesOf payload).
Proof.
  intros H. unfold entriesOf.
  destruct (NormalizeFacts.normalizeCustomerData_entries _ _ _ H)
    as (entries & r & s & i & Hraw & Hmap).
  apply NormalizeFacts.mapi_from_length in Hmap. rewrite Hmap.
  unfold rawScores in Hraw.
  destruct (get_opt payload "customer_churn");
    try (destruct entries; [ reflexivity | discriminate ]).
  apply (f_equal (@List.length _)) in Hraw. rewrite !length_map in Hraw.
  congruence.
Qed.

(** When it returns, the entity at a position is the one built from the
    entry at that position. *)
Lemma normalizeCustomerData_nth (payload : jsval) (out : list customer)
  (i : nat) (c : jsval) :
  normalizeCustomerData parseFloat ToString payload = Ok out ->
  nth_error (entriesOf payload) i = Some c ->
  nth_error out i = Some (entityOf parseFloat ToString payload c i).
Proof.
  intros H Hi.
  destruct (nullish payload) eqn:Hp.
  { unfold normalizeCustomerData, destructure in H.
    rewrite (@get_throws payload _ Hp) in H. discriminate. }
  rewrite (@normalizeCustomerData_unfold payload Hp) in H.
  unfold entriesOf in Hi.
  destruct (get_opt payload "customer_churn") as [ | | | | | entries | ];
    try (destruct i; discriminate).
  simpl withDefault in H.
  destruct (mapi_from_nth _ _ _ _ H Hi) as (y & Hy & Hf).
  rewrite Hy. f_equal. simpl in Hf.
  destruct (nullish c
            || isNull (get_opt payload "customer_reasons")
            || isNull (get_opt payload "retention_strategies")
            || isNull (get_opt payload "customer_insights")) eqn:Hbad.
  { rewrite (@normalizeEntry_throws payload c i Hbad) in Hf. discriminate. }
  apply orb_false_elim in Hbad. destruct Hbad as [Hbad Hins].
  apply orb_false_elim in Hbad. destruct Hbad as [Hbad Hs].
  apply orb_false_elim in Hbad. destruct Hbad as [Hc Hr].
  rewrite (@normalizeEntry_returns payload c i Hc Hr Hs Hins) in Hf.
  congruence.
Qed.

(** X2. When [normalizeCustomerData] returns, the entity at position [i] is
    built from the entry at position [i]: its id is the id of the entry
    when that is truthy and "customer-" followed by [i + 1] otherwise; its
    reason and its strategy are the items at position [i] of the reasons
    and strategies collections, the empty string when the item is missing
    or falsy; and its feature values and SHAP values are those recorded in
    the insights collection under the id of the entity, not under its
    position. *)
Theorem entity_follows_entry_position (payload : jsval)
  (out : list customer) (i : nat) (c : jsval) :
  normalizeCustomerData parseFloat ToString payload = Ok out ->
  nth_error (entriesOf payload) i = Some c ->
  exists e,
    nth_error out i = Some e
    /\ id e = js_or (get_opt c "id")
                    (JStr ("customer-" ++ string_of_nat (i + 1)))
    /\ reason e
       = js_or (itemAt (get_opt payload "customer_reasons") i) (JStr "")
    /\ strategy e
       = js_or (itemAt (get_opt payload "retention_strategies") i) (JStr "")
    /\ feature_values e
       = js_or (get_opt (insightsFor ToString payload (id e))
                        "feature_values") (JObj [])
    /\ shap_feature_values e
       = js_or (get_opt (insightsFor ToString payload (id e))
                        "shap_feature_values") (JObj []).
Proof.
  intros H Hi. eexists. split.
  - apply normalizeCustomerData_nth; eassumption.
  - repeat split; reflexivity.
Qed.



End Host.


(** The scores next to the two thresholds.  The raw scores are the binary64
    numbers 0.39999999999999997 and 0.7000000000000001; a hundred times the
    first is below 40 and a hundred times the second is above 70, the
    products the program stores are 40 and 70, and both tiers are medium. *)
Example scores_next_to_the_thresholds :
  map (fun e => (churn_probability e, risk_level e))
      (Samples.entitiesOf
         (ExampleHost.payload
            [JNum (7205759403792793 # 18014398509481984);
             JNum (6305039478318695 # 9007199254740992)]))
  = [(40, medium); (70, medium)]
  /\ 100 * (7205759403792793 # 18014398509481984) < 40
  /\ 70 < 100 * (6305039478318695 # 9007199254740992).
Proof.
  split; [ vm_compute; reflexivity | ].
  split; reflexivity.
Qed.

Lemma entity_follows_entry_position_witness :
  exists e,
    nth_error (Samples.entitiesOf Samples.richPayload) 1 = Some e
    /\ id e = js_or (get_opt (JObj [("churn_probability", JStr "0.5")]) "id")
                    (JStr ("customer-" ++ string_of_nat (1 + 1)))
    /\ reason e
       = js_or (itemAt (get_opt Samples.richPayload "customer_reasons") 1)
               (JStr "")
    /\ strategy e
       = js_or (itemAt (get_opt Samples.richPayload "retention_strategies") 1)
               (JStr "")
    /\ feature_values e
       = js_or (get_opt (insightsFor ExampleHost.ToString Samples.richPayload
                           (id e))
                        "feature_values") (JObj [])
    /\ shap_feature_values e
       = js_or (get_opt (insightsFor ExampleHost.ToString Samples.richPayload
                           (id e))
                        "shap_feature_values") (JObj []).
Proof.
  apply (@entity_follows_entry_position ExampleHost.parseFloat
           ExampleHost.ToString Samples.richPayload
           (Samples.entitiesOf Samples.richPayload) 1
           (JObj [("churn_probability", JStr "0.5")])).
  - reflexivity.
  - reflexivity.
Defined.

(** The second entity of the sample: a synthesized id, no reason, the
    second strategy, no insights. *)
Example second_entity_of_the_sample :
  map (fun e => (id e, reason e, strategy e, feature_values e))
      (Samples.entitiesOf Samples.richPayload)
  = [(JStr "A-7", JStr "price", JStr "discount",
      JObj [("Contract", JStr "Month-to-month")]);
     (JStr "customer-2", JStr "", JStr "call", JObj []);
     (JStr "customer-3", JStr "", JStr "", JObj [])].
Proof. reflexivity. Qed.

Lemma to_uint_not_Nil (n : nat) : Nat.to_uint n <> Decimal.Nil.
Proof.
  intros H. assert (Hn : n = 0%nat).
  { rewrite <- (DecimalNat.Unsigned.of_to n), H. reflexivity. }
  subst n. discriminate.
Qed.

Lemma string_of_nat_inj (a b : nat) :
  string_of_nat a = string_of_nat b -> a = b.
Proof.
  unfold string_of_nat. intros H.
  apply (f_equal NilZero.uint_of_string) in H.
  rewrite !NilZero.usu in H by apply to_uint_not_Nil.
  inversion H. apply DecimalNat.Unsigned.to_uint_inj. assumption.
Qed.

(** The id synthesized for position [n], counted from one. *)
Lemma synthesized_distinct (a b : nat) :
  strict_equal (JStr ("customer-" ++ string_of_nat a))
               (JStr ("customer-" ++ string_of_nat b)) = true ->
  a = b.
Proof.
  simpl. intros H. apply String.eqb_eq in H.
  apply string_of_nat_inj. congruence.
Qed.

Lemma distinctIds_synthesized (l : list customer) :
  forall k,
    map id l
    = map (fun n => JStr ("customer-" ++ string_of_nat n))
          (seq k (List.length l)) ->
    GridLayout.distinctIds l = true.
Proof.
  induction l as [ | c l IH ]; intros k H; [ reflexivity | ].
  simpl in H. inversion H as [ [Hc Hl] ]. simpl.
  rewrite (IH _ Hl), andb_true_r. apply negb_true_iff.
  destruct (existsb _ l) eqn:Hex; [ | reflexivity ]. exfalso.
  apply existsb_exists in Hex. destruct Hex as (d & Hd & Heq).
  apply (in_map id) in Hd. rewrite Hl in Hd.
  apply in_map_iff in Hd. destruct Hd as (m & Hm & Hin).
  rewrite Hc, <- Hm in Heq. apply synthesized_distinct in Heq.
  apply in_seq in Hin. lia.
Qed.

Section Ids.

Variable parseFloat : jsval -> option Q.
Variable ToString : jsval -> string.

(** X3. When no entry of the payload carries a truthy id, the ids of the
    entities returned are "customer-1", "customer-2", ... in order, and
    they are pairwise distinct. *)
Theorem synthesized_ids_number_the_entries (payload : jsval)
  (out : list customer) :
  withoutIds payload = true ->
  normalizeCustomerData parseFloat ToString payload = Ok out ->
  map id out
  = map (fun n => JStr ("customer-" ++ string_of_nat n))
        (seq 1 (List.length out))
  /\ GridLayout.distinctIds out = true.
Proof.
  intros Hno H.
  assert (Hids : map id out
                 = map (fun n => JStr ("customer-" ++ string_of_nat n))
                       (seq 1 (List.length out))).
  { pose proof (normalize_returns_length parseFloat ToString payload H)
      as Hlen.
    apply nth_error_ext. intros i.
    rewrite !nth_error_map, nth_error_seq.
    destruct (nth_error (entriesOf payload) i) as [ c | ] eqn:Hc.
    - rewrite (normalizeCustomerData_nth _ _ _ _ H Hc).
      assert (Hi : (i < List.length out)%nat).
      { rewrite Hlen. apply nth_error_Some. congruence. }
      apply Nat.ltb_lt in Hi. rewrite Hi. simpl. f_equal.
      unfold withoutIds in Hno. rewrite forallb_forall in Hno.
      apply nth_error_In in Hc. apply Hno in Hc.
      unfold js_or. destruct (truthy (get_opt c "id")); [ discriminate | ].
      rewrite Nat.add_comm. reflexivity.
    - apply nth_error_None in Hc.
      assert (Hi : (i <? List.length out)%nat = false)
        by (apply Nat.ltb_ge; lia).
      rewrite Hi.
      assert (Ho : nth_error out i = None) by (apply nth_error_None; lia).
      rewrite Ho. reflexivity. }
  split; [ exact Hids | ].
  eapply distinctIds_synthesized. exact Hids.
Qed.

End Ids.

Lemma synthesized_ids_number_the_entries_witness :
  map id (Samples.entitiesOf Samples.plainPayload)
  = map (fun n => JStr ("customer-" ++ string_of_nat n))
        (seq 1 (List.length (Samples.entitiesOf Samples.plainPayload)))
  /\ GridLayout.distinctIds (Samples.entitiesOf Samples.plainPayload) = true.
Proof.
  apply (@synthesized_ids_number_the_entries ExampleHost.parseFloat
           ExampleHost.ToString Samples.plainPayload).
  - reflexivity.
  - reflexivity.
Defined.

End NormalizeExtra.

(* ===================================================================== *)
(** ** Key figures, card labels and tier filters *)
(* ===================================================================== *)

Module KpiFacts.

Import Kpi.

Local Open Scope Q_scope.

(** The entities the normalizer returns carry the tier of their score. *)
Lemma normalized_consistent parseFloat ToString (payload : jsval)
  (out : list customer) :
  normalizeCustomerData parseFloat ToString payload = Ok out ->
  Forall (fun c => consistent c = true) out.
Proof.
  intros H.
  destruct (NormalizeFacts.normalizeCustomerData_entries _ _ _ H)
    as (entries & r & s & i & _ & Hmap).
  apply NormalizeFacts.mapi_from_Forall2 in Hmap. clear H.
  induction Hmap as [ | x y l l' [j Hj] _ IH ]; [ constructor | ].
  constructor; [ | exact IH ].
  apply NormalizeFacts.normalizeEntry_score in Hj. destruct Hj as [_ Ht].
  unfold consistent. rewrite Ht.
  destruct (calculateRiskLevel (churn_probability y)); reflexivity.
Qed.

(** A consistent entity falls in exactly one of the four buckets. *)
Lemma one_bucket (c : customer) :
  consistent c = true ->
  (Nat.b2n (risk_eqb (risk_level c) high && Qle_bool 90 (churn_probability c))
   + Nat.b2n (risk_eqb (risk_level c) high
              && Qle_bool 70 (churn_probability c)
              && Qlt_bool (churn_probability c) 90)
   + Nat.b2n (risk_eqb (risk_level c) medium)
   + Nat.b2n (risk_eqb (risk_level c) low) = 1)%nat.
Proof.
  unfold consistent. intros H.
  destruct (risk_level c) eqn:Hr; simpl; try reflexivity.
  assert (Hhigh : calculateRiskLevel (churn_probability c) = high).
  { destruct (calculateRiskLevel (churn_probability c)); try discriminate.
    reflexivity. }
  apply NormalizeFacts.calculateRiskLevel_high in Hhigh.
  assert (H70 : Qle_bool 70 (churn_probability c) = true).
  { apply Qle_bool_iff. apply Qlt_le_weak. assumption. }
  rewrite H70. unfold Qlt_bool.
  destruct (Qle_bool 90 (churn_probability c)); reflexivity.
Qed.

Lemma length_filter_cons (A : Type) (p : A -> bool) (x : A) (l : list A) :
  List.length (filter p (x :: l))
  = (Nat.b2n (p x) + List.length (filter p l))%nat.
Proof. simpl. destruct (p x); reflexivity. Qed.

Lemma buckets_partition (l : list customer) :
  Forall (fun c => consistent c = true) l ->
  (List.length
     (filter (fun c => risk_eqb (risk_level c) high
                       && Qle_bool 90 (churn_probability c)) l)
   + List.length
       (filter (fun c => risk_eqb (risk_level c) high
                         && Qle_bool 70 (churn_probability c)
                         && Qlt_bool (churn_probability c) 90) l)
   + List.length (filter (fun c => risk_eqb (risk_level c) medium) l)
   + List.length (filter (fun c => risk_eqb (risk_level c) low) l)
   = List.length l)%nat.
Proof.
  induction 1 as [ | c l Hc _ IH ]; [ reflexivity | ].
  rewrite !length_filter_cons. pose proof (one_bucket c Hc) as Hone.
  simpl List.length. lia.
Qed.

(** X4. For the entities the normalizer returns, the four buckets of the
    risk distribution (critical, high, medium, low) partition the
    customers: their counts add up to [totalCustomers], which is the number
    of entities; and [criticalRisks] is the critical bucket. *)
Theorem kpi_buckets_partition_the_entities parseFloat ToString
  (payload : jsval) (out : list customer) :
  normalizeCustomerData parseFloat ToString payload = Ok out ->
  (Distribution.critical (riskDistribution (calculateKPIs (Some out)))
   + Distribution.high (riskDistribution (calculateKPIs (Some out)))
   + Distribution.medium (riskDistribution (calculateKPIs (Some out)))
   + Distribution.low (riskDistribution (calculateKPIs (Some out)))
   = totalCustomers (calculateKPIs (Some out)))%nat
  /\ totalCustomers (calculateKPIs (Some out)) = List.length out
  /\ criticalRisks (calculateKPIs (Some out))
     = Distribution.critical (riskDistribution (calculateKPIs (Some out))).
Proof.
  intros H. apply normalized_consistent in H.
  unfold calculateKPIs.
  destruct (List.length out =? 0)%nat eqn:Hlen.
  - apply Nat.eqb_eq in Hlen. rewrite Hlen. simpl. auto.
  - simpl. split; [ | split; reflexivity ].
    apply buckets_partition. assumption.
Qed.

Lemma kpi_buckets_partition_the_entities_witness :
  (Distribution.critical
     (riskDistribution
        (calculateKPIs (Some (Samples.entitiesOf Samples.plainPayload))))
   + Distribution.high
       (riskDistribution
          (calculateKPIs (Some (Samples.entitiesOf Samples.plainPayload))))
   + Distribution.medium
       (riskDistribution
          (calculateKPIs (Some (Samples.entitiesOf Samples.plainPayload))))
   + Distribution.low
       (riskDistribution
          (calculateKPIs (Some (Samples.entitiesOf Samples.plainPayload))))
   = totalCustomers
       (calculateKPIs (Some (Samples.entitiesOf Samples.plainPayload))))%nat
  /\ totalCustomers
       (calculateKPIs (Some (Samples.entitiesOf Samples.plainPayload)))
     = List.length (Samples.entitiesOf Samples.plainPayload)
  /\ criticalRisks
       (calculateKPIs (Some (Samples.entitiesOf Samples.plainPayload)))
     = Distribution.critical
         (riskDistribution
            (calculateKPIs (Some (Samples.entitiesOf Samples.plainPayload)))).
Proof.
  apply (@kpi_buckets_partition_the_entities ExampleHost.parseFloat
           ExampleHost.ToString Samples.plainPayload).
  reflexivity.
Defined.

(** *** Rounding *)

Lemma round_bounds (x : Q) :
  x - (1 # 2) < inject_Z (round x) /\ inject_Z (round x) <= x + (1 # 2).
Proof.
  unfold round. split.
  - pose proof (Qlt_floor (x + (1 # 2))) as H.
    rewrite inject_Z_plus in H.
    change (inject_Z 1) with 1 in H. lra.
  - apply Qfloor_le.
Qed.

Lemma round_between (x : Q) (a b : Z) :
  inject_Z a <= x -> x <= inject_Z b -> (a <= round x <= b)%Z.
Proof.
  intros Ha Hb. unfold round. split.
  - rewrite <- (Qfloor_Z a). apply Qfloor_resp_le. lra.
  - assert (H : (Qfloor (x + (1 # 2)) <= Qfloor (inject_Z b + (1 # 2)))%Z).
    { apply Qfloor_resp_le. lra. }
    assert (Hb' : Qfloor (inject_Z b + (1 # 2)) = b).
    { unfold Qfloor, Qplus, inject_Z. simpl.
      replace (b * 2 + 1)%Z with (1 + b * 2)%Z by ring.
      rewrite Z.div_add by discriminate. reflexivity. }
    lia.
Qed.

Lemma ofNat_pos (n : nat) : (0 < n)%nat -> 0 < ofNat n.
Proof.
  intros H. unfold ofNat.
  change 0 with (inject_Z 0). rewrite <- Zlt_Qlt. lia.
Qed.

Lemma ofNat_le (n m : nat) : (n <= m)%nat -> ofNat n <= ofNat m.
Proof. intros H. unfold ofNat. rewrite <- Zle_Qle. lia. Qed.

Lemma ofNat_S (n : nat) : ofNat (S n) == ofNat n + 1.
Proof.
  unfold ofNat. rewrite Nat2Z.inj_succ. unfold Z.succ.
  rewrite inject_Z_plus. reflexivity.
Qed.

Lemma ofNat_hundred (n : nat) : ofNat (100 * n) == 100 * ofNat n.
Proof.
  unfold ofNat. rewrite Nat2Z.inj_mul, inject_Z_mult. reflexivity.
Qed.

(** The sum of the scores as the program adds them: it stays within the
    bound of the exact sum, and near it. *)
Lemma sum_bounds (l : list customer) :
  forall (a : Q) (k : nat),
    percentages l ->
    0 <= a -> a <= ofNat (100 * k) ->
    (Z.of_nat (100 * (k + List.length l)) < 2 ^ 53)%Z ->
    0 <= fold_left (fun sum c => Double.add sum (churn_probability c)) l a
    /\ fold_left (fun sum c => Double.add sum (churn_probability c)) l a
       <= ofNat (100 * (k + List.length l))
    /\ Qabs (fold_left (fun sum c => Double.add sum (churn_probability c)) l a
             - (a + total l))
       <= ofNat (List.length l)
          * (ofNat (100 * (k + List.length l)) * 2 ^ (-53)).
Proof.
  induction l as [ | c l IH ]; intros a k Hp Ha0 Ha Hk.
  - simpl fold_left. simpl List.length. rewrite Nat.add_0_r.
    split; [ assumption | ]. split; [ assumption | ].
    unfold total. simpl fold_right.
    setoid_replace (a - (a + 0)) with 0 by ring.
    change (Qabs 0) with 0. change (ofNat 0) with 0. lra.
  - inversion Hp as [ | ? ? [Hc0 Hc] Hp' ]; subst.
    cbn [fold_left].
    set (a' := Double.add a (churn_probability c)).
    assert (Hsum : a + churn_probability c <= ofNat (100 * S k)).
    { rewrite ofNat_hundred, ofNat_S. rewrite ofNat_hundred in Ha. lra. }
    assert (Hm : (1 <= Z.of_nat (100 * S k) < 2 ^ 53)%Z).
    { simpl List.length in Hk. lia. }
    destruct (@DoubleFacts.round64_between (a + churn_probability c)
                (Z.of_nat (100 * S k))) as [Ha'0 Ha'];
      [ lia | lra | exact Hsum | ].
    pose proof (@DoubleFacts.round64_near (a + churn_probability c)
                  (Z.of_nat (100 * S k)) Hm) as Hnear.
    fold a' in Ha'0, Ha'.
    assert (Hk' : (Z.of_nat (100 * (S k + List.length l)) < 2 ^ 53)%Z).
    { simpl List.length in Hk. replace (S k + List.length l)%nat
        with (k + S (List.length l))%nat by lia. assumption. }
    destruct (IH a' (S k) Hp' Ha'0 Ha' Hk') as (H0 & Hup & Herr).
    replace (k + List.length (c :: l))%nat with (S k + List.length l)%nat
      by (simpl; lia).
    split; [ assumption | ]. split; [ assumption | ].
    specialize (Hnear ltac:(lra) Hsum).
    change (Double.round64 (a + churn_probability c)) with a' in Hnear.
    fold (ofNat (100 * S k)) in Hnear.
    assert (Hmono : ofNat (100 * S k) * 2 ^ (-53)
                    <= ofNat (100 * (S k + List.length l)) * 2 ^ (-53)).
    { apply Qmult_le_compat_r;
        [ apply ofNat_le; lia | apply Qlt_le_weak, DoubleFacts.pow2_pos ]. }
    simpl List.length. rewrite ofNat_S.
    unfold total in *. cbn [fold_right].
    set (t := fold_right (fun c s => churn_probability c + s) 0 l) in *.
    set (S' := fold_left (fun sum c => Double.add sum (churn_probability c))
                 l a') in *.
    set (M := ofNat (100 * (S k + List.length l)) * 2 ^ (-53)) in *.
    set (M1 := ofNat (100 * S k) * 2 ^ (-53)) in *.
    set (n := ofNat (List.length l)) in *.
    apply Qabs_Qle_condition in Herr. apply Qabs_Qle_condition in Hnear.
    apply Qabs_Qle_condition.
    setoid_replace ((n + 1) * M) with (n * M + M) by ring.
    set (B := n * M) in *. clearbody B M M1 S' t a'.
    split; lra.
Qed.

Lemma round_near (x : Q) : Qabs (inject_Z (round x) - x) <= 1 # 2.
Proof.
  destruct (round_bounds x) as [Hlo Hhi].
  apply Qabs_Qle_condition. split; lra.
Qed.

(** The two figures of a list that is not empty, step by step. *)
Lemma retention_bounds (low n : Q) :
  0 <= low -> low <= n -> 0 < n ->
  (0 <= round (Double.mul (Double.div low n) 100) <= 100)%Z
  /\ Qabs (inject_Z (round (Double.mul (Double.div low n) 100))
           - 100 * (low / n))
     <= (1 # 2) + 200 * 2 ^ (-53).
Proof.
  intros Hlow0 Hlow Hn. unfold Double.mul, Double.div.
  pose proof (DoubleFacts.pow2_pos (-53)) as Hu.
  assert (Hq0 : 0 <= low / n)
    by (apply Qle_shift_div_l; [ assumption | lra ]).
  assert (Hq1 : low / n <= inject_Z 1).
  { change (inject_Z 1) with 1.
    apply Qle_shift_div_r; [ assumption | lra ]. }
  destruct (@DoubleFacts.round64_between (low / n) 1)
    as [Hs0 Hs1]; [ reflexivity | assumption | assumption | ].
  pose proof (@DoubleFacts.round64_near (low / n) 1 ltac:(lia) Hq0 Hq1)
    as Hs.
  set (q := low / n) in *. set (s := Double.round64 q) in *.
  change (inject_Z 1) with 1 in *.
  assert (Hx1 : s * 100 <= inject_Z 100)
    by (change (inject_Z 100) with 100; lra).
  destruct (@DoubleFacts.round64_between (s * 100) 100)
    as [Ht0 Ht1]; [ reflexivity | lra | assumption | ].
  pose proof (@DoubleFacts.round64_near (s * 100) 100 ltac:(lia)
                ltac:(lra) Hx1) as Ht.
  set (t := Double.round64 (s * 100)) in *.
  change (inject_Z 100) with 100 in *.
  split.
  - apply round_between; assumption.
  - pose proof (round_near t) as Hr.
    set (r := inject_Z (round t)) in *.
    apply Qabs_Qle_condition in Hs, Ht, Hr. apply Qabs_Qle_condition.
    set (u := 2 ^ (-53)) in *. clearbody u r t s q.
    split; lra.
Qed.

Lemma average_bounds (cs : list customer) :
  (0 < List.length cs)%nat ->
  percentages cs ->
  (Z.of_nat (100 * List.length cs) < 2 ^ 53)%Z ->
  let sum :=
    fold_left (fun sum customer => Double.add sum (churn_probability customer))
      cs 0 in
  let avgScore := Double.div sum (ofNat (List.length cs)) in
  let shown :=
    Double.div (inject_Z (round (Double.mul avgScore 10))) 10 in
  0 <= shown /\ shown <= 100
  /\ Qabs (shown - mean cs)
     <= (1 # 20) + 100 * (ofNat (List.length cs) + 3) * 2 ^ (-53).
Proof.
  intros Hpos Hp Hlen. unfold Double.mul, Double.div, mean.
  pose proof (DoubleFacts.pow2_pos (-53)) as Hu.
  destruct (@sum_bounds cs 0 0%nat Hp) as (HS0 & HS & HSerr);
    [ lra | change (ofNat (100 * 0)) with 0; lra | assumption | ].
  cbn [Nat.add] in HS, HSerr.
  set (S := fold_left
              (fun sum customer => Double.add sum (churn_probability customer))
              cs 0) in *.
  rewrite ofNat_hundred in HS, HSerr.
  set (n := ofNat (List.length cs)) in *.
  assert (Hn : 0 < n) by (apply ofNat_pos; assumption).
  set (u := 2 ^ (-53)) in *.
  (* the quotient *)
  assert (Hq0 : 0 <= S / n)
    by (apply Qle_shift_div_l; [ assumption | lra ]).
  assert (Hq1 : S / n <= inject_Z 100).
  { change (inject_Z 100) with 100.
    apply Qle_shift_div_r; [ assumption | lra ]. }
  destruct (@DoubleFacts.round64_between (S / n) 100)
    as [Ha0 Ha1]; [ reflexivity | assumption | assumption | ].
  pose proof (@DoubleFacts.round64_near (S / n) 100 ltac:(lia) Hq0 Hq1)
    as Ha.
  set (a := Double.round64 (S / n)) in *.
  change (inject_Z 100) with 100 in *.
  (* the exact quotient is near the mean *)
  assert (Hmean : Qabs (S / n - total cs / n) <= 100 * n * u).
  { setoid_replace (S / n - total cs / n) with ((S - (0 + total cs)) / n)
      by (field; lra).
    apply Qabs_Qle_condition in HSerr. destruct HSerr as [He1 He2].
    apply Qabs_Qle_condition. split.
    - apply Qle_shift_div_l; [ assumption | ].
      setoid_replace (- (100 * n * u) * n) with (- (n * (100 * n * u)))
        by ring.
      assumption.
    - apply Qle_shift_div_r; [ assumption | ].
      setoid_replace (100 * n * u * n) with (n * (100 * n * u)) by ring.
      assumption. }
  (* times ten *)
  assert (Hx1 : a * 10 <= inject_Z 1000)
    by (change (inject_Z 1000) with 1000; lra).
  destruct (@DoubleFacts.round64_between (a * 10) 1000)
    as [Ht0 Ht1]; [ reflexivity | lra | assumption | ].
  pose proof (@DoubleFacts.round64_near (a * 10) 1000 ltac:(lia)
                ltac:(lra) Hx1) as Ht.
  set (t := Double.round64 (a * 10)) in *.
  (* Math.round *)
  destruct (@round_between t 0 1000) as [Hr0 Hr1];
    [ assumption | assumption | ].
  pose proof (round_near t) as Hr.
  assert (Hr0' : 0 <= inject_Z (round t)).
  { change 0 with (inject_Z 0). rewrite <- Zle_Qle. assumption. }
  assert (Hr1' : inject_Z (round t) <= 1000).
  { change 1000 with (inject_Z 1000). rewrite <- Zle_Qle. assumption. }
  set (r := inject_Z (round t)) in *.
  (* by ten *)
  assert (Hd : r / 10 == r * (1 # 10)) by (field; lra).
  assert (Hy1 : r / 10 <= inject_Z 100)
    by (change (inject_Z 100) with 100; lra).
  destruct (@DoubleFacts.round64_between (r / 10) 100)
    as [Ho0 Ho1]; [ reflexivity | lra | assumption | ].
  pose proof (@DoubleFacts.round64_near (r / 10) 100 ltac:(lia)
                ltac:(lra) Hy1) as Ho.
  set (o := Double.round64 (r / 10)) in *.
  change (inject_Z 100) with 100 in *.
  change (inject_Z 1000) with 1000 in *.
  split; [ assumption | ]. split; [ assumption | ].
  apply Qabs_Qle_condition in Ha, Hmean, Ht, Hr, Ho.
  apply Qabs_Qle_condition.
  change (2 ^ (-53)) with u in Ha, Ht, Ho.
  set (q := S / n) in *. set (m := total cs / n) in *.
  set (d := r / 10) in *. set (nu := n * u) in *.
  setoid_replace (100 * (n + 3) * u) with (100 * nu + 300 * u)
    by (unfold nu; ring).
  setoid_replace (100 * n * u) with (100 * nu) in Hmean
    by (unfold nu; ring).
  clearbody q m d nu o r t a u.
  split; lra.
Qed.

(** X5. [retentionSuccess] is a whole percentage between 0 and 100,
    whatever the customers, and for a list that is not empty it is within
    1/2 + 200/2^53 of the exact percentage of low-tier customers.  For a
    list that is not empty, of fewer than 2^53 / 100 customers whose scores
    lie in [0,100], [avgScore] lies in [0,100] and within
    1/20 + 100 (n + 3) / 2^53 of the exact mean of the [n] scores.  For no
    list and for the empty list both figures are 0. *)
Theorem kpi_figures_are_rounded (customers : option (list customer)) :
  (0 <= retentionSuccess (calculateKPIs customers) <= 100)%Z
  /\ match customers with
     | Some (c :: l) =>
         Qabs (inject_Z (retentionSuccess (calculateKPIs customers))
               - 100 * lowShare (c :: l))
         <= (1 # 2) + 200 * 2 ^ (-53)
         /\ (percentages (c :: l) ->
             (Z.of_nat (100 * List.length (c :: l)) < 2 ^ 53)%Z ->
             0 <= avgScore (calculateKPIs customers)
             /\ avgScore (calculateKPIs customers) <= 100
             /\ Qabs (avgScore (calculateKPIs customers) - mean (c :: l))
                <= (1 # 20)
                   + 100 * (ofNat (List.length (c :: l)) + 3) * 2 ^ (-53))
     | _ =>
         avgScore (calculateKPIs customers) = 0
         /\ retentionSuccess (calculateKPIs customers) = 0%Z
     end.
Proof.
  destruct customers as [ [ | c l ] | ];
    [ simpl; split; [ lia | auto ] | | simpl; split; [ lia | auto ] ].
  remember (c :: l) as cs eqn:Hcs.
  assert (Hpos : (0 < List.length cs)%nat) by (subst cs; simpl; lia).
  unfold calculateKPIs.
  destruct (List.length cs =? 0)%nat eqn:Hlen.
  { apply Nat.eqb_eq in Hlen. lia. }
  cbn [retentionSuccess avgScore].
  assert (Hn : 0 < ofNat (List.length cs)) by (apply ofNat_pos; assumption).
  assert (Hlow0 :
            0 <= ofNat (List.length
                          (filter (fun customer =>
                                     risk_eqb (risk_level customer) low) cs))).
  { unfold ofNat. change 0 with (inject_Z 0). rewrite <- Zle_Qle. lia. }
  assert (Hlow :
            ofNat (List.length
                     (filter (fun customer =>
                                risk_eqb (risk_level customer) low) cs))
            <= ofNat (List.length cs)).
  { apply ofNat_le. apply filter_length_le. }
  destruct (retention_bounds Hlow0 Hlow Hn) as [Hrange Hnear].
  split; [ exact Hrange | ].
  split; [ exact Hnear | ].
  intros Hp Hbound. apply average_bounds; assumption.
Qed.

Lemma kpi_figures_are_rounded_witness :
  let customers :=
    [ExampleHost.sample "customer-1" 20; ExampleHost.sample "customer-2" 50;
     ExampleHost.sample "customer-3" 95] in
  (0 <= retentionSuccess (calculateKPIs (Some customers)) <= 100)%Z
  /\ Qabs (inject_Z (retentionSuccess (calculateKPIs (Some customers)))
           - 100 * lowShare customers)
     <= (1 # 2) + 200 * 2 ^ (-53)
  /\ 0 <= avgScore (calculateKPIs (Some customers))
  /\ avgScore (calculateKPIs (Some customers)) <= 100
  /\ Qabs (avgScore (calculateKPIs (Some customers)) - mean customers)
     <= (1 # 20) + 100 * (ofNat (List.length customers) + 3) * 2 ^ (-53).
Proof.
  intros customers.
  destruct (kpi_figures_are_rounded (Some customers))
    as (Hrange & Hnear & Havg).
  split; [ exact Hrange | ]. split; [ exact Hnear | ].
  apply Havg.
  - repeat constructor; unfold Qle; simpl; lia.
  - vm_compute. reflexivity.
Defined.

(** Twenty-three customers of forty in the low tier: the share is 57.5
    per cent, the product the program rounds is just below it, and the
    figure is 57. *)
Example retention_of_twenty_three_in_forty :
  retentionSuccess
    (calculateKPIs
       (Some (repeat (ExampleHost.sample "a" 10) 23
              ++ repeat (ExampleHost.sample "b" 50) 17)))
  = 57%Z
  /\ 100 * lowShare (repeat (ExampleHost.sample "a" 10) 23
                     ++ repeat (ExampleHost.sample "b" 50) 17)
     == 575 # 10.
Proof. split; vm_compute; reflexivity. Qed.

(** One customer whose raw score is the binary64 number 0.0015: the score
    stored is just below 0.15, and the average shown is 0.2. *)
Example average_of_one_small_score :
  map churn_probability
      (Samples.entitiesOf
         (ExampleHost.payload [JNum (3458764513820541 # 2305843009213693952)]))
  = [5404319552844595 # 36028797018963968]
  /\ avgScore
       (calculateKPIs
          (Some (Samples.entitiesOf
                   (ExampleHost.payload
                      [JNum (3458764513820541 # 2305843009213693952)]))))
     = 3602879701896397 # 18014398509481984
  /\ (5404319552844595 # 36028797018963968) < 15 # 100
  /\ (1 # 5) < (3602879701896397 # 18014398509481984).
Proof.
  split; [ vm_compute; reflexivity | ].
  split; [ vm_compute; reflexivity | ].
  split; reflexivity.
Qed.

(** *** One meaning for the tier names *)



(** X7. For an entity the normalizer returns, the label on its card names
    the tier filter that shows it: the label is "Critical" exactly when the
    entity passes the filter "critical", "High Risk" exactly when it passes
    "high", "Low Risk" exactly when it passes "low"; and an entity labelled
    "Medium Risk" passes none of the three, so only the unfiltered view
    shows it. *)
Theorem card_label_names_the_tier_filter parseFloat ToString
  (payload : jsval) (out : list customer) (c : customer) :
  normalizeCustomerData parseFloat ToString payload = Ok out ->
  In c out ->
  (Page.label (Page.getRiskColors c) = "Critical"%string
   <-> View.isCritical c = true)
  /\ (Page.label (Page.getRiskColors c) = "High Risk"%string
      <-> View.isHigh c = true)
  /\ (Page.label (Page.getRiskColors c) = "Low Risk"%string
      <-> View.isLow c = true)
  /\ (Page.label (Page.getRiskColors c) = "Medium Risk"%string
      <-> risk_level c = medium)
  /\ (risk_level c = medium ->
      View.isCritical c = false /\ View.isHigh c = false
      /\ View.isLow c = false).
Proof.
  intros H Hin. apply normalized_consistent in H.
  rewrite Forall_forall in H. specialize (H c Hin).
  unfold consistent in H.
  unfold Page.getRiskColors, View.isCritical, View.isHigh, View.isLow.
  destruct (risk_level c) eqn:Hr; simpl.
  - repeat split; intros; try discriminate; auto.
  - repeat split; intros; try discriminate; auto.
  - assert (Hhigh : calculateRiskLevel (churn_probability c) = high).
    { destruct (calculateRiskLevel (churn_probability c)); try discriminate.
      reflexivity. }
    apply NormalizeFacts.calculateRiskLevel_high in Hhigh.
    assert (H70 : Qle_bool 70 (churn_probability c) = true).
    { apply Qle_bool_iff. apply Qlt_le_weak. assumption. }
    rewrite H70. unfold Qlt_bool.
    destruct (Qle_bool 90 (churn_probability c)); simpl;
      repeat split; intros; try discriminate; auto.
Qed.

Lemma card_label_names_the_tier_filter_witness :
  (Page.label (Page.getRiskColors (ExampleHost.sample "customer-3" 95))
   = "Critical"%string
   <-> View.isCritical (ExampleHost.sample "customer-3" 95) = true)
  /\ (Page.label (Page.getRiskColors (ExampleHost.sample "customer-3" 95))
      = "High Risk"%string
      <-> View.isHigh (ExampleHost.sample "customer-3" 95) = true)
  /\ (Page.label (Page.getRiskColors (ExampleHost.sample "customer-3" 95))
      = "Low Risk"%string
      <-> View.isLow (ExampleHost.sample "customer-3" 95) = true)
  /\ (Page.label (Page.getRiskColors (ExampleHost.sample "customer-3" 95))
      = "Medium Risk"%string
      <-> risk_level (ExampleHost.sample "customer-3" 95) = medium)
  /\ (risk_level (ExampleHost.sample "customer-3" 95) = medium ->
      View.isCritical (ExampleHost.sample "customer-3" 95) = false
      /\ View.isHigh (ExampleHost.sample "customer-3" 95) = false
      /\ View.isLow (ExampleHost.sample "customer-3" 95) = false).
Proof.
  apply (@card_label_names_the_tier_filter ExampleHost.parseFloat
           ExampleHost.ToString Samples.plainPayload
           (Samples.entitiesOf Samples.plainPayload)).
  - reflexivity.
  - right. right. left. reflexivity.
Defined.

(** The figures and the labels of the sample without ids (scores 20, 50
    and 95): one critical, one medium, one low; a third of the customers
    are low risk; the mean score is 55. *)
Example sample_figures :
  calculateKPIs (Some (Samples.entitiesOf Samples.plainPayload))
  = mkKpis 1 (550 # 10) 33 3 (Distribution.mk 1 0 1 1)
  /\ map (fun c => Page.label (Page.getRiskColors c))
         (Samples.entitiesOf Samples.plainPayload)
     = ["Low Risk"; "Medium Risk"; "Critical"]%string.
Proof. split; vm_compute; reflexivity. Qed.

End KpiFacts.

(* ===================================================================== *)
(** ** More on the view: score order, fixed point, letter case *)
(* ===================================================================== *)

Module ViewExtra.

Import View ViewSpec.

(** *** Sorting by score *)

Section Stable.

Variable compare : customer -> customer -> result Q.

(** The comparator returns, and puts no entity after one of the same
    score. *)
Hypothesis compare_ties :
  forall a b, exists v,
    compare a b = Ok v
    /\ (churn_probability a == churn_probability b -> Qle_bool v 0 = true).

Lemma insertM_stable (s : Q) (x : customer) (l : list customer) :
  forall r,
    insertM compare x l = Ok r ->
    withScore s r
    = withScore s (x :: l).
Proof.
  induction l as [ | y l IH ]; intros r H; simpl in H.
  - inversion H. reflexivity.
  - destruct (compare_ties x y) as (v & Hv & Htie).
    rewrite Hv in H. simpl in H.
    destruct (Qle_bool v 0) eqn:Hle.
    + inversion H. reflexivity.
    + destruct (insertM compare x l) as [ r' | ] eqn:Hr; [ | discriminate ].
      simpl in H. inversion H; subst r. clear H.
      specialize (IH _ eq_refl). simpl in IH. simpl. rewrite IH.
      destruct (Qeq_bool (churn_probability x) s) eqn:Hx;
        [ | reflexivity ].
      destruct (Qeq_bool (churn_probability y) s) eqn:Hy;
        [ | reflexivity ].
      apply Qeq_bool_iff in Hx, Hy.
      assert (Hno : false = true)
        by (apply Htie; rewrite Hx, Hy; reflexivity).
      discriminate Hno.
Qed.

Lemma sortM_stable (s : Q) (l : list customer) :
  forall out,
    sortM compare l = Ok out ->
    withScore s out
    = withScore s l.
Proof.
  induction l as [ | x l IH ]; intros out H; simpl in H.
  - inversion H. reflexivity.
  - destruct (sortM compare l) as [ s' | ] eqn:Hs; [ | discriminate ].
    simpl in H. rewrite (@insertM_stable s x s' out H).
    simpl. rewrite (IH _ eq_refl). reflexivity.
Qed.

End Stable.

Lemma byProbabilityDesc_ties (a b : customer) :
  exists v,
    byProbabilityDesc a b = Ok v
    /\ (churn_probability a == churn_probability b -> Qle_bool v 0 = true).
Proof.
  eexists. split; [ reflexivity | ].
  intros H. apply Qle_bool_iff. lra.
Qed.

Lemma byProbabilityAsc_ties (a b : customer) :
  exists v,
    byProbabilityAsc a b = Ok v
    /\ (churn_probability a == churn_probability b -> Qle_bool v 0 = true).
Proof.
  eexists. split; [ reflexivity | ].
  intros H. apply Qle_bool_iff. lra.
Qed.

Lemma sortM_byProbabilityDesc (l : list customer) :
  exists out,
    sortM byProbabilityDesc l = Ok out /\ Permutation l out
    /\ StronglySorted scoreDesc out.
Proof.
  apply (@ViewFacts.sortM_sorted _ byProbabilityDesc (fun _ => True)
           (fun a b _ _ => ex_intro _ _ eq_refl) scoreDesc).
  - intros a b v _ _ H. inversion H. unfold scoreDesc.
    rewrite Qle_bool_iff. split; intros; lra.
  - intros a b _ _. unfold scoreDesc.
    destruct (Qlt_le_dec (churn_probability a) (churn_probability b));
      [ right; apply Qlt_le_weak | left ]; assumption.
  - unfold scoreDesc. intros a b c Hab Hbc. lra.
  - apply Forall_forall. auto.
Qed.

Lemma sortM_byProbabilityAsc (l : list customer) :
  exists out,
    sortM byProbabilityAsc l = Ok out /\ Permutation l out
    /\ StronglySorted scoreAsc out.
Proof.
  apply (@ViewFacts.sortM_sorted _ byProbabilityAsc (fun _ => True)
           (fun a b _ _ => ex_intro _ _ eq_refl) scoreAsc).
  - intros a b v _ _ H. inversion H. unfold scoreAsc.
    rewrite Qle_bool_iff. split; intros; lra.
  - intros a b _ _. unfold scoreAsc.
    destruct (Qlt_le_dec (churn_probability b) (churn_probability a));
      [ right; apply Qlt_le_weak | left ]; assumption.
  - unfold scoreAsc. intros a b c Hab Hbc. lra.
  - apply Forall_forall. auto.
Qed.

Section Keys.

Variable localeCompare : string -> string -> Z.

(** X8. Sorting by score never raises, whatever the entities: under
    "probability-desc", and under "highest-risk", which is the same sort,
    the result is a rearrangement of the list in descending score; under
    "lowest-risk" a rearrangement in ascending score; in both, entities of
    equal score keep the order they had in the list; and a key that is
    none of the four leaves the list as it is. *)
Theorem score_keys_sort_by_score (l : list customer) :
  (exists out,
      sortCustomers localeCompare "probability-desc" l = Ok out
      /\ sortCustomers localeCompare "highest-risk" l = Ok out
      /\ Permutation l out
      /\ StronglySorted scoreDesc out
      /\ forall s,
           withScore s out
           = withScore s l)
  /\ (exists out,
         sortCustomers localeCompare "lowest-risk" l = Ok out
         /\ Permutation l out
         /\ StronglySorted scoreAsc out
         /\ forall s,
              withScore s out
              = withScore s l)
  /\ (forall key,
         (key =? "probability-desc") || (key =? "highest-risk")
         || (key =? "lowest-risk") || (key =? "id-asc") = false ->
         sortCustomers localeCompare key l = Ok l).
Proof.
  split; [ | split ].
  - destruct (sortM_byProbabilityDesc l) as (out & Hout & Hperm & Hsorted).
    exists out. repeat split; try assumption.
    intros s. apply (@sortM_stable byProbabilityDesc byProbabilityDesc_ties s l out Hout).
  - destruct (sortM_byProbabilityAsc l) as (out & Hout & Hperm & Hsorted).
    exists out. repeat split; try assumption.
    intros s. apply (@sortM_stable byProbabilityAsc byProbabilityAsc_ties s l out Hout).
  - intros key H. unfold sortCustomers.
    apply orb_false_elim in H. destruct H as [H Hid].
    apply orb_false_elim in H. destruct H as [H Hlow].
    rewrite H, Hlow, Hid. reflexivity.
Qed.

End Keys.

(** *** The view is a fixed point of the effect *)

Section Fixed.

Variable A : Type.
Variable compare : A -> A -> result Q.
Variable P : A -> Prop.
Variable R : A -> A -> Prop.
Hypothesis compare_returns :
  forall a b, P a -> P b -> exists v, compare a b = Ok v.
Hypothesis compare_decides :
  forall a b v, P a -> P b -> compare a b = Ok v ->
                (Qle_bool v 0 = true <-> R a b).

(** Sorting a list that is in order returns it. *)
Lemma sortM_of_sorted (l : list A) :
  Forall P l -> StronglySorted R l -> sortM compare l = Ok l.
Proof.
  intros HP Hsorted. induction Hsorted as [ | x l Hsorted IH Hx ];
    [ reflexivity | ].
  inversion HP as [ | ? ? HPx HPl ]; subst.
  simpl. rewrite (IH HPl). simpl.
  destruct l as [ | y l ]; [ reflexivity | ].
  inversion HPl as [ | ? ? HPy _ ]; subst.
  inversion Hx as [ | ? ? Hxy _ ]; subst.
  simpl. destruct (compare_returns HPx HPy) as [ v Hv ].
  rewrite Hv. simpl.
  apply (compare_decides HPx HPy Hv) in Hxy. rewrite Hxy. reflexivity.
Qed.

End Fixed.

Lemma filter_Forall (A : Type) (p : A -> bool) (l : list A) :
  Forall (fun x => p x = true) l -> filter p l = l.
Proof.
  induction 1 as [ | x l Hx _ IH ]; simpl; [ reflexivity | ].
  rewrite Hx, IH. reflexivity.
Qed.

Section Collation.

Variable localeCompare : string -> string -> Z.
Hypothesis localeCompare_total :
  forall a b, (localeCompare a b <= 0)%Z \/ (localeCompare b a <= 0)%Z.
Hypothesis localeCompare_trans :
  forall a b c, (localeCompare a b <= 0)%Z -> (localeCompare b c <= 0)%Z ->
                (localeCompare a c <= 0)%Z.

Lemma sortCustomers_fixed (key : string) (l out : list customer) :
  allWellTyped l ->
  sortCustomers localeCompare key l = Ok out ->
  sortCustomers localeCompare key out = Ok out.
Proof.
  intros Hwt. unfold sortCustomers.
  destruct ((key =? "probability-desc") || (key =? "highest-risk")).
  { intros H.
    destruct (sortM_byProbabilityDesc l) as (out' & Hout & _ & Hsorted).
    assert (out' = out) by congruence. subst out'.
    apply (@sortM_of_sorted _ byProbabilityDesc (fun _ => True) scoreDesc).
    - intros a b _ _. eexists. reflexivity.
    - intros a b v _ _ Hv. inversion Hv. unfold scoreDesc.
      rewrite Qle_bool_iff. split; intros; lra.
    - apply Forall_forall. auto.
    - assumption. }
  destruct (key =? "lowest-risk").
  { intros H.
    destruct (sortM_byProbabilityAsc l) as (out' & Hout & _ & Hsorted).
    assert (out' = out) by congruence. subst out'.
    apply (@sortM_of_sorted _ byProbabilityAsc (fun _ => True) scoreAsc).
    - intros a b _ _. eexists. reflexivity.
    - intros a b v _ _ Hv. inversion Hv. unfold scoreAsc.
      rewrite Qle_bool_iff. split; intros; lra.
    - apply Forall_forall. auto.
    - assumption. }
  destruct (key =? "id-asc"); [ | intros H; reflexivity ].
  intros H.
  destruct (@ViewFacts.sortM_sorted _ (byIdAsc localeCompare)
              (fun c => wellTyped c = true)
              (@ViewFacts.byIdAsc_returns localeCompare)
              (idOrder localeCompare)
              (@ViewFacts.byIdAsc_decides localeCompare)
              (fun a b _ _ =>
                 @ViewFacts.idOrder_total localeCompare localeCompare_total
                   a b)
              (@ViewFacts.idOrder_trans localeCompare localeCompare_trans)
              l Hwt) as (out' & Hout & Hperm & Hsorted).
  assert (out' = out) by congruence. subst out'.
  apply (@sortM_of_sorted _ (byIdAsc localeCompare)
           (fun c => wellTyped c = true) (idOrder localeCompare)
           (@ViewFacts.byIdAsc_returns localeCompare)
           (@ViewFacts.byIdAsc_decides localeCompare)).
  - unfold allWellTyped in Hwt. rewrite Forall_forall in *.
    intros c Hc. apply Hwt.
    apply (Permutation_in _ (Permutation_sym Hperm)). assumption.
  - assumption.
Qed.

(** X9. For entities of the data model and a collation that is total and
    transitive, the view is a fixed point of the filter/search/sort
    effect: the effect returns a view, and run again on that view with the
    same query it returns the same list, already by its filters alone. *)
Theorem view_is_a_fixed_point (l : list customer) (q : query) :
  forallb wellTyped l = true ->
  exists view,
    computeView localeCompare l q = Ok view
    /\ applyFilters q view = Ok view
    /\ computeView localeCompare view q = Ok view.
Proof.
  intros Hwt. apply ViewFacts.allWellTyped_forallb in Hwt.
  pose proof (ViewFacts.applyFilters_filter q Hwt) as Hsel.
  pose proof (@ViewFacts.allWellTyped_filter (passesAll q) l Hwt) as Hwt'.
  destruct (@ViewFacts.sortCustomers_Permutation localeCompare (sortType q)
              _ Hwt') as (view & Hview & Hperm).
  assert (Hwtv : allWellTyped view).
  { unfold allWellTyped in *. rewrite Forall_forall in *.
    intros c Hc. apply Hwt'.
    apply (Permutation_in _ (Permutation_sym Hperm)). assumption. }
  assert (Hpass : applyFilters q view = Ok view).
  { rewrite (ViewFacts.applyFilters_filter q Hwtv). f_equal.
    apply filter_Forall. apply Forall_forall. intros c Hc.
    apply (Permutation_in _ (Permutation_sym Hperm)) in Hc.
    apply filter_In in Hc. tauto. }
  exists view. split; [ | split ].
  - unfold computeView. rewrite Hsel. exact Hview.
  - exact Hpass.
  - unfold computeView. rewrite Hpass. simpl.
    apply (@sortCustomers_fixed (sortType q) _ view Hwt' Hview).
Qed.

End Collation.

Lemma view_is_a_fixed_point_witness :
  exists view,
    computeView ExampleHost.localeCompare ExampleHost.sampleView
      ExampleHost.sampleQuery = Ok view
    /\ applyFilters ExampleHost.sampleQuery view = Ok view
    /\ computeView ExampleHost.localeCompare view ExampleHost.sampleQuery
       = Ok view.
Proof.
  apply (@view_is_a_fixed_point ExampleHost.localeCompare
           ViewFacts.binary_total ViewFacts.binary_trans
           ExampleHost.sampleView ExampleHost.sampleQuery).
  reflexivity.
Defined.

(** *** Letter case *)

Lemma lower_nonEmpty (s s' : string) :
  lower s = lower s' -> nonEmpty s = nonEmpty s'.
Proof. destruct s, s'; simpl; intros H; try discriminate; reflexivity. Qed.

Lemma matchesCategory_lower (v : jsval) (wanted wanted' : string) :
  lower wanted = lower wanted' ->
  matchesCategory v wanted = matchesCategory v wanted'.
Proof. unfold matchesCategory. intros ->. reflexivity. Qed.

Lemma sameUpToCase_fields (q q' : query) :
  sameUpToCase q q' = true ->
  activeFilter q = activeFilter q'
  /\ sortType q = sortType q'
  /\ lower (searchQuery q) = lower (searchQuery q')
  /\ lower (planTypeFilter q) = lower (planTypeFilter q')
  /\ lower (contractTypeFilter q) = lower (contractTypeFilter q')
  /\ lower (regionFilter q) = lower (regionFilter q').
Proof.
  unfold sameUpToCase. intros H.
  apply andb_prop in H. destruct H as [H Hr].
  apply andb_prop in H. destruct H as [H Hc].
  apply andb_prop in H. destruct H as [H Hp].
  apply andb_prop in H. destruct H as [H Hs].
  apply andb_prop in H. destruct H as [Haf Hkey].
  rewrite String.eqb_eq in *. repeat split; assumption.
Qed.

Lemma runStage_case (q q' : query) (st : stage) (l : list customer) :
  sameUpToCase q q' = true -> runStage q st l = runStage q' st l.
Proof.
  intros H. apply sameUpToCase_fields in H.
  destruct H as (Haf & _ & Hs & Hp & Hc & Hr).
  unfold runStage. destruct st; simpl.
  - rewrite Haf. reflexivity.
  - rewrite (lower_nonEmpty _ _ Hp). destruct (nonEmpty _); [ | reflexivity ].
    apply ViewFacts.filterM_ext. intros c. unfold planPred.
    rewrite (lower_nonEmpty _ _ Hp). destruct (nonEmpty _); [ | reflexivity ].
    apply matchesCategory_lower. assumption.
  - rewrite (lower_nonEmpty _ _ Hc). destruct (nonEmpty _); [ | reflexivity ].
    apply ViewFacts.filterM_ext. intros c. unfold contractPred.
    rewrite (lower_nonEmpty _ _ Hc). destruct (nonEmpty _); [ | reflexivity ].
    apply matchesCategory_lower. assumption.
  - rewrite (lower_nonEmpty _ _ Hr). destruct (nonEmpty _); [ | reflexivity ].
    apply ViewFacts.filterM_ext. intros c. unfold regionPred.
    rewrite (lower_nonEmpty _ _ Hr). destruct (nonEmpty _); [ | reflexivity ].
    apply matchesCategory_lower. assumption.
  - rewrite (lower_nonEmpty _ _ Hs). destruct (nonEmpty _); [ | reflexivity ].
    apply ViewFacts.filterM_ext. intros c. unfold searchPred.
    rewrite (lower_nonEmpty _ _ Hs), Hs. reflexivity.
Qed.

Section Case.

Variable localeCompare : string -> string -> Z.

(** X10. The search text and the three category filters are read without
    regard to letter case: two queries with the same tier filter and sort
    key, whose search texts and category filters are equal once put in
    lower case, give the same result on every list of customers, the same
    view or the same exception. *)
Theorem view_ignores_letter_case_of_query (q q' : query)
  (l : list customer) :
  sameUpToCase q q' = true ->
  computeView localeCompare l q = computeView localeCompare l q'.
Proof.
  intros H. unfold computeView.
  rewrite !ViewFacts.applyFilters_stages.
  assert (Hstages : forall sts l0,
             runStages q sts l0 = runStages q' sts l0).
  { induction sts as [ | st sts IH ]; intros l0; simpl; [ reflexivity | ].
    rewrite (@runStage_case q q' st l0 H).
    apply ViewFacts.bind_ext. intros l1. apply IH. }
  rewrite Hstages.
  apply sameUpToCase_fields in H. destruct H as (_ & Hkey & _).
  rewrite Hkey. reflexivity.
Qed.

End Case.

Lemma view_ignores_letter_case_of_query_witness :
  computeView ExampleHost.localeCompare ExampleHost.sampleView
    ExampleHost.sampleQuery
  = computeView ExampleHost.localeCompare ExampleHost.sampleView
      (mkQuery "critical" "CUSTOMER-1" "id-asc" "" "Month-To-Month" "").
Proof.
  apply (@view_ignores_letter_case_of_query ExampleHost.localeCompare
           ExampleHost.sampleQuery
           (mkQuery "critical" "CUSTOMER-1" "id-asc" "" "Month-To-Month" "")
           ExampleHost.sampleView).
  reflexivity.
Defined.

End ViewExtra.

(* ===================================================================== *)
(** ** Layout of the grid: columns, rows, heights *)
(* ===================================================================== *)

Module GridExtra.

Import Grid GridLayout.

(** *** Columns *)


(** *** Rows *)

Lemma skipn_nth_error (A : Type) (l : list A) :
  forall i x, nth_error l i = Some x -> skipn i l = x :: skipn (S i) l.
Proof.
  induction l as [ | a l IH ]; intros i x H; destruct i as [ | i ];
    try discriminate.
  - inversion H. reflexivity.
  - simpl in H. change (skipn i l = x :: skipn (S i) l). apply IH.
    assumption.
Qed.

Lemma firstn_add (A : Type) (a b : nat) (l : list A) :
  firstn (a + b) l = firstn a l ++ firstn b (skipn a l).
Proof.
  revert l. induction a as [ | a IH ]; intros l; [ reflexivity | ].
  destruct l as [ | x l ]; simpl.
  - rewrite firstn_nil. reflexivity.
  - rewrite IH. reflexivity.
Qed.

(** The cards of the loop are those of the next [count] customers. *)
Lemma rowLoop_customers customers columnCount w expandedCardId rowIndex :
  forall count colIndex,
    map customer_of
      (rowLoop customers columnCount w expandedCardId rowIndex colIndex count)
    = firstn count (skipn (rowIndex * columnCount + colIndex) customers).
Proof.
  induction count as [ | count IH ]; intros colIndex; [ reflexivity | ].
  simpl rowLoop.
  destruct (Nat.leb_spec (List.length customers)
              (rowIndex * columnCount + colIndex)) as [ Hout | Hin ].
  - rewrite skipn_all2 by assumption. reflexivity.
  - destruct (nth_error customers (rowIndex * columnCount + colIndex))
      as [ c | ] eqn:Hc.
    + rewrite (skipn_nth_error _ _ Hc). simpl. rewrite IH.
      rewrite Nat.add_succ_r. reflexivity.
    + apply nth_error_None in Hc. lia.
Qed.

Lemma Row_customers customers columnCount w expandedCardId rowIndex :
  map customer_of (Row customers columnCount w expandedCardId rowIndex)
  = firstn columnCount (skipn (rowIndex * columnCount) customers).
Proof.
  unfold Row. rewrite rowLoop_customers, Nat.add_0_r. reflexivity.
Qed.

(** What each card of the loop is. *)
Lemma rowLoop_In customers columnCount w expandedCardId rowIndex card :
  forall count colIndex,
    In card
      (rowLoop customers columnCount w expandedCardId rowIndex colIndex count)
    <-> exists k c,
          (k < count)%nat
          /\ nth_error customers (rowIndex * columnCount + colIndex + k)
             = Some c
          /\ card
             = mkCard c (strict_equal expandedCardId (id c)) w
                 (if (colIndex + k <? columnCount - 1)%nat then 24%Z
                  else 0%Z).
Proof.
  induction count as [ | count IH ]; intros colIndex.
  - simpl. split; [ contradiction | ]. intros (k & c & Hk & _). lia.
  - simpl rowLoop.
    destruct (Nat.leb_spec (List.length customers)
                (rowIndex * columnCount + colIndex)) as [ Hout | Hin ].
    + split; [ contradiction | ]. intros (k & c & _ & Hc & _).
      assert (Hsome : nth_error customers
                        (rowIndex * columnCount + colIndex + k) <> None)
        by congruence.
      apply nth_error_Some in Hsome. lia.
    + destruct (nth_error customers (rowIndex * columnCount + colIndex))
        as [ c0 | ] eqn:Hc0; [ | apply nth_error_None in Hc0; lia ].
      simpl. rewrite IH. split.
      * intros [ Heq | (k & c & Hk & Hc & Hcard) ].
        -- exists 0%nat, c0. rewrite !Nat.add_0_r.
           split; [ lia | ]. split; [ assumption | ]. symmetry. assumption.
        -- exists (S k), c. split; [ lia | ].
           replace (rowIndex * columnCount + colIndex + S k)%nat
             with (rowIndex * columnCount + S colIndex + k)%nat by lia.
           replace (colIndex + S k)%nat with (S colIndex + k)%nat by lia.
           auto.
      * intros (k & c & Hk & Hc & Hcard). destruct k as [ | k ].
        -- left. rewrite !Nat.add_0_r in *.
           assert (c = c0) by congruence. subst c. symmetry. assumption.
        -- right. exists k, c. split; [ lia | ].
           replace (rowIndex * columnCount + S colIndex + k)%nat
             with (rowIndex * columnCount + colIndex + S k)%nat by lia.
           replace (S colIndex + k)%nat with (colIndex + S k)%nat by lia.
           auto.
Qed.

Lemma rowCount_bounds (customers : list customer) (columnCount : nat) :
  (1 <= columnCount)%nat ->
  (0 <= rowCount customers columnCount)%Z
  /\ (Z.of_nat (List.length customers)
      <= rowCount customers columnCount * Z.of_nat columnCount)%Z
  /\ ((rowCount customers columnCount - 1) * Z.of_nat columnCount
      < Z.of_nat (List.length customers))%Z.
Proof.
  intros Hc. unfold rowCount.
  set (n := Z.of_nat (List.length customers)).
  set (c := Z.of_nat columnCount).
  assert (Hcpos : (0 < inject_Z c)%Q).
  { change 0%Q with (inject_Z 0). rewrite <- Zlt_Qlt. lia. }
  assert (Hn : (0 <= inject_Z n)%Q).
  { change 0%Q with (inject_Z 0). rewrite <- Zle_Qle. lia. }
  pose proof (Qle_ceiling (inject_Z n / inject_Z c)) as Hup.
  pose proof (Qceiling_lt (inject_Z n / inject_Z c)) as Hlow.
  set (k := Qceiling (inject_Z n / inject_Z c)) in *.
  assert (Hdiv : (inject_Z n / inject_Z c * inject_Z c == inject_Z n)%Q).
  { field. intros Hz. rewrite Hz in Hcpos. apply (Qlt_irrefl 0). exact Hcpos. }
  assert (Hup' : (inject_Z n <= inject_Z k * inject_Z c)%Q).
  { rewrite <- Hdiv. apply Qmult_le_compat_r; [ exact Hup | ].
    apply Qlt_le_weak. assumption. }
  assert (Hlow' : (inject_Z (k - 1) * inject_Z c < inject_Z n)%Q).
  { rewrite <- Hdiv. apply Qmult_lt_compat_r; assumption. }
  rewrite <- inject_Z_mult in Hup', Hlow'.
  rewrite <- Zle_Qle in Hup'. rewrite <- Zlt_Qlt in Hlow'.
  split; [ | split; assumption ].
  assert (Hq : (0 <= inject_Z n / inject_Z c)%Q).
  { apply Qle_shift_div_l; [ assumption | ]. lra. }
  assert (Hk : (inject_Z 0 <= inject_Z k)%Q).
  { change (inject_Z 0) with 0%Q. lra. }
  rewrite <- Zle_Qle in Hk. exact Hk.
Qed.

Lemma concat_rows (A : Type) (l : list A) (c : nat) :
  forall n,
    List.concat (map (fun r => firstn c (skipn (r * c) l)) (seq 0 n))
    = firstn (n * c) l.
Proof.
  induction n as [ | n IH ]; [ reflexivity | ].
  rewrite seq_S, map_app, concat_app, IH. simpl.
  rewrite app_nil_r, <- firstn_add. f_equal. lia.
Qed.

(** X12. With at least one column, the rows [0] to [rowCount - 1] show
    every customer of the view exactly once and in order: the customers of
    their cards, row after row, are the view.  None of these rows is empty
    and none has more cards than there are columns; a row from [rowCount]
    on has no card; and [rowCount] is zero exactly for the empty view. *)
Theorem rows_show_each_customer_once
  (customers : list customer) (columnCount : nat) (w : Q)
  (expandedCardId : jsval) :
  (1 <= columnCount)%nat ->
  List.concat
    (map (fun r => map customer_of
                     (Row customers columnCount w expandedCardId r))
         (seq 0 (Z.to_nat (rowCount customers columnCount))))
  = customers
  /\ (forall r,
        (Z.of_nat r < rowCount customers columnCount)%Z ->
        Row customers columnCount w expandedCardId r <> []
        /\ (List.length (Row customers columnCount w expandedCardId r)
            <= columnCount)%nat)
  /\ (forall r,
        (rowCount customers columnCount <= Z.of_nat r)%Z ->
        Row customers columnCount w expandedCardId r = [])
  /\ (rowCount customers columnCount = 0%Z <-> customers = []).
Proof.
  intros Hc.
  destruct (rowCount_bounds customers Hc) as (H0 & Hup & Hlow).
  set (n := rowCount customers columnCount) in *.
  assert (Hrows : forall r,
             map customer_of (Row customers columnCount w expandedCardId r)
             = firstn columnCount (skipn (r * columnCount) customers))
    by (intros r; apply Row_customers).
  split; [ | split; [ | split ] ].
  - rewrite (map_ext _ _ Hrows), concat_rows.
    apply firstn_all2. nia.
  - intros r Hr.
    assert (Hin : (r * columnCount < List.length customers)%nat) by nia.
    split.
    + intros Hnil. specialize (Hrows r). rewrite Hnil in Hrows. simpl in Hrows.
      destruct (nth_error customers (r * columnCount)) as [ c | ] eqn:Hnth;
        [ | apply nth_error_None in Hnth; lia ].
      rewrite (skipn_nth_error _ _ Hnth) in Hrows.
      destruct columnCount; [ lia | discriminate ].
    + rewrite <- (length_map customer_of), Hrows. apply firstn_le_length.
  - intros r Hr.
    assert (Hout : (List.length customers <= r * columnCount)%nat) by nia.
    specialize (Hrows r). rewrite skipn_all2, firstn_nil in Hrows by assumption.
    destruct (Row customers columnCount w expandedCardId r);
      [ reflexivity | discriminate ].
  - split.
    + intros Hn. destruct customers as [ | c l ]; [ reflexivity | ].
      simpl List.length in *. nia.
    + intros Hnil. rewrite Hnil in Hlow. simpl in Hlow.
      assert (Hcz : (0 < Z.of_nat columnCount)%Z) by lia.
      destruct (Z.eq_dec n 0) as [ | Hne ]; [ assumption | ].
      exfalso. assert (Hn1 : (0 <= n - 1)%Z) by lia. nia.
Qed.

Lemma rows_show_each_customer_once_witness :
  List.concat
    (map (fun r => map customer_of
                     (Row ExampleHost.nineCustomers 4 290 JNull r))
         (seq 0 (Z.to_nat (rowCount ExampleHost.nineCustomers 4))))
  = ExampleHost.nineCustomers
  /\ (forall r,
        (Z.of_nat r < rowCount ExampleHost.nineCustomers 4)%Z ->
        Row ExampleHost.nineCustomers 4 290 JNull r <> []
        /\ (List.length (Row ExampleHost.nineCustomers 4 290 JNull r)
            <= 4)%nat)
  /\ (forall r,
        (rowCount ExampleHost.nineCustomers 4 <= Z.of_nat r)%Z ->
        Row ExampleHost.nineCustomers 4 290 JNull r = [])
  /\ (rowCount ExampleHost.nineCustomers 4 = 0%Z
      <-> ExampleHost.nineCustomers = []).
Proof.
  apply (@rows_show_each_customer_once ExampleHost.nineCustomers 4 290 JNull).
  lia.
Defined.

(** Nine customers in four columns: rows of four, four and one. *)
Example nine_customers_in_three_rows :
  rowCount ExampleHost.nineCustomers 4 = 3%Z
  /\ map (fun r => List.length (Row ExampleHost.nineCustomers 4 290 JNull r))
         [0; 1; 2; 3]%nat
     = [4; 4; 1; 0]%nat.
Proof. split; reflexivity. Qed.

(** *** Widths *)




(** *** Heights *)

Lemma strict_equal_sym (a b : jsval) : strict_equal a b = strict_equal b a.
Proof.
  destruct a, b; simpl; try reflexivity.
  - destruct b, b0; reflexivity.
  - destruct (Qeq_bool n n0) eqn:H, (Qeq_bool n0 n) eqn:H'; try reflexivity.
    + apply Qeq_bool_iff in H. symmetry in H. apply Qeq_bool_iff in H.
      congruence.
    + apply Qeq_bool_iff in H'. symmetry in H'. apply Qeq_bool_iff in H'.
      congruence.
  - apply String.eqb_sym.
Qed.

Lemma strict_equal_same (a b e : jsval) :
  strict_equal a e = true -> strict_equal b e = true ->
  strict_equal a b = true.
Proof.
  destruct a, e; simpl; try discriminate; destruct b; simpl;
    try discriminate; auto.
  - intros H H'. apply Bool.eqb_prop in H, H'. subst.
    apply Bool.eqb_reflx.
  - intros H H'. apply Qeq_bool_iff in H, H'. apply Qeq_bool_iff.
    rewrite H, H'. reflexivity.
  - intros H H'. apply String.eqb_eq in H, H'. subst. apply String.eqb_refl.
Qed.

Lemma getItemSize_tall customers columnCount expandedCardId r :
  getItemSize customers columnCount expandedCardId r = EXPANDED_ROW_HEIGHT
  <-> exists i, (r * columnCount <= i < r * columnCount + columnCount)%nat
                /\ expandedAt customers expandedCardId i.
Proof.
  unfold getItemSize. rewrite GridFacts.scanRow_expanded.
  split; intros (i & Hi & Hex); exists i; (split; [ | assumption ]).
  - lia.
  - destruct Hex as (c & Hc & _).
    assert (Hlen : (i < List.length customers)%nat)
      by (apply nth_error_Some; congruence).
    lia.
Qed.

Lemma getItemSize_base customers columnCount expandedCardId r :
  getItemSize customers columnCount expandedCardId r <> EXPANDED_ROW_HEIGHT ->
  getItemSize customers columnCount expandedCardId r = BASE_ROW_HEIGHT.
Proof.
  unfold getItemSize. intros H.
  match goal with
  | |- scanRow ?cs ?e ?i ?n = _ =>
      destruct (GridFacts.scanRow_cases cs e n i) as [ Hb | Hb ]
  end; [ assumption | contradiction ].
Qed.

(** X14. The height [getItemSize] gives to a row and the cards [Row]
    renders for it agree: the row has the expanded height exactly when one
    of its cards is rendered expanded, for every view, column count,
    expanded id and row. *)
Theorem tall_row_renders_an_expanded_card
  (customers : list customer) (columnCount : nat) (w : Q)
  (expandedCardId : jsval) (r : nat) :
  getItemSize customers columnCount expandedCardId r = EXPANDED_ROW_HEIGHT
  <-> exists card,
        In card (Row customers columnCount w expandedCardId r)
        /\ isExpanded card = true.
Proof.
  rewrite getItemSize_tall. unfold Row. split.
  - intros (i & Hi & c & Hc & He).
    exists (mkCard c (strict_equal expandedCardId (id c)) w
              (if (0 + (i - r * columnCount) <? columnCount - 1)%nat
               then 24%Z else 0%Z)).
    split; [ | simpl; rewrite strict_equal_sym; assumption ].
    apply rowLoop_In. exists (i - r * columnCount)%nat, c.
    split; [ lia | ]. split; [ | reflexivity ].
    replace (r * columnCount + 0 + (i - r * columnCount))%nat with i by lia.
    assumption.
  - intros (card & Hin & He). apply rowLoop_In in Hin.
    destruct Hin as (k & c & Hk & Hc & ->). simpl in He.
    exists (r * columnCount + 0 + k)%nat. split; [ lia | ].
    exists c. split; [ assumption | ].
    rewrite strict_equal_sym. assumption.
Qed.

Lemma distinctIds_nth (customers : list customer) :
  distinctIds customers = true ->
  forall i j a b,
    nth_error customers i = Some a ->
    nth_error customers j = Some b ->
    strict_equal (id a) (id b) = true ->
    i = j.
Proof.
  induction customers as [ | c l IH ]; intros Hd i j a b Ha Hb He.
  - destruct i; discriminate.
  - simpl in Hd. apply andb_prop in Hd. destruct Hd as [Hc Hl].
    apply negb_true_iff in Hc.
    assert (Hnot : forall d, In d l -> strict_equal (id c) (id d) = false).
    { intros d Hdl. destruct (strict_equal (id c) (id d)) eqn:E;
        [ | reflexivity ].
      rewrite <- Hc. symmetry. apply existsb_exists. eauto. }
    destruct i as [ | i ], j as [ | j ]; simpl in Ha, Hb.
    + reflexivity.
    + inversion Ha; subst a. apply nth_error_In in Hb.
      rewrite (Hnot _ Hb) in He. discriminate.
    + inversion Hb; subst b. apply nth_error_In in Ha.
      rewrite strict_equal_sym, (Hnot _ Ha) in He. discriminate.
    + f_equal. eapply IH; eassumption.
Qed.

Lemma row_of_index (columnCount r i : nat) :
  (r * columnCount <= i < r * columnCount + columnCount)%nat ->
  r = (i / columnCount)%nat.
Proof.
  intros H. assert (Hc : columnCount <> 0%nat) by lia.
  apply Nat.div_unique with (r := (i - r * columnCount)%nat); lia.
Qed.

Lemma index_in_its_row (columnCount i : nat) :
  (1 <= columnCount)%nat ->
  (i / columnCount * columnCount <= i
   < i / columnCount * columnCount + columnCount)%nat.
Proof.
  intros Hc. assert (Hnz : columnCount <> 0%nat) by lia.
  pose proof (Nat.div_mod i columnCount Hnz) as Hdm.
  pose proof (Nat.mod_upper_bound i columnCount Hnz) as Hub.
  lia.
Qed.

(** X15. When no two entities of the view have the same id and there is at
    least one column, the row of the expanded entity is the only row with
    the expanded height: for the entity at index [i], row [i / columnCount]
    and no other. *)
Theorem only_the_row_of_the_expanded_card_is_tall
  (customers : list customer) (columnCount : nat) (expandedCardId : jsval)
  (i : nat) (c : customer) :
  (1 <= columnCount)%nat ->
  distinctIds customers = true ->
  nth_error customers i = Some c ->
  strict_equal (id c) expandedCardId = true ->
  forall r,
    getItemSize customers columnCount expandedCardId r = EXPANDED_ROW_HEIGHT
    <-> r = (i / columnCount)%nat.
Proof.
  intros Hc Hd Hi He r. rewrite getItemSize_tall. split.
  - intros (j & Hj & b & Hb & Heb).
    assert (j = i).
    { eapply (distinctIds_nth _ Hd); try eassumption.
      eapply strict_equal_same; eassumption. }
    subst j. apply row_of_index. assumption.
  - intros ->. exists i. split; [ apply index_in_its_row; assumption | ].
    exists c. split; assumption.
Qed.

Lemma only_the_row_of_the_expanded_card_is_tall_witness :
  (getItemSize ExampleHost.nineCustomers 4 (JStr "customer-7") 1
   = EXPANDED_ROW_HEIGHT
   <-> 1%nat = (6 / 4)%nat)
  /\ (getItemSize ExampleHost.nineCustomers 4 (JStr "customer-7") 2
      = EXPANDED_ROW_HEIGHT
      <-> 2%nat = (6 / 4)%nat).
Proof.
  split;
    apply (@only_the_row_of_the_expanded_card_is_tall
             ExampleHost.nineCustomers 4 (JStr "customer-7") 6
             (ExampleHost.sample "customer-7" 50));
    solve [ lia | reflexivity ].
Defined.

(** *** The row given to [resetAfterIndex] *)

Lemma findIndexFrom_Some (A : Type) (p : A -> bool) (l : list A) :
  forall k i,
    findIndexFrom p k l = Some i ->
    (k <= i)%nat
    /\ (exists x, nth_error l (i - k) = Some x /\ p x = true)
    /\ (forall j y, (j < i - k)%nat -> nth_error l j = Some y -> p y = false).
Proof.
  induction l as [ | a l IH ]; intros k i H; simpl in H; [ discriminate | ].
  destruct (p a) eqn:Hp.
  - inversion H; subst i. rewrite Nat.sub_diag.
    split; [ lia | ]. split; [ exists a; auto | ]. intros j y Hj. lia.
  - apply IH in H. destruct H as (Hk & (x & Hx & Hpx) & Hfirst).
    split; [ lia | ].
    replace (i - k)%nat with (S (i - S k)) by lia.
    split; [ exists x; auto | ].
    intros j y Hj Hy. destruct j as [ | j ].
    + simpl in Hy. inversion Hy; subst y. assumption.
    + simpl in Hy. apply (Hfirst j); [ lia | assumption ].
Qed.

Lemma findIndexFrom_None (A : Type) (p : A -> bool) (l : list A) :
  forall k, findIndexFrom p k l = None -> forall x, In x l -> p x = false.
Proof.
  induction l as [ | a l IH ]; intros k H x Hx; [ contradiction | ].
  simpl in H. destruct (p a) eqn:Hp; [ discriminate | ].
  destruct Hx as [ <- | Hx ]; [ assumption | ]. eapply IH; eassumption.
Qed.

Lemma floor_of_quotient (i columnCount : nat) :
  Qfloor (inject_Z (Z.of_nat i) / inject_Z (Z.of_nat columnCount))
  = Z.of_nat (i / columnCount).
Proof. rewrite <- Zdiv_Qdiv, Nat2Z.inj_div. reflexivity. Qed.

(** X16. With at least one column, the row the effect gives to
    [resetAfterIndex] is never negative, every row before it has the base
    height, and when the expanded id is truthy and some row has the expanded
    height, the row given is the first such row. *)
Theorem reset_row_is_the_first_tall_row
  (customers : list customer) (columnCount : nat) (expandedCardId : jsval) :
  (1 <= columnCount)%nat ->
  (0 <= resetRow customers columnCount expandedCardId)%Z
  /\ (forall r,
        (Z.of_nat r < resetRow customers columnCount expandedCardId)%Z ->
        getItemSize customers columnCount expandedCardId r = BASE_ROW_HEIGHT)
  /\ (truthy expandedCardId = true ->
      forall r,
        getItemSize customers columnCount expandedCardId r
        = EXPANDED_ROW_HEIGHT ->
        getItemSize customers columnCount expandedCardId
          (Z.to_nat (resetRow customers columnCount expandedCardId))
        = EXPANDED_ROW_HEIGHT
        /\ (resetRow customers columnCount expandedCardId <= Z.of_nat r)%Z).
Proof.
  intros Hc. unfold resetRow, findIndex.
  destruct (truthy expandedCardId) eqn:Ht;
    [ | split; [ lia | split; [ intros; lia | discriminate ] ] ].
  destruct (findIndexFrom
              (fun customer => strict_equal (id customer) expandedCardId)
              0 customers) as [ i | ] eqn:Hfind.
  - rewrite floor_of_quotient.
    apply findIndexFrom_Some in Hfind.
    destruct Hfind as (_ & (x & Hx & Hpx) & Hfirst).
    rewrite Nat.sub_0_r in *.
    assert (Hlater : forall r,
               getItemSize customers columnCount expandedCardId r
               = EXPANDED_ROW_HEIGHT ->
               (i / columnCount <= r)%nat).
    { intros r Hr. apply getItemSize_tall in Hr.
      destruct Hr as (j & Hj & y & Hy & Hpy).
      assert (Hij : (i <= j)%nat).
      { destruct (Nat.le_gt_cases i j) as [ | Hlt ]; [ assumption | ].
        rewrite (Hfirst _ _ Hlt Hy) in Hpy. discriminate. }
      rewrite (row_of_index _ _ Hj).
      apply Nat.Div0.div_le_mono. assumption. }
    split; [ lia | ]. split.
    + intros r Hr. apply getItemSize_base. intros Htall.
      apply Hlater in Htall. lia.
    + intros _ r Hr. split; [ | apply Hlater in Hr; lia ].
      rewrite Nat2Z.id. apply getItemSize_tall. exists i.
      split; [ apply index_in_its_row; assumption | ].
      exists x. split; assumption.
  - split; [ lia | ]. split; [ intros; lia | ].
    intros _ r Hr. exfalso. apply getItemSize_tall in Hr.
    destruct Hr as (j & _ & y & Hy & Hpy).
    apply nth_error_In in Hy.
    rewrite (findIndexFrom_None _ _ _ Hfind _ Hy) in Hpy. discriminate.
Qed.

Lemma reset_row_is_the_first_tall_row_witness :
  (0 <= resetRow ExampleHost.nineCustomers 4 (JStr "customer-7"))%Z
  /\ (forall r,
        (Z.of_nat r < resetRow ExampleHost.nineCustomers 4 (JStr "customer-7"))%Z ->
        getItemSize ExampleHost.nineCustomers 4 (JStr "customer-7") r
        = BASE_ROW_HEIGHT)
  /\ (truthy (JStr "customer-7") = true ->
      forall r,
        getItemSize ExampleHost.nineCustomers 4 (JStr "customer-7") r
        = EXPANDED_ROW_HEIGHT ->
        getItemSize ExampleHost.nineCustomers 4 (JStr "customer-7")
          (Z.to_nat (resetRow ExampleHost.nineCustomers 4 (JStr "customer-7")))
        = EXPANDED_ROW_HEIGHT
        /\ (resetRow ExampleHost.nineCustomers 4 (JStr "customer-7")
            <= Z.of_nat r)%Z).
Proof.
  apply (@reset_row_is_the_first_tall_row ExampleHost.nineCustomers 4
           (JStr "customer-7")).
  lia.
Defined.

Lemma stringIds_nth (customers : list customer) (i : nat) (c : customer) :
  stringIds customers = true ->
  nth_error customers i = Some c ->
  exists s, id c = JStr s /\ s <> "".
Proof.
  unfold stringIds. rewrite forallb_forall. intros H Hi.
  apply nth_error_In in Hi. apply H in Hi.
  apply andb_prop in Hi. destruct Hi as [Hs Ht].
  destruct (id c) as [ | | | | s | | ]; try discriminate.
  exists s. split; [ reflexivity | ].
  simpl in Ht. apply negb_true_iff in Ht. apply String.eqb_neq. assumption.
Qed.

(** X17. When the expansion moves from one card to a card in a later row
    (ids distinct, non-empty strings; [handleCardToggle] called with the
    id of the second card while the first is expanded), the row of the
    first card changes height, from expanded to base, but the row given to
    [resetAfterIndex] is the row of the second card, which comes after
    it. *)
Theorem reset_row_follows_the_collapsed_row
  (customers : list customer) (columnCount : nat) (i j : nat)
  (a b : customer) :
  (1 <= columnCount)%nat ->
  distinctIds customers = true ->
  stringIds customers = true ->
  nth_error customers i = Some a ->
  nth_error customers j = Some b ->
  (i / columnCount < j / columnCount)%nat ->
  Page.handleCardToggle (id a) (id b) = id b
  /\ getItemSize customers columnCount (id a) (i / columnCount)
     = EXPANDED_ROW_HEIGHT
  /\ getItemSize customers columnCount
       (Page.handleCardToggle (id a) (id b)) (i / columnCount)
     = BASE_ROW_HEIGHT
  /\ resetRow customers columnCount (Page.handleCardToggle (id a) (id b))
     = Z.of_nat (j / columnCount)
  /\ (Z.of_nat (i / columnCount)
      < resetRow customers columnCount
          (Page.handleCardToggle (id a) (id b)))%Z.
Proof.
  intros Hc Hd Hs Hi Hj Hrows.
  destruct (stringIds_nth _ _ Hs Hi) as (sa & Hsa & Hna).
  destruct (stringIds_nth _ _ Hs Hj) as (sb & Hsb & Hnb).
  assert (Haa : strict_equal (id a) (id a) = true)
    by (rewrite Hsa; simpl; apply String.eqb_refl).
  assert (Hbb : strict_equal (id b) (id b) = true)
    by (rewrite Hsb; simpl; apply String.eqb_refl).
  assert (Hab : strict_equal (id a) (id b) = false).
  { destruct (strict_equal (id a) (id b)) eqn:E; [ | reflexivity ].
    assert (i = j) by (eapply (distinctIds_nth _ Hd); eassumption).
    subst j. lia. }
  assert (Htoggle : Page.handleCardToggle (id a) (id b) = id b).
  { unfold Page.handleCardToggle. rewrite Hab. reflexivity. }
  rewrite Htoggle.
  assert (Hreset : resetRow customers columnCount (id b)
                   = Z.of_nat (j / columnCount)).
  { unfold resetRow, findIndex.
    assert (Ht : truthy (id b) = true).
    { rewrite Hsb. simpl. apply negb_true_iff. apply String.eqb_neq.
      assumption. }
    rewrite Ht.
    destruct (findIndexFrom
                (fun customer => strict_equal (id customer) (id b))
                0 customers) as [ k | ] eqn:Hfind.
    - rewrite floor_of_quotient.
      apply findIndexFrom_Some in Hfind.
      destruct Hfind as (_ & (x & Hx & Hpx) & _).
      rewrite Nat.sub_0_r in Hx.
      assert (k = j) by (eapply (distinctIds_nth _ Hd); eassumption).
      subst k. reflexivity.
    - apply nth_error_In in Hj.
      rewrite (findIndexFrom_None _ _ _ Hfind _ Hj) in Hbb. discriminate. }
  split; [ reflexivity | ]. split; [ | split; [ | split ] ].
  - apply getItemSize_tall. exists i.
    split; [ apply index_in_its_row; assumption | ].
    exists a. split; assumption.
  - apply getItemSize_base. intros Htall. apply getItemSize_tall in Htall.
    destruct Htall as (k & Hk & y & Hy & Hpy).
    assert (k = j) by (eapply (distinctIds_nth _ Hd); eassumption).
    subst k. apply row_of_index in Hk. lia.
  - exact Hreset.
  - rewrite Hreset. lia.
Qed.

Lemma reset_row_follows_the_collapsed_row_witness :
  Page.handleCardToggle (id (ExampleHost.sample "customer-2" 50))
    (id (ExampleHost.sample "customer-7" 50))
  = id (ExampleHost.sample "customer-7" 50)
  /\ getItemSize ExampleHost.nineCustomers 4
       (id (ExampleHost.sample "customer-2" 50)) (1 / 4)
     = EXPANDED_ROW_HEIGHT
  /\ getItemSize ExampleHost.nineCustomers 4
       (Page.handleCardToggle (id (ExampleHost.sample "customer-2" 50))
          (id (ExampleHost.sample "customer-7" 50))) (1 / 4)
     = BASE_ROW_HEIGHT
  /\ resetRow ExampleHost.nineCustomers 4
       (Page.handleCardToggle (id (ExampleHost.sample "customer-2" 50))
          (id (ExampleHost.sample "customer-7" 50)))
     = Z.of_nat (6 / 4)
  /\ (Z.of_nat (1 / 4)
      < resetRow ExampleHost.nineCustomers 4
          (Page.handleCardToggle (id (ExampleHost.sample "customer-2" 50))
             (id (ExampleHost.sample "customer-7" 50))))%Z.
Proof.
  apply (@reset_row_follows_the_collapsed_row ExampleHost.nineCustomers 4
           1 6 (ExampleHost.sample "customer-2" 50)
           (ExampleHost.sample "customer-7" 50)).
  - lia.
  - reflexivity.
  - reflexivity.
  - reflexivity.
  - reflexivity.
  - simpl. lia.
Defined.

(** *** Toggling a card on the page *)

(** X18. On the customer list page, with ids that are distinct non-empty
    strings, after [handleCardToggle] is called with the id of the card at
    index [i], that card is the only expanded one when it was not expanded
    before, and no card is expanded when it was.  After a second call with
    the same id, that card is the only expanded one when it was expanded
    before the two calls, and no card is expanded otherwise: the two calls
    do not bring back another card that was expanded before them. *)
Theorem toggle_expands_one_card_or_none
  (customers : list customer) (expandedCardId : jsval) (i : nat)
  (c : customer) :
  distinctIds customers = true ->
  stringIds customers = true ->
  nth_error customers i = Some c ->
  (forall j d flag,
      nth_error
        (Page.cards customers (Page.handleCardToggle expandedCardId (id c))) j
      = Some (d, flag) ->
      (flag = true
       <-> j = i /\ strict_equal expandedCardId (id c) = false))
  /\ Page.handleCardToggle
       (Page.handleCardToggle expandedCardId (id c)) (id c)
     = (if strict_equal expandedCardId (id c) then id c else JNull)
  /\ (forall j d flag,
        nth_error
          (Page.cards customers
             (Page.handleCardToggle
                (Page.handleCardToggle expandedCardId (id c)) (id c))) j
        = Some (d, flag) ->
        (flag = true
         <-> j = i /\ strict_equal expandedCardId (id c) = true)).
Proof.
  intros Hd Hs Hi.
  destruct (stringIds_nth _ _ Hs Hi) as (sc & Hsc & Hnc).
  assert (Hcc : strict_equal (id c) (id c) = true)
    by (rewrite Hsc; simpl; apply String.eqb_refl).
  assert (Htwice :
            Page.handleCardToggle
              (Page.handleCardToggle expandedCardId (id c)) (id c)
            = (if strict_equal expandedCardId (id c) then id c else JNull)).
  { unfold Page.handleCardToggle.
    destruct (strict_equal expandedCardId (id c)) eqn:He.
    + rewrite Hsc. reflexivity.
    + rewrite Hcc. reflexivity. }
  split; [ | split; [ exact Htwice | ] ].
  - intros j d flag Hj. unfold Page.cards in Hj.
    rewrite nth_error_map in Hj.
    destruct (nth_error customers j) as [ d' | ] eqn:Hd'; [ | discriminate ].
    simpl in Hj. inversion Hj; subst d' flag. clear Hj.
    destruct (stringIds_nth _ _ Hs Hd') as (sd & Hsd & Hnd).
    unfold Page.handleCardToggle.
    destruct (strict_equal expandedCardId (id c)) eqn:He.
    + rewrite Hsd. simpl. split; [ discriminate | ].
      intros [_ Hno]. discriminate.
    + split.
      * intros Heq. split; [ | reflexivity ].
        symmetry. eapply (distinctIds_nth _ Hd); eassumption.
      * intros [-> _]. assert (d = c) by congruence. subst d. assumption.
  - intros j d flag Hj. rewrite Htwice in Hj. unfold Page.cards in Hj.
    rewrite nth_error_map in Hj.
    destruct (nth_error customers j) as [ d' | ] eqn:Hd'; [ | discriminate ].
    simpl in Hj. inversion Hj; subst d' flag. clear Hj.
    destruct (stringIds_nth _ _ Hs Hd') as (sd & Hsd & Hnd).
    destruct (strict_equal expandedCardId (id c)) eqn:He.
    + split.
      * intros Heq. split; [ | reflexivity ].
        symmetry. eapply (distinctIds_nth _ Hd); eassumption.
      * intros [-> _]. assert (d = c) by congruence. subst d. assumption.
    + rewrite Hsd. simpl. split; [ discriminate | ].
      intros [_ Hno]. discriminate.
Qed.

Lemma toggle_expands_one_card_or_none_witness :
  (forall j d flag,
      nth_error
        (Page.cards ExampleHost.nineCustomers
           (Page.handleCardToggle (JStr "customer-2")
              (id (ExampleHost.sample "customer-7" 50)))) j
      = Some (d, flag) ->
      (flag = true
       <-> j = 6%nat
           /\ strict_equal (JStr "customer-2")
                (id (ExampleHost.sample "customer-7" 50)) = false))
  /\ Page.handleCardToggle
       (Page.handleCardToggle (JStr "customer-2")
          (id (ExampleHost.sample "customer-7" 50)))
       (id (ExampleHost.sample "customer-7" 50))
     = (if strict_equal (JStr "customer-2")
             (id (ExampleHost.sample "customer-7" 50))
        then id (ExampleHost.sample "customer-7" 50) else JNull)
  /\ (forall j d flag,
        nth_error
          (Page.cards ExampleHost.nineCustomers
             (Page.handleCardToggle
                (Page.handleCardToggle (JStr "customer-2")
                   (id (ExampleHost.sample "customer-7" 50)))
                (id (ExampleHost.sample "customer-7" 50)))) j
        = Some (d, flag) ->
        (flag = true
         <-> j = 6%nat
             /\ strict_equal (JStr "customer-2")
                  (id (ExampleHost.sample "customer-7" 50)) = true)).
Proof.
  apply (@toggle_expands_one_card_or_none ExampleHost.nineCustomers
           (JStr "customer-2") 6 (ExampleHost.sample "customer-7" 50)).
  - reflexivity.
  - reflexivity.
  - reflexivity.
Defined.

(** Card 2 expanded, card 7 toggled twice: card 7 is expanded after the
    first call and no card after the second, card 2 included; toggled
    twice when it is the expanded one, card 7 is expanded again. *)
Example two_toggles_of_another_card :
  map snd
      (Page.cards ExampleHost.nineCustomers
         (Page.handleCardToggle (JStr "customer-2") (JStr "customer-7")))
  = [false; false; false; false; false; false; true; false; false]
  /\ map snd
       (Page.cards ExampleHost.nineCustomers
          (Page.handleCardToggle
             (Page.handleCardToggle (JStr "customer-2") (JStr "customer-7"))
             (JStr "customer-7")))
     = repeat false 9
  /\ Page.handleCardToggle
       (Page.handleCardToggle (JStr "customer-7") (JStr "customer-7"))
       (JStr "customer-7")
     = JStr "customer-7".
Proof. repeat split. Qed.

End GridExtra.

(* ===================================================================== *)
(** ** More on the poller and the error banner *)
(* ===================================================================== *)

Module AppExtra.

Import App AppInvariants.

(** *** What a handler leaves of the timers *)

(** The intervals, the start time and the cleanup flag are those of [s]. *)
Lemma kept_setState f s :
  intervals (machine_of (setState f s)) = intervals (machine_of s)
  /\ pollingStartTimeRef (machine_of (setState f s))
     = pollingStartTimeRef (machine_of s)
  /\ pollingCleanup (setState f s) = pollingCleanup s
  /\ requests (machine_of (setState f s)) = requests (machine_of s)
  /\ mounted (setState f s) = mounted s.
Proof. unfold setState. destruct (mounted s) eqn:E; repeat split; auto. Qed.

Lemma react_setState f s :
  react (setState f s) = if mounted s then f (react s) else react s.
Proof. unfold setState. destruct (mounted s); reflexivity. Qed.

Lemma clearAndForget_twice s :
  clearAndForget (clearAndForget s) = clearAndForget s.
Proof.
  unfold clearAndForget at 2 3.
  destruct (pollingIntervalRef (machine_of s)) as [ h | ] eqn:Hr.
  - destruct (h =? 0)%nat eqn:Hh.
    + unfold clearAndForget. rewrite Hr, Hh. reflexivity.
    + reflexivity.
  - unfold clearAndForget. rewrite Hr. reflexivity.
Qed.

(** The effect issues one status check when the task id is a non-empty
    string and none otherwise; it changes nothing of what [useState]
    holds. *)
Lemma pollingEffect_requests now s :
  react (pollingEffect now s) = react s
  /\ mounted (pollingEffect now s) = mounted s
  /\ requests (machine_of (pollingEffect now s))
     = match taskId (react s) with
       | Some id =>
           if View.nonEmpty id
           then StatusCheck id :: requests (machine_of s)
           else requests (machine_of s)
       | None => requests (machine_of s)
       end
  /\ pollingCleanup (pollingEffect now s)
     = match taskId (react s) with
       | Some id => View.nonEmpty id
       | None => false
       end.
Proof.
  unfold pollingEffect.
  set (s1 := if pollingCleanup s then clearAndForget s else s).
  assert (H1 : framed s s1).
  { subst s1. destruct (pollingCleanup s);
      [ apply AppFacts.framed_clearAndForget | repeat split ]. }
  destruct H1 as (Hr & Hm & _ & Hq & _). clearbody s1.
  rewrite Hr.
  destruct (taskId (react s)) as [ id | ];
    [ destruct (View.nonEmpty id) | ].
  - destruct (AppFacts.framed_clearIfSet s1) as (Hr2 & Hm2 & _ & Hq2 & _).
    simpl. rewrite Hr2, Hm2, Hq2, Hr, Hm, Hq. repeat split.
  - simpl. rewrite Hr, Hm, Hq. repeat split.
  - simpl. rewrite Hr, Hm, Hq. repeat split.
Qed.

(** When the effect runs with its cleanup due, or with no interval alive,
    what it leaves polls the current task. *)
Lemma pollsCurrent_pollingEffect now s :
  onePoller s ->
  (intervals (machine_of s) <> [] -> pollingCleanup s = true) ->
  pollsCurrent (pollingEffect now s).
Proof.
  intros (Hn & Ht & _) Hcl.
  set (s0 := if pollingCleanup s then clearAndForget s else s).
  assert (H0 : pollingEffect now s = pollingEffect now s0
               /\ intervals (machine_of s0) = []
               /\ react s0 = react s).
  { subst s0. destruct (pollingCleanup s) eqn:Hc.
    - split; [ | split ].
      + unfold pollingEffect.
        destruct (AppFacts.framed_clearAndForget s) as (_ & _ & Hc' & _).
        rewrite Hc', Hc, clearAndForget_twice. reflexivity.
      + apply (AppFacts.cleared_clearAndForget Ht).
      + apply AppFacts.framed_clearAndForget.
    - split; [ reflexivity | ]. split; [ | reflexivity ].
      destruct (intervals (machine_of s)) as [ | t l ]; [ reflexivity | ].
      assert (false = true) by (apply Hcl; discriminate). discriminate. }
  destruct H0 as (-> & Hi & Hr). clearbody s0.
  destruct (pollingEffect_requests now s0) as (Hreact & _ & _ & Hclean).
  unfold pollsCurrent. intros h id Hin.
  destruct (taskId (react s0)) as [ id0 | ] eqn:Hid.
  - destruct (View.nonEmpty id0) eqn:Hne.
    + destruct (@AppFacts.pollingEffect_start now id0 s0 Hid Hne Hi)
        as (_ & _ & _ & Hi' & _ & Hst & _).
      rewrite Hi' in Hin. destruct Hin as [ Heq | [] ].
      inversion Heq; subst.
      rewrite Hreact, Hst, Hclean. repeat split; auto. discriminate.
    + exfalso. revert Hin. unfold pollingEffect.
      destruct (pollingCleanup s0).
      * destruct (AppFacts.framed_clearAndForget s0) as (Hr0 & _).
        rewrite Hr0, Hid, Hne. simpl.
        rewrite (AppFacts.clearAndForget_idle _ Hi). auto.
      * rewrite Hid, Hne. simpl. rewrite Hi. auto.
  - exfalso.
    destruct (@AppFacts.pollingEffect_idle now s0 Hid)
      as (_ & _ & _ & _ & _ & Hi').
    rewrite (Hi' Hi) in Hin. contradiction.
Qed.

(** A handler either leaves no interval, or leaves the intervals, the start
    time and the cleanup flag as they were. *)
Lemma handle_keeps_or_clears now e s :
  onePoller s ->
  intervals (machine_of (handle now e s)) = []
  \/ (intervals (machine_of (handle now e s)) = intervals (machine_of s)
      /\ pollingStartTimeRef (machine_of (handle now e s))
         = pollingStartTimeRef (machine_of s)
      /\ pollingCleanup (handle now e s) = pollingCleanup s).
Proof.
  intros (Hn & Ht & Hu).
  destruct e as [ f | task_id | message | h | resp | u | ]; simpl.
  - destruct (mounted s); [ left | right; auto ].
    apply (AppFacts.handleFileSelect_cleared f Ht).
  - right. destruct (kept_setState (set_taskId (Some task_id)) s)
      as (? & ? & ? & _). auto.
  - right.
    match goal with
    | |- context [setState ?f (setState ?g s)] =>
        destruct (kept_setState f (setState g s)) as (E1 & E2 & E3 & _);
        destruct (kept_setState g s) as (E4 & E5 & E6 & _)
    end.
    rewrite E1, E2, E3. auto.
  - destruct (liveInterval h s) as [ [ h' id ] | ]; [ | right; auto ].
    unfold intervalCallback.
    destruct (AppFacts.intervalCallback_timers now id Ht) as (Hc & _).
    unfold intervalCallback in Hc.
    destruct (MAX_POLLING_TIME <? elapsed now s)%Z.
    + left. apply Hc. reflexivity.
    + right. unfold pollTaskStatus. simpl. auto.
  - destruct (AppFacts.pollTaskStatusResume_timers resp Ht) as (Hc & _).
    destruct (terminal resp) eqn:Hterm.
    + left. apply Hc. reflexivity.
    + right. destruct resp as [ st result err | message ];
        [ | discriminate ].
      simpl in *. apply orb_false_elim in Hterm. destruct Hterm as [ -> -> ].
      destruct (kept_setState (set_status (Some st)) s) as (? & ? & ? & _).
      auto.
  - destruct (mounted s); [ | right; auto ].
    right. destruct (kept_setState (applyUi u) s) as (? & ? & ? & _). auto.
  - destruct (mounted s); [ left | right; auto ].
    apply (AppFacts.unmount_intervals Ht).
Qed.

Lemma taskId_eqb_eq (a b : option string) :
  taskId_eqb a b = true -> a = b.
Proof.
  destruct a, b; simpl; try discriminate; auto.
  intros H. apply String.eqb_eq in H. congruence.
Qed.

Lemma pollsCurrent_step s te :
  onePoller s -> pollsCurrent s -> pollsCurrent (step s te).
Proof.
  intros Hinv Hcur. destruct te as [ now e ]. unfold step.
  pose proof (AppFacts.onePoller_handle now e Hinv) as Hinv1.
  pose proof (handle_keeps_or_clears now e Hinv) as Hkept.
  set (s1 := handle now e s) in *. clearbody s1.
  assert (Hclean : intervals (machine_of s1) <> [] ->
                   pollingCleanup s1 = true).
  { intros Hne. destruct Hkept as [ Hi | (Hi & _ & Hc) ]; [ contradiction | ].
    rewrite Hc. rewrite Hi in Hne.
    destruct (intervals (machine_of s)) as [ | [ h id ] l ] eqn:Hl;
      [ contradiction | ].
    apply (Hcur h id). rewrite Hl. left. reflexivity. }
  unfold commit.
  destruct (mounted s1) eqn:Hm; simpl.
  - destruct (taskId_eqb (taskId (react s)) (taskId (react s1))) eqn:Hsame;
      simpl.
    + apply taskId_eqb_eq in Hsame.
      destruct Hkept as [ Hi | (Hi & Hst & Hc) ].
      * intros h id Hin. rewrite Hi in Hin. contradiction.
      * intros h id Hin. rewrite Hi in Hin.
        destruct (Hcur h id Hin) as (H1 & H2 & H3 & H4).
        rewrite <- Hsame, Hst, Hc. auto.
    + apply pollsCurrent_pollingEffect; assumption.
  - destruct Hinv1 as (_ & _ & Hu). intros h id Hin.
    rewrite (Hu Hm) in Hin. contradiction.
Qed.

Lemma pollsCurrent_reachable trace : pollsCurrent (run initial trace).
Proof.
  assert (H : forall s, onePoller s -> pollsCurrent s ->
                        pollsCurrent (run s trace)).
  { unfold run. induction trace as [ | te trace IH ]; intros s Hinv Hcur;
      simpl; [ assumption | ].
    apply IH; [ apply AppFacts.onePoller_step | apply pollsCurrent_step ];
      assumption. }
  apply H; [ apply AppFacts.onePoller_initial | ].
  intros h id Hin. contradiction.
Qed.

(** *** Status checks *)

Lemma requests_setState f s :
  requests (machine_of (setState f s)) = requests (machine_of s).
Proof. apply kept_setState. Qed.

Lemma requests_clearAndForget s :
  requests (machine_of (clearAndForget s)) = requests (machine_of s).
Proof. apply AppFacts.framed_clearAndForget. Qed.

Lemma requests_clearIfSet s :
  requests (machine_of (clearIfSet s)) = requests (machine_of s).
Proof. apply AppFacts.framed_clearIfSet. Qed.

Lemma requests_clearRef s :
  requests (machine_of (clearRef s)) = requests (machine_of s).
Proof. apply AppFacts.framed_clearRef. Qed.

Ltac same_requests :=
  repeat first
    [ rewrite requests_setState
    | rewrite requests_clearAndForget
    | rewrite requests_clearIfSet
    | rewrite requests_clearRef ].

Lemma requests_pollTaskStatusResume resp s :
  requests (machine_of (pollTaskStatusResume resp s))
  = requests (machine_of s).
Proof.
  destruct resp as [ st result err | message ]; simpl;
    unfold pollTaskStatusCatch.
  - destruct (st =? "done");
      [ destruct (debugLog result); same_requests; reflexivity | ].
    destruct (st =? "failed"); same_requests; reflexivity.
  - same_requests. reflexivity.
Qed.

Lemma requests_unmount s :
  requests (machine_of (unmount s)) = requests (machine_of s).
Proof.
  unfold unmount. simpl.
  destruct (pollingCleanup (clearIfSet s)); same_requests; reflexivity.
Qed.

(** A handler issues a status check only as the tick of a live interval
    within the ceiling, and then does nothing else. *)
Lemma handle_checks now e s :
  pollsCurrent s ->
  statusChecks (handle now e s) = statusChecks s
  \/ exists id,
       handle now e s = issue (StatusCheck id) s
       /\ taskId (react s) = Some id
       /\ View.nonEmpty id = true.
Proof.
  intros Hcur. unfold statusChecks.
  destruct e as [ f | task_id | message | h | resp | u | ]; simpl.
  - left. destruct (mounted s); [ | reflexivity ].
    unfold handleFileSelect. simpl. same_requests. reflexivity.
  - left. same_requests. reflexivity.
  - left. same_requests. reflexivity.
  - destruct (liveInterval h s) as [ [ h' id ] | ] eqn:Hlive;
      [ | left; reflexivity ].
    unfold intervalCallback.
    destruct (MAX_POLLING_TIME <? elapsed now s)%Z.
    + left. same_requests. reflexivity.
    + right. exists id. unfold liveInterval in Hlive.
      apply find_some in Hlive. destruct Hlive as [ Hin _ ].
      destruct (Hcur _ _ Hin) as (Hid & Hne & _).
      split; [ reflexivity | ]. split; assumption.
  - left. rewrite requests_pollTaskStatusResume. reflexivity.
  - left. destruct (mounted s); [ | reflexivity ].
    same_requests. reflexivity.
  - left. destruct (mounted s); [ | reflexivity ].
    rewrite requests_unmount. reflexivity.
Qed.

(** X19. In every state reached from the initial one, whatever the events,
    a live interval polls the task on screen: the id its callback closes
    over is the current [taskId], a non-empty string, the start time is
    set, and the effect has a cleanup to run.  And every event, from such a
    state, issues at most one status check, and only for the task id that
    is current after the event. *)
Theorem status_checks_are_for_the_current_task
  (trace : list (Z * event)) (te : Z * event) :
  pollsCurrent (run initial trace)
  /\ (statusChecks (step (run initial trace) te)
      = statusChecks (run initial trace)
      \/ exists id,
           statusChecks (step (run initial trace) te)
           = id :: statusChecks (run initial trace)
           /\ taskId (react (step (run initial trace) te)) = Some id
           /\ View.nonEmpty id = true).
Proof.
  pose proof (pollsCurrent_reachable trace) as Hcur.
  split; [ exact Hcur | ].
  set (s := run initial trace) in *. clearbody s.
  destruct te as [ now e ]. unfold step.
  destruct (handle_checks now e Hcur) as [ Hsame | (id & Hh & Hid & Hne) ].
  - set (s1 := handle now e s) in *. clearbody s1.
    unfold commit.
    destruct (mounted s1 && negb (taskId_eqb (taskId (react s)) (taskId (react s1))));
      [ | left; assumption ].
    destruct (pollingEffect_requests now s1) as (Hr & _ & Hq & _).
    unfold statusChecks in *. rewrite Hq, Hr.
    destruct (taskId (react s1)) as [ id | ]; [ | left; assumption ].
    destruct (View.nonEmpty id) eqn:Hne; [ | left; assumption ].
    right. exists id. simpl. rewrite Hsame. auto.
  - rewrite Hh. unfold commit. simpl.
    rewrite AppFacts.taskId_eqb_refl, andb_false_r.
    right. exists id. unfold statusChecks. simpl. auto.
Qed.

(** Two uploads in a row and a late task id for the first: the only
    status check is for the id on screen. *)
Example late_task_id_is_polled_once :
  statusChecks
    (run initial
       [(0%Z, FileSelect "a.csv"); (10%Z, FileSelect "b.csv");
        (20%Z, PipelineStarted "task-a")])
  = ["task-a"]
  /\ taskId
       (react
          (run initial
             [(0%Z, FileSelect "a.csv"); (10%Z, FileSelect "b.csv");
              (20%Z, PipelineStarted "task-a")]))
     = Some "task-a".
Proof. split; reflexivity. Qed.

(** *** The error banner *)

Lemma errorShown_react s s' :
  react s' = react s -> errorShown s -> errorShown s'.
Proof. unfold errorShown. intros ->. auto. Qed.

Lemma orDefault_nonEmpty (message fallback : string) :
  View.nonEmpty fallback = true ->
  View.nonEmpty (orDefault message fallback) = true.
Proof.
  unfold orDefault. intros H.
  destruct (View.nonEmpty message) eqn:E; assumption.
Qed.

Lemma react_clearAndForget s : react (clearAndForget s) = react s.
Proof. apply AppFacts.framed_clearAndForget. Qed.

Lemma mounted_clearAndForget s : mounted (clearAndForget s) = mounted s.
Proof. apply AppFacts.framed_clearAndForget. Qed.

Lemma react_clearRef s : react (clearRef s) = react s.
Proof. apply AppFacts.framed_clearRef. Qed.

Lemma mounted_clearRef s : mounted (clearRef s) = mounted s.
Proof. apply AppFacts.framed_clearRef. Qed.

Lemma mounted_setState f s : mounted (setState f s) = mounted s.
Proof. apply kept_setState. Qed.

(** What [useState] holds after a handler that ends as the failure paths
    do: an error, the loading flag down, no task id. *)
Lemma errorShown_failure (message : string) s0 :
  View.nonEmpty message = true ->
  mounted s0 = true ->
  errorShown
    (setState (set_taskId None)
       (setState (set_loading false)
          (setState (set_error (Some message)) s0))).
Proof.
  intros Hne Hm. unfold errorShown.
  rewrite !react_setState, !mounted_setState, Hm. simpl. auto.
Qed.

Lemma errorShown_handle now e s :
  dismissOnly (now, e) = true -> errorShown s -> errorShown (handle now e s).
Proof.
  intros Hd Hes.
  destruct (mounted s) eqn:Hm.
  2: { (* unmounted: no setter takes effect *)
    apply (@errorShown_react s); [ | assumption ].
    destruct e as [ f | task_id | message | h | resp | u | ]; simpl;
      rewrite ?Hm; try reflexivity.
    - rewrite react_setState, Hm. reflexivity.
    - rewrite !react_setState, !mounted_setState, Hm. reflexivity.
    - destruct (liveInterval h s) as [ [ h' id ] | ]; [ | reflexivity ].
      unfold intervalCallback.
      destruct (MAX_POLLING_TIME <? elapsed now s)%Z; [ | reflexivity ].
      rewrite !react_setState, !mounted_setState, mounted_clearRef, Hm.
      apply react_clearRef.
    - destruct resp as [ st result err | message ]; simpl;
        unfold pollTaskStatusCatch.
      + destruct (st =? "done");
          [ destruct (debugLog result) | destruct (st =? "failed") ];
          rewrite ?react_setState, ?mounted_setState, ?mounted_clearAndForget,
            ?react_clearAndForget, ?react_setState, ?mounted_setState, ?Hm;
          reflexivity.
      + rewrite !react_setState, !mounted_setState, mounted_clearAndForget,
          Hm.
        apply react_clearAndForget. }
  destruct e as [ f | task_id | message | h | resp | u | ]; simpl;
    rewrite ?Hm.
  - unfold errorShown, handleFileSelect. simpl.
    rewrite react_clearAndForget, react_setState, Hm. simpl. exact I.
  - unfold errorShown in *. rewrite react_setState, Hm. simpl. assumption.
  - unfold errorShown.
    rewrite !react_setState, !mounted_setState, Hm. simpl.
    split; [ | reflexivity ]. apply orDefault_nonEmpty. reflexivity.
  - destruct (liveInterval h s) as [ [ h' id ] | ]; [ | assumption ].
    unfold intervalCallback.
    destruct (MAX_POLLING_TIME <? elapsed now s)%Z; [ | assumption ].
    apply errorShown_failure; [ reflexivity | ].
    rewrite mounted_clearRef. assumption.
  - destruct resp as [ st result err | message ]; simpl.
    + assert (Hm1 : mounted (setState (set_status (Some st)) s) = true)
        by (rewrite mounted_setState; assumption).
      assert (Hes1 : errorShown (setState (set_status (Some st)) s)).
      { unfold errorShown in *. rewrite react_setState, Hm. simpl.
        assumption. }
      set (s1 := setState (set_status (Some st)) s) in *. clearbody s1.
      destruct (st =? "done").
      * destruct (debugLog result) as [ _ | e ].
        -- unfold errorShown in *.
           rewrite !react_setState, !mounted_setState, mounted_clearAndForget,
             react_clearAndForget, Hm1. simpl.
           destruct (error (react s1)) as [ m | ]; [ | exact I ].
           split; [ apply Hes1 | reflexivity ].
        -- unfold pollTaskStatusCatch. apply errorShown_failure.
           ++ apply orDefault_nonEmpty. reflexivity.
           ++ rewrite !mounted_clearAndForget. assumption.
      * destruct (st =? "failed"); [ | assumption ].
        apply errorShown_failure.
        -- apply orDefault_nonEmpty. reflexivity.
        -- rewrite mounted_clearAndForget. assumption.
    + unfold pollTaskStatusCatch. apply errorShown_failure.
      * apply orDefault_nonEmpty. reflexivity.
      * rewrite mounted_clearAndForget. assumption.
  - unfold errorShown in *. rewrite react_setState, Hm.
    destruct u as [ v | v | v | v | v | v | v | [ m | ] ]; simpl;
      try assumption.
    + discriminate.
    + exact I.
  - apply (@errorShown_react s); [ | assumption ].
    unfold unmount. simpl.
    destruct (pollingCleanup (clearIfSet s));
      rewrite ?react_clearAndForget; apply AppFacts.framed_clearIfSet.
Qed.

Lemma errorShown_step s te :
  dismissOnly te = true -> errorShown s -> errorShown (step s te).
Proof.
  intros Hd Hes. destruct te as [ now e ]. unfold step.
  pose proof (errorShown_handle now e s Hd Hes) as H1.
  set (s1 := handle now e s) in *. clearbody s1.
  unfold commit.
  destruct (mounted s1 && negb (taskId_eqb (taskId (react s)) (taskId (react s1))));
    [ | assumption ].
  apply (@errorShown_react s1); [ | assumption ].
  apply pollingEffect_requests.
Qed.

(** X20. When the pages use [setError] only to dismiss the banner, in every
    state reached from the initial one an error that is shown has a text
    that is not empty, and the loading flag is down while it is shown:
    every path that sets an error (a failed upload, a failed or rejected
    status check, the timeout) falls back to a fixed message and clears the
    flag, and an upload, which raises the flag, clears the error. *)
Theorem error_banner_has_text_and_no_loading (trace : list (Z * event)) :
  forallb dismissOnly trace = true ->
  errorShown (run initial trace).
Proof.
  assert (H : forall s, errorShown s -> forallb dismissOnly trace = true ->
                        errorShown (run s trace)).
  { unfold run. induction trace as [ | te trace IH ]; intros s Hes Hd;
      simpl; [ assumption | ].
    simpl in Hd. apply andb_prop in Hd. destruct Hd as [ Hte Hd ].
    apply IH; [ apply errorShown_step | ]; assumption. }
  intros Hd. apply H; [ exact I | assumption ].
Qed.

Lemma error_banner_has_text_and_no_loading_witness :
  errorShown
    (run initial
       [(0%Z, FileSelect "a.csv"); (5%Z, PipelineStarted "t");
        (10%Z, StatusArrived (Resolved "failed" JNull ""));
        (11%Z, Ui (SetSearchQuery "x"))])
  /\ error
       (react
          (run initial
             [(0%Z, FileSelect "a.csv"); (5%Z, PipelineStarted "t");
              (10%Z, StatusArrived (Resolved "failed" JNull ""));
              (11%Z, Ui (SetSearchQuery "x"))]))
     = Some "Pipeline processing failed.".
Proof.
  split.
  - apply (@error_banner_has_text_and_no_loading
             [(0%Z, FileSelect "a.csv"); (5%Z, PipelineStarted "t");
              (10%Z, StatusArrived (Resolved "failed" JNull ""));
              (11%Z, Ui (SetSearchQuery "x"))]).
    reflexivity.
  - reflexivity.
Defined.

(** A finished job whose first entry is [null]: the debug log of the
    [done] branch raises before the results are stored, the [catch] block
    runs, and the banner shows the message of the exception.  With entries
    that have properties the results are stored and no error is set. *)
Example done_with_a_null_entry :
  let rejected :=
    run initial
      [(0%Z, FileSelect "a.csv"); (5%Z, PipelineStarted "t");
       (10%Z, StatusArrived
                (Resolved "done" (JObj [("customer_churn", JArr [JNull])])
                   ""))] in
  let stored :=
    run initial
      [(0%Z, FileSelect "a.csv"); (5%Z, PipelineStarted "t");
       (10%Z, StatusArrived
                (Resolved "done"
                   (JObj [("customer_churn", JArr [JObj []])]) ""))] in
  error (react rejected) = Some (messageOf TypeError)
  /\ results (react rejected) = JNull
  /\ loading (react rejected) = false
  /\ taskId (react rejected) = None
  /\ intervals (machine_of rejected) = []
  /\ error (react stored) = None
  /\ results (react stored) = JObj [("customer_churn", JArr [JObj []])]
  /\ taskId (react stored) = None.
Proof. repeat split. Qed.

End AppExtra.
